(** * speedKG ingestion pipeline: a shallow embedding and its properties

    The development follows the layout of the repository:

    - [PyStr], [MD5], [PyDict], [Json]: the Python built-ins the
      sources call ([str.lower], [str.strip], [int], [hashlib.md5],
      [dict], [json.dumps], ...), on the values the pipeline handles;
    - [Events], [Actors], [Cameo]: [src/domain];
    - [CameoParser], [SchemaValidator], [CsvParser], [Neo4jLoader]:
      [src/ingestion];
    - [Variants], [TemporalRuns], [ValidatorRuns], [ParserRuns],
      [Stores], [Readings], [Cases]: the predicates and the concrete
      inputs the statements of the second part are written with.

    Strings are sequences of code points below 256 (Rocq's [string]):
    the CSV source is decoded with [encoding='latin1'], so every
    character the record parser and the loader see is one of these.
    A float is named by its [repr]. The graph database is modelled by
    the effect of the Cypher statements the loader sends; a statement
    that raises leaves the store as it was, and the loader goes on with
    the next Event, as its [try] block does. *)

From Stdlib Require Import ZArith NArith QArith Lia Ascii String DecimalString.
From Stdlib Require DecimalNat DecimalFacts.
From stdpp Require Import base option list strings gmap relations.

Local Open Scope string_scope.
Local Open Scope list_scope.

(** ** Outcomes of Python calls *)

(** The exception classes the modelled code can meet. *)
Inductive exn : Type :=
  | ValueError
  | TypeError
  | OverflowError
  | AttributeError
  | ConstraintError (label key : string).

(** A call either returns a value or raises. *)
Inductive outcome (A : Type) : Type :=
  | Returned (a : A)
  | Raised (e : exn).
Arguments Returned {A} a.
Arguments Raised {A} e.

Definition obind {A B} (m : outcome A) (k : A -> outcome B) : outcome B :=
  match m with
  | Returned a => k a
  | Raised e => Raised e
  end.

(** [outcome] is a monad; stdpp's [x ← m; k] sequences calls and lets the
    first exception through. *)
#[global] Instance outcome_ret : MRet outcome := fun A a => Returned a.
#[global] Instance outcome_bind : MBind outcome := fun A B k m => obind m k.

(** ** Python strings *)
Module PyStr.

Definition code (c : ascii) : N := N_of_ascii c.

Definition in_range (lo hi n : N) : bool := ((lo <=? n) && (n <=? hi))%N.

(** [str.isspace] (and the regex class [\s]) below code point 256. *)
Definition isspace (c : ascii) : bool :=
  let n := code c in
  in_range 9 13 n || in_range 28 32 n || (n =? 133)%N || (n =? 160)%N.

(** [\d] below code point 256. *)
Definition isdigit (c : ascii) : bool := in_range 48 57 (code c).

(** [str.lower] on one character: A-Z and the Latin-1 capitals
    (0xC0-0xDE without the multiplication sign 0xD7). *)
Definition lower_char (c : ascii) : ascii :=
  let n := code c in
  if in_range 65 90 n || (in_range 192 222 n && negb (n =? 215)%N)
  then ascii_of_N (n + 32) else c.

(** [str.upper] on one character.  The upper-case forms of 0xB5, 0xDF
    and 0xFF lie outside Latin-1; they are left in place here, and
    the sources only call [upper] on hexadecimal digests. *)
Definition upper_char (c : ascii) : ascii :=
  let n := code c in
  if in_range 97 122 n || (in_range 224 254 n && negb (n =? 247)%N)
  then ascii_of_N (n - 32) else c.

Fixpoint map (f : ascii -> ascii) (s : string) : string :=
  match s with
  | EmptyString => EmptyString
  | String c r => String (f c) (map f r)
  end.

Definition lower : string -> string := map lower_char.
Definition upper : string -> string := map upper_char.

Fixpoint lstrip (s : string) : string :=
  match s with
  | EmptyString => EmptyString
  | String c r => if isspace c then lstrip r else s
  end.

Fixpoint rstrip (s : string) : string :=
  match s with
  | EmptyString => EmptyString
  | String c r =>
      match rstrip r with
      | EmptyString => if isspace c then EmptyString else String c EmptyString
      | r' => String c r'
      end
  end.

(** [str.strip()] *)
Definition strip (s : string) : string := rstrip (lstrip s).

(** [bool(s)] *)
Definition truthy (s : string) : bool :=
  match s with EmptyString => false | _ => true end.

(** [s[:n]] *)
Fixpoint take (n : nat) (s : string) : string :=
  match n, s with
  | S n', String c r => String c (take n' r)
  | _, _ => EmptyString
  end.

(** [s[:-1]] *)
Fixpoint drop_last (s : string) : string :=
  match s with
  | EmptyString => EmptyString
  | String c EmptyString => EmptyString
  | String c r => String c (drop_last r)
  end.

(** [s.startswith(p)] *)
Fixpoint startswith (p s : string) : bool :=
  match p, s with
  | EmptyString, _ => true
  | String a p', String b s' => Ascii.eqb a b && startswith p' s'
  | _, _ => false
  end.

(** [sep.join(l)] *)
Fixpoint join (sep : string) (l : list string) : string :=
  match l with
  | [] => EmptyString
  | [x] => x
  | x :: r => x +:+ sep +:+ join sep r
  end.

(** [str(n)] for an integer. *)
Definition of_nat (n : nat) : string :=
  NilEmpty.string_of_uint (Nat.to_uint n).
Definition of_Z (z : Z) : string :=
  match z with
  | Zneg p => "-" +:+ of_nat (Pos.to_nat p)
  | _ => of_nat (Z.to_nat z)
  end.

(** The digits of a literal accepted by [int]: groups of decimal
    digits separated by single underscores.  [acc] is the value read
    so far; [prev] tells whether the previous character was a digit. *)
Fixpoint int_digits (s : string) (acc : Z) (prev : bool) : option Z :=
  match s with
  | EmptyString => if prev then Some acc else None
  | String c r =>
      if isdigit c
      then int_digits r (10 * acc + (Z.of_N (code c) - 48))%Z true
      else if Ascii.eqb c "_" && prev
           then match r with
                | String d _ => if isdigit d then int_digits r acc false else None
                | EmptyString => None
                end
           else None
  end.

(** [int(s)] in base 10: surrounding whitespace, an optional sign and
    the digits; [None] stands for [ValueError]. *)
Definition int (s : string) : option Z :=
  match strip s with
  | String "+" r => int_digits r 0 false
  | String "-" r => Z.opp <$> int_digits r 0 false
  | r => int_digits r 0 false
  end.

(** [s.encode('utf-8')] for code points below 256: one byte below 128,
    two bytes from there on. *)
Fixpoint encode_utf8 (s : string) : list N :=
  match s with
  | EmptyString => []
  | String c r =>
      let n := code c in
      if (n <? 128)%N then n :: encode_utf8 r
      else N.lor 192 (N.shiftr n 6) :: N.lor 128 (N.land n 63) :: encode_utf8 r
  end.

End PyStr.

(** ** [hashlib.md5] (RFC 1321) *)
Module MD5.
Local Open Scope N_scope.

Definition w32 (x : N) : N := x mod 4294967296.
Definition add32 (a b : N) : N := w32 (a + b).
Definition not32 (x : N) : N := N.lxor (w32 x) 4294967295.
Definition rotl32 (x c : N) : N :=
  w32 (N.lor (N.shiftl x c) (N.shiftr x (32 - c))).

Definition shifts : list N :=
  [7; 12; 17; 22; 7; 12; 17; 22; 7; 12; 17; 22; 7; 12; 17; 22;
   5; 9; 14; 20; 5; 9; 14; 20; 5; 9; 14; 20; 5; 9; 14; 20;
   4; 11; 16; 23; 4; 11; 16; 23; 4; 11; 16; 23; 4; 11; 16; 23;
   6; 10; 15; 21; 6; 10; 15; 21; 6; 10; 15; 21; 6; 10; 15; 21].

(** [floor (2^32 * |sin (i + 1)|)] for [i] in 0..63. *)
Definition sines : list N :=
  [3614090360; 3905402710; 606105819; 3250441966;
   4118548399; 1200080426; 2821735955; 4249261313;
   1770035416; 2336552879; 4294925233; 2304563134;
   1804603682; 4254626195; 2792965006; 1236535329;
   4129170786; 3225465664; 643717713; 3921069994;
   3593408605; 38016083; 3634488961; 3889429448;
   568446438; 3275163606; 4107603335; 1163531501;
   2850285829; 4243563512; 1735328473; 2368359562;
   4294588738; 2272392833; 1839030562; 4259657740;
   2763975236; 1272893353; 4139469664; 3200236656;
   681279174; 3936430074; 3572445317; 76029189;
   3654602809; 3873151461; 530742520; 3299628645;
   4096336452; 1126891415; 2878612391; 4237533241;
   1700485571; 2399980690; 4293915773; 2240044497;
   1873313359; 4264355552; 2734768916; 1309151649;
   4149444226; 3174756917; 718787259; 3951481745].

Definition state : Type := N * N * N * N.

Definition init : state := (1732584193, 4023233417, 2562383102, 271733878).

Definition nth_word (l : list N) (i : N) : N := nth (N.to_nat i) l 0.

(** One of the 64 operations on a block [m] of 16 words. *)
Definition round (m : list N) (st : state) (i : N) : state :=
  let '(a, b, c, d) := st in
  let '(f, g) :=
    if i <? 16 then (N.lor (N.land b c) (N.land (not32 b) d), i)
    else if i <? 32 then (N.lor (N.land d b) (N.land (not32 d) c), (5 * i + 1) mod 16)
    else if i <? 48 then (N.lxor b (N.lxor c d), (3 * i + 5) mod 16)
    else (N.lxor c (N.lor b (not32 d)), (7 * i) mod 16) in
  let f' := add32 (add32 (add32 f a) (nth_word sines i)) (nth_word m g) in
  (d, add32 b (rotl32 f' (nth_word shifts i)), b, c).

Definition block (st : state) (m : list N) : state :=
  let '(a0, b0, c0, d0) := st in
  let '(a, b, c, d) := foldl (round m) st (N.of_nat <$> seq 0 64) in
  (add32 a0 a, add32 b0 b, add32 c0 c, add32 d0 d).

(** Little-endian bytes of a word, and back. *)
Definition bytes_of_word (w : N) : list N :=
  [w mod 256; (w / 256) mod 256; (w / 65536) mod 256; (w / 16777216) mod 256].

Fixpoint words_of_bytes (n : nat) (bs : list N) : list N :=
  match n, bs with
  | S n', b0 :: b1 :: b2 :: b3 :: r =>
      (b0 + 256 * b1 + 65536 * b2 + 16777216 * b3) :: words_of_bytes n' r
  | _, _ => []
  end.

(** The message, a 1 bit, zeros up to 56 modulo 64, and the length in
    bits on 8 bytes. *)
Definition pad (msg : list N) : list N :=
  let len := N.of_nat (length msg) in
  let zeros := N.to_nat ((119 - len mod 64) mod 64) in
  let bits := (8 * len) mod 18446744073709551616 in
  msg ++ [128] ++ replicate zeros 0
      ++ bytes_of_word (w32 bits) ++ bytes_of_word (bits / 4294967296).

Fixpoint blocks (n : nat) (ws : list N) : list (list N) :=
  match n with
  | O => []
  | S n' => take 16 ws :: blocks n' (drop 16 ws)
  end.

Definition digest (msg : list N) : state :=
  let bs := pad msg in
  foldl block init (blocks (length bs / 64) (words_of_bytes (length bs / 4) bs)).

Definition hex_digit (n : N) : ascii :=
  nth (N.to_nat (n mod 16))
    ["0"; "1"; "2"; "3"; "4"; "5"; "6"; "7";
     "8"; "9"; "a"; "b"; "c"; "d"; "e"; "f"]%char "0"%char.

Definition hex_byte (b : N) : list ascii := [hex_digit (b / 16); hex_digit b].

Definition hex_state (st : state) : string :=
  let '(a, b, c, d) := st in
  string_of_list_ascii
    (mbind hex_byte (mbind bytes_of_word [a; b; c; d])).

(** [hashlib.md5(msg).hexdigest()] *)
Definition hexdigest (msg : list N) : string := hex_state (digest msg).

End MD5.

(** ** Python dictionaries: insertion-ordered, one entry per key *)
Module PyDict.
Section Dict.
Context {V : Type}.

Fixpoint get (k : string) (d : list (string * V)) : option V :=
  match d with
  | [] => None
  | (k', v) :: r => if String.eqb k' k then Some v else get k r
  end.

(** [d[k] = v]: an existing key keeps its position. *)
Fixpoint set (k : string) (v : V) (d : list (string * V)) : list (string * V) :=
  match d with
  | [] => [(k, v)]
  | (k', v') :: r =>
      if String.eqb k' k then (k', v) :: r else (k', v') :: set k v r
  end.
End Dict.
End PyDict.

(** ** [src/domain/events.py] *)
Module Events.

(** A Python [float], named by its [repr] (the text [str] and an
    f-string print for it); [0.0] and [-0.0] are two values, as they
    are for [str]. *)
Definition pyfloat : Type := string.

Inductive ActorRole : Type := INITIATOR | TARGET | VICTIM.

Record Actor : Type := mkActor {
  role : ActorRole;
  identity_group : option string;
  sector_group : option string;
  political_group : option string;
  actor_type : option Z;
  government_type : option Z;
  government_level : option Z;
  non_gov_type : option Z;
  is_known : option Z;
  ambiguity : option pyfloat;
  human_indicator : option Z;
  num_participants : option Z;
  num_armed : option Z
}.

(** Truth value of an [Optional[str]] and of an [Optional[int]]. *)
Definition truthy_str (o : option string) : bool :=
  match o with Some s => PyStr.truthy s | None => false end.
Definition truthy_int (o : option Z) : bool :=
  match o with Some z => negb (z =? 0)%Z | None => false end.

(** [a or b] on optional strings. *)
Definition or_str (a b : option string) : option string :=
  if truthy_str a then a else b.

Definition primary_name (a : Actor) : option string :=
  or_str (political_group a) (or_str (sector_group a) (identity_group a)).

Definition is_government (a : Actor) : bool :=
  match government_type a with Some g => (0 <? g)%Z | None => false end.

Definition is_non_government (a : Actor) : bool :=
  match non_gov_type a with Some g => (0 <? g)%Z | None => false end.

Definition is_human (a : Actor) : bool :=
  match human_indicator a with Some h => (h =? 1)%Z | None => false end.

Record Location : Type := mkLocation {
  name : option string;
  country : option string;
  latitude : option pyfloat;
  longitude : option pyfloat;
  location_type : option Z;
  region : option Z;
  cow_code : option Z;
  pinpoint : option Z
}.

(** A [datetime.date]: a year, a month and a day that passed the
    constructor's checks. *)
Record date : Type := mkDate { d_year : Z; d_month : Z; d_day : Z }.

Definition is_leap (y : Z) : bool :=
  ((y mod 4 =? 0) && (negb (y mod 100 =? 0) || (y mod 400 =? 0)))%Z.

Definition days_in_month (y m : Z) : Z :=
  if (m =? 2)%Z then (if is_leap y then 29 else 28)%Z
  else if ((m =? 4) || (m =? 6) || (m =? 9) || (m =? 11))%Z then 30%Z
  else 31%Z.

Definition valid_date (y m d : Z) : bool :=
  ((1 <=? y) && (y <=? 9999) && (1 <=? m) && (m <=? 12)
   && (1 <=? d) && (d <=? days_in_month y m))%Z.

(** An argument of [date(...)] must fit a C [int]. *)
Definition fits_c_int (z : Z) : bool :=
  ((-2147483648 <=? z) && (z <=? 2147483647))%Z.

(** [datetime.date(y, m, d)]: [OverflowError] for an argument beyond
    a C [int], [ValueError] for a date that does not exist. *)
Definition date_new (y m d : Z) : outcome date :=
  if fits_c_int y && fits_c_int m && fits_c_int d
  then if valid_date y m d then Returned (mkDate y m d) else Raised ValueError
  else Raised OverflowError.

Record TemporalInfo : Type := mkTemporalInfo {
  year : option Z;
  month : option Z;
  day : option Z;
  date_type : option Z;
  julian_possible_start : option Z;
  julian_possible_end : option Z;
  julian_earliest : option Z;
  julian_latest : option Z;
  julian_start_date : option Z;
  julian_end_date : option Z;
  day_span : option Z;
  publication_date : option date;
  code_date : option date
}.

Definition precision (t : TemporalInfo) : string :=
  if truthy_int (day t) then "day"
  else if truthy_int (month t) then "month"
  else if truthy_int (year t) then "year"
  else "unknown".

(** [try: return date(...) except ValueError: return None], under the
    guard [if self.year and self.month and self.day]. *)
Definition calendar_date (t : TemporalInfo) : outcome (option date) :=
  match year t, month t, day t with
  | Some y, Some m, Some d =>
      if truthy_int (Some y) && truthy_int (Some m) && truthy_int (Some d)
      then match date_new y m d with
           | Returned dt => Returned (Some dt)
           | Raised ValueError => Returned None
           | Raised e => Raised e
           end
      else Returned None
  | _, _, _ => Returned None
  end.

Record Impact : Type := mkImpact {
  killed_participants : option Z;
  killed_armed : option Z;
  injured : option Z;
  injured_detailed : option Z;
  arrests : option Z;
  property_damaged : option Z;
  property_owner : option string;
  victim_effect : option string
}.

Definition total_killed (i : Impact) : Z :=
  (default 0 (killed_participants i) + default 0 (killed_armed i))%Z.

Definition total_injured (i : Impact) : Z :=
  Z.max (default 0%Z (injured i)) (default 0%Z (injured_detailed i)).

(** A value of the sparse [properties] dictionary. *)
Inductive propval : Type := PStr (s : string) | PInt (z : Z).

Record Event : Type := mkEvent {
  event_id : string;
  temporal : option TemporalInfo;
  event_type : option Z;
  pe_type : option Z;
  atk_type : option Z;
  dsa_type : option Z;
  news_source : option string;
  article_id : option string;
  initiator : option Actor;
  target : option Actor;
  victim : option Actor;
  location : option Location;
  impact : option Impact;
  is_quasi_event : bool;
  is_state_action : bool;
  is_coup : bool;
  is_coup_failed : bool;
  is_linked : bool;
  link_type : option Z;
  linked_from : list string;
  linked_to : list string;
  is_posthoc : bool;
  properties : list (string * propval)
}.

(** [event.properties[k] = v] *)
Definition set_property (k : string) (v : propval) (e : Event) : Event :=
  mkEvent (event_id e) (temporal e) (event_type e) (pe_type e) (atk_type e)
    (dsa_type e) (news_source e) (article_id e) (initiator e) (target e)
    (victim e) (location e) (impact e) (is_quasi_event e) (is_state_action e)
    (is_coup e) (is_coup_failed e) (is_linked e) (link_type e)
    (linked_from e) (linked_to e) (is_posthoc e)
    (PyDict.set k v (properties e)).

(** *** The remaining properties and methods of the domain classes *)

(** [s or d] for an [Optional[str]] and a string. *)
Definition or_else (o : option string) (d : string) : string :=
  match o with
  | Some s => if PyStr.truthy s then s else d
  | None => d
  end.

(** [Location.display_name] *)
Definition display_name (l : Location) : string :=
  or_else (name l) (or_else (country l) "Unknown Location").

(** [TemporalInfo.has_range] *)
Definition has_range (t : TemporalInfo) : bool :=
  match day_span t with Some n => (1 <? n)%Z | None => false end
  || (bool_decide (is_Some (julian_start_date t))
      && bool_decide (is_Some (julian_end_date t))).

Fixpoint zeros (n : nat) : string :=
  match n with
  | O => EmptyString
  | S n' => String "0" (zeros n')
  end.

(** [format(z, '0Nd')], the [%0Nd] of [isoformat]: the digits padded
    with zeros to [width] characters, the sign first and counted. *)
Definition format_0d (width : nat) (z : Z) : string :=
  let digits := PyStr.of_Z (Z.abs z) in
  if (z <? 0)%Z
  then "-" +:+ zeros (width - 1 - String.length digits) +:+ digits
  else zeros (width - String.length digits) +:+ digits.

(** [date.isoformat()] *)
Definition isoformat (d : date) : string :=
  format_0d 4 (d_year d) +:+ "-" +:+ format_0d 2 (d_month d)
    +:+ "-" +:+ format_0d 2 (d_day d).

(** [TemporalInfo.display_date].  A [date] is always true; the
    property [calendar_date] is read twice and answers the same. *)
Definition display_date (t : TemporalInfo) : outcome string :=
  d ← calendar_date t;
  mret (match d with
        | Some dt => isoformat dt
        | None =>
            let y := default 0%Z (year t) in
            let m := default 0%Z (month t) in
            if truthy_int (year t) && truthy_int (month t)
            then PyStr.of_Z y +:+ "-" +:+ format_0d 2 m
            else if truthy_int (year t) then PyStr.of_Z y
            else "Unknown date"
        end).

(** What an [and]/[or] chain over optional counts evaluates to:
    [None], an integer, or a boolean. *)
Inductive answer : Type :=
  | ANone
  | AInt (z : Z)
  | ABool (b : bool).

(** [bool(a)] *)
Definition answer_truthy (a : answer) : bool :=
  match a with
  | ANone => false
  | AInt z => negb (z =? 0)%Z
  | ABool b => b
  end.

(** [a or b] *)
Definition or_answer (a b : answer) : answer :=
  if answer_truthy a then a else b.

(** [x and x > 0] *)
Definition and_positive (x : option Z) : answer :=
  match x with
  | None => ANone
  | Some z => if (z =? 0)%Z then AInt z else ABool (0 <? z)%Z
  end.

(** [Impact.has_casualties] *)
Definition has_casualties (i : Impact) : answer :=
  or_answer (or_answer (and_positive (killed_participants i))
                       (and_positive (killed_armed i)))
            (and_positive (injured i)).

(** [Event.has_actors]: an [Actor] object is always true. *)
Definition has_actors (e : Event) : bool :=
  bool_decide (is_Some (initiator e)) || bool_decide (is_Some (target e))
  || bool_decide (is_Some (victim e)).

(** [Event.actor_count] *)
Definition actor_count (e : Event) : Z :=
  Z.of_nat (length (omap id [initiator e; target e; victim e])).

(** [Event.is_violent] *)
Definition is_violent (e : Event) : answer :=
  or_answer (ABool (bool_decide (event_type e = Some 2%Z)))
    (match impact e with
     | Some i => has_casualties i
     | None => ABool false
     end).

(** [Event.has_location] *)
Definition has_location (e : Event) : bool := bool_decide (is_Some (location e)).

(** [Event.event_date] *)
Definition event_date (e : Event) : outcome (option date) :=
  match temporal e with
  | Some t => calendar_date t
  | None => Returned None
  end.

(** [Event.add_motivation_property] *)
Definition add_motivation_property (key : string) (value : option propval)
    (e : Event) : Event :=
  match value with
  | Some v => set_property key v e
  | None => e
  end.

(** [Event.get_all_linked_events] *)
Definition get_all_linked_events (e : Event) : list string :=
  linked_from e ++ linked_to e.

End Events.

(** ** [src/domain/actors.py] *)
Module Actors.

(** The normalisation applied before hashing: [name.lower().strip()]. *)
Definition normalize (actor_name : string) : string :=
  PyStr.strip (PyStr.lower actor_name).

Definition hash_value (normalized : string) : string :=
  PyStr.upper (PyStr.take 12 (MD5.hexdigest (PyStr.encode_utf8 normalized))).

Definition generate_actor_id (actor_name : string) : string :=
  if negb (PyStr.truthy actor_name) then "ACTOR_UNKNOWN"
  else "ACTOR_" +:+ hash_value (normalize actor_name).

Import Events.

(** [is_armed_actor] *)
Definition is_armed_actor (actor : Actor) : bool :=
  match num_armed actor with Some n => (0 <? n)%Z | None => false end.

(** [x in range(lo, hi)] *)
Definition range_mem (lo hi x : Z) : bool := ((lo <=? x) && (x <? hi))%Z.

(** [classify_actor_type] *)
Definition classify_actor_type (actor : Actor) : string :=
  if is_government actor then
    if bool_decide (government_level actor = Some 4%Z) then "national_government"
    else if bool_decide (government_level actor = Some 3%Z) then "regional_government"
    else if bool_decide (government_level actor = Some 1%Z)
            || bool_decide (government_level actor = Some 2%Z)
         then "local_government"
    else "government_unspecified"
  else if is_non_government actor then
    match non_gov_type actor with
    | Some t =>
        if negb (t =? 0)%Z then
          if range_mem 1 10 t then "political_organization"
          else if range_mem 10 20 t then "armed_group"
          else if range_mem 20 30 t then "civil_society"
          else "other_non_government"
        else "non_government_unspecified"
    | None => "non_government_unspecified"
    end
  else "unknown".

(** [ActorRole.value] *)
Definition role_value (r : ActorRole) : string :=
  match r with
  | INITIATOR => "initiator"
  | TARGET => "target"
  | VICTIM => "victim"
  end.

(** [get_actor_description] *)
Definition get_actor_description (actor : Actor) : string :=
  let kind :=
    if is_government actor then ["[Government]"]
    else if is_non_government actor then ["[Non-Government]"]
    else [] in
  let armed :=
    match num_armed actor with
    | Some n => if negb (n =? 0)%Z then ["Armed: " +:+ PyStr.of_Z n] else []
    | None => []
    end in
  PyStr.join " "
    ([or_else (primary_name actor) "Unknown Actor";
      "(" +:+ role_value (role actor) +:+ ")"] ++ kind ++ armed).

(** What [merge_actor_info] returns for a list that is not empty. The
    two lists the source builds from a [set] come in no fixed order:
    they are kept as sets. *)
Record merged : Type := mkMerged {
  names : gset string;
  roles : gset string;
  m_is_government : bool;
  m_is_non_government : bool;
  total_appearances : Z;
  total_armed : Z;
  total_participants : Z
}.

Definition sum_of (l : list Z) : Z := foldr Z.add 0%Z l.

(** [merge_actor_info]; [None] is the empty dictionary. *)
Definition merge_actor_info (actors : list Actor) : option merged :=
  match actors with
  | [] => None
  | _ =>
      Some (mkMerged
              (list_to_set
                 (omap (fun a => if truthy_str (primary_name a)
                                 then primary_name a else None) actors))
              (list_to_set ((fun a => role_value (role a)) <$> actors))
              (existsb is_government actors)
              (existsb is_non_government actors)
              (Z.of_nat (length actors))
              (sum_of ((fun a => default 0%Z (num_armed a)) <$> actors))
              (sum_of ((fun a => default 0%Z (num_participants a)) <$> actors)))
  end.

(** A dictionary keyed by integers. *)
Fixpoint get_int (k : Z) (d : list (Z * string)) : option string :=
  match d with
  | [] => None
  | (k', v) :: r => if (k' =? k)%Z then Some v else get_int k r
  end.

Definition GOVERNMENT_TYPES : list (Z * string) :=
  [(1, "Executive"); (2, "Legislature"); (3, "Judiciary"); (4, "Police");
   (5, "Military"); (6, "Intelligence"); (7, "Bureaucracy");
   (8, "Political party"); (9, "Election commission"); (10, "State media");
   (11, "State-owned enterprise"); (12, "Local government");
   (13, "Regional government"); (14, "National government");
   (15, "Former government"); (16, "Government coalition");
   (17, "Government supporter"); (18, "Pro-government militia");
   (19, "Government in exile"); (20, "Transitional government");
   (21, "Government delegate"); (22, "Government spokesperson");
   (23, "Other government")]%Z.

Definition NON_GOVERNMENT_TYPES : list (Z * string) :=
  [(1, "Political opposition"); (2, "Armed opposition"); (3, "Rebel group");
   (4, "Insurgent group"); (5, "Guerrilla group"); (6, "Paramilitary group");
   (7, "Militia"); (8, "Terrorist group"); (9, "Separatist group");
   (10, "Civil society organization"); (11, "NGO");
   (12, "Religious organization"); (13, "Labor union"); (14, "Student group");
   (15, "Women's group"); (16, "Business association");
   (17, "Professional association"); (18, "Community organization");
   (19, "Ethnic group"); (20, "Tribal group"); (21, "Clan"); (22, "Family");
   (23, "Individual"); (24, "Protesters"); (25, "Demonstrators");
   (26, "Rioters"); (27, "Strikers"); (28, "Refugees");
   (29, "Displaced persons"); (30, "Civilians"); (31, "Media");
   (32, "Academic institution"); (33, "Think tank");
   (34, "International organization"); (35, "Foreign government");
   (36, "Criminal organization"); (37, "Other non-government")]%Z.

(** [TABLE.get(type_code) if type_code else None] *)
Definition type_name (table : list (Z * string)) (type_code : option Z)
  : option string :=
  match type_code with
  | Some c => if negb (c =? 0)%Z then get_int c table else None
  | None => None
  end.

Definition get_government_type_name : option Z -> option string :=
  type_name GOVERNMENT_TYPES.

Definition get_non_government_type_name : option Z -> option string :=
  type_name NON_GOVERNMENT_TYPES.

End Actors.

(** ** [src/domain/cameo.py] *)
Module Cameo.

Record CAMEOEventType : Type := mkEventType {
  code : string;
  label : string;
  level : Z;
  category : option string
}.

Definition len (s : string) : Z := Z.of_nat (String.length s).

Definition parent_code (et : CAMEOEventType) : option string :=
  if ((1 <? level et) && (2 <? len (code et)))%Z
  then Some (PyStr.drop_last (code et)) else None.

Definition root_category (et : CAMEOEventType) : string :=
  if (2 <=? len (code et))%Z then PyStr.take 2 (code et) else code et.

(** [try: cat = int(self.root_category); return lo <= cat <= hi
     except ValueError: return False] *)
Definition category_between (lo hi : Z) (et : CAMEOEventType) : bool :=
  match PyStr.int (root_category et) with
  | Some cat => ((lo <=? cat) && (cat <=? hi))%Z
  | None => false
  end.

Definition is_cooperation : CAMEOEventType -> bool := category_between 1 9.
Definition is_conflict : CAMEOEventType -> bool := category_between 10 20.
Definition is_material : CAMEOEventType -> bool := category_between 15 20.
Definition is_verbal : CAMEOEventType -> bool := category_between 1 14.

(** *** [CAMEOActorType] *)
Module ActorType.

Record CAMEOActorType : Type := mkActorType {
  code : string;
  name : string;
  description : option string;
  date_added : option string;
  valid_from : option Events.date;
  valid_to : option Events.date
}.

(** [s[n:]] *)
Fixpoint from (n : nat) (s : string) : string :=
  match n, s with
  | S n', String _ r => from n' r
  | _, _ => s
  end.

Definition base_country (a : CAMEOActorType) : option string :=
  if (3 <=? len (code a))%Z && negb (PyStr.startswith "IGO" (code a))
     && negb (PyStr.startswith "NGO" (code a))
  then Some (PyStr.take 3 (code a)) else None.

Definition actor_type (a : CAMEOActorType) : option string :=
  if (3 <? len (code a))%Z then Some (from 3 (code a)) else None.

Definition is_international_org (a : CAMEOActorType) : bool :=
  PyStr.startswith "IGO" (code a) || PyStr.startswith "NGO" (code a).

End ActorType.

(** *** [CAMEOVerb] *)
Module Verb.

Record CAMEOVerb : Type := mkVerb {
  code : string;
  pattern : string;
  label : option string;
  level : Z;
  parent_code : option string;
  metadata : option string
}.

Definition root_category (v : CAMEOVerb) : string :=
  if (2 <=? len (code v))%Z then PyStr.take 2 (code v) else code v.

Definition is_root (v : CAMEOVerb) : bool := (len (code v) =? 2)%Z.

End Verb.

(** *** [CAMEOOption] *)
Module Option.

Record CAMEOOption : Type := mkOption {
  code : string;
  label : string;
  description : option string
}.

End Option.

(** *** [CAMEOOntology] *)
Module Ontology.

Record CAMEOOntology : Type := mkOntology {
  actor_types : list ActorType.CAMEOActorType;
  verbs : list Verb.CAMEOVerb;
  event_types : list CAMEOEventType;
  options : list Option.CAMEOOption
}.

(** The first event type with the code, if any. *)
Definition get_event_type (o : CAMEOOntology) (c : string)
  : option CAMEOEventType :=
  List.find (fun et => String.eqb (code et) c) (event_types o).

Definition get_actor_type (o : CAMEOOntology) (c : string)
  : option ActorType.CAMEOActorType :=
  List.find (fun a => String.eqb (ActorType.code a) c) (actor_types o).

Definition get_event_types_by_category (o : CAMEOOntology) (cat : string)
  : list CAMEOEventType :=
  List.filter (fun et => String.eqb (root_category et) cat) (event_types o).

Definition build_event_hierarchy (o : CAMEOOntology)
  : list (string * list string) :=
  foldl (fun hierarchy et =>
           match parent_code et with
           | Some parent =>
               if PyStr.truthy parent
               then PyDict.set parent
                      (default [] (PyDict.get parent hierarchy) ++ [code et])
                      hierarchy
               else hierarchy
           | None => hierarchy
           end) [] (event_types o).

End Ontology.

End Cameo.

(** ** [src/ingestion/cameo_parser.py] *)
Module CameoParser.
Import Cameo.

Fixpoint drop (n : nat) (s : string) : string :=
  match n, s with
  | S n', String _ r => drop n' r
  | _, _ => s
  end.

(** The longest run of digits at the head of [s], and what follows. *)
Fixpoint span_digits (s : string) : string * string :=
  match s with
  | String c r =>
      if PyStr.isdigit c
      then let '(ds, rest) := span_digits r in (String c ds, rest)
      else (EmptyString, s)
  | EmptyString => (EmptyString, EmptyString)
  end.

Definition is_newline (c : ascii) : bool := (PyStr.code c =? 10)%N.

(** [.+] from the head of a string: up to the next line feed. *)
Fixpoint dot_plus (s : string) : string :=
  match s with
  | String c r => if is_newline c then EmptyString else String c (dot_plus r)
  | EmptyString => EmptyString
  end.

(** [\s*(.+)]: the longest run of whitespace after which one
    character other than a line feed is left. *)
Fixpoint spaces_dot_plus (s : string) : option string :=
  match s with
  | EmptyString => None
  | String c r =>
      if PyStr.isspace c
      then match spaces_dot_plus r with
           | Some g => Some g
           | None => if is_newline c then None else Some (dot_plus s)
           end
      else Some (dot_plus s)
  end.

(** [re.match(r'LABEL:\s*(\d+)\s*=\s*(.+)', line)]: the two groups.
    A digit is no whitespace and no [=], so the greedy choices for
    [\s*] and [\d+] are the only ones that can succeed. *)
Definition match_label (line : string) : option (string * string) :=
  if PyStr.startswith "LABEL:" line
  then let '(digits, rest) := span_digits (PyStr.lstrip (drop 6 line)) in
       if PyStr.truthy digits
       then match PyStr.lstrip rest with
            | String "=" rest' => pair digits <$> spaces_dot_plus rest'
            | _ => None
            end
       else None
  else None.

(** The body of the loop of [parse_event_types], for one line. *)
Definition parse_event_type_line (line : string) : option CAMEOEventType :=
  let line := PyStr.strip line in
  if negb (PyStr.startswith "LABEL:" line) then None
  else match match_label line with
       | Some (code, label) =>
           let code := PyStr.strip code in
           Some (mkEventType code (PyStr.strip label) (len code)
                   (Some (if (2 <=? len code)%Z then PyStr.take 2 code else code)))
       | None => None
       end.

(** [parse_event_types], on the lines of the options file. *)
Definition parse_event_types (lines : list string) : list CAMEOEventType :=
  omap parse_event_type_line lines.

Definition build_event_type_hierarchy (event_types : list CAMEOEventType)
  : list (string * list string) :=
  foldl (fun hierarchy et =>
           match parent_code et with
           | Some parent =>
               if PyStr.truthy parent
               then PyDict.set parent
                      (default [] (PyDict.get parent hierarchy) ++ [code et])
                      hierarchy
               else hierarchy
           | None => hierarchy
           end) [] event_types.

(** *** Verbs and options *)

(** The text up to the next closing bracket, if there is one. *)
Fixpoint until_bracket (s : string) : option string :=
  match s with
  | EmptyString => None
  | String c r =>
      if Ascii.eqb c "]" then Some EmptyString
      else String c <$> until_bracket r
  end.

(** [re.search(r'\[([^\]]+)\]', line)]: the text before the leftmost
    match, [line[:m.start()]], and the group.  An opening bracket
    starts a match when a closing one follows after at least one
    other character. *)
Fixpoint search_code (s : string) : option (string * string) :=
  match s with
  | EmptyString => None
  | String c r =>
      let later := (fun m : string * string => (String c m.1, m.2)) <$> search_code r in
      if Ascii.eqb c "["
      then match until_bracket r with
           | Some (String d g) => Some (EmptyString, String d g)
           | _ => later
           end
      else later
  end.

(** [s.split(sep, 1)]: the text before the first [sep], and the text
    after it when [sep] occurs. *)
Fixpoint split_once (sep : ascii) (s : string) : string * option string :=
  match s with
  | EmptyString => (EmptyString, None)
  | String c r =>
      if Ascii.eqb c sep then (EmptyString, Some r)
      else let '(a, b) := split_once sep r in (String c a, b)
  end.

Definition undefined_code (c : string) : bool :=
  String.eqb c "---" || String.eqb c "###".

Definition _get_verb_level (code : option string) : Z :=
  match code with
  | Some c => if negb (PyStr.truthy c) || undefined_code c then 0%Z else len c
  | None => 0%Z
  end.

Definition _parse_verb_line (line : string) : option Verb.CAMEOVerb :=
  let code_match := search_code line in
  let code := (fun m : string * string => PyStr.strip m.2) <$> code_match in
  let code :=
    match code with
    | Some c => if undefined_code c then None else Some c
    | None => None
    end in
  let pattern :=
    match code_match with
    | Some m => PyStr.strip m.1
    | None => PyStr.strip (split_once ";" line).1
    end in
  let metadata := PyStr.strip <$> (split_once ";" line).2 in
  if negb (PyStr.truthy pattern) then None
  else
    let level := if Events.truthy_str code then _get_verb_level code else 0%Z in
    let parent_code :=
      match code with
      | Some c =>
          if PyStr.truthy c && (2 <? len c)%Z then Some (PyStr.drop_last c) else None
      | None => None
      end in
    Some (Verb.mkVerb (Events.or_else code EmptyString) pattern metadata level
            parent_code metadata).

(** [parse_verbs], on the lines of the verbs file. *)
Definition parse_verbs (lines : list string) : list Verb.CAMEOVerb :=
  omap (fun line =>
          let line := PyStr.strip line in
          if negb (PyStr.truthy line) || PyStr.startswith "//" line
             || PyStr.startswith "#" line
          then None
          else _parse_verb_line line) lines.

(** The body of the loop of [parse_options], for one line. *)
Definition parse_option_line (line : string) : option Option.CAMEOOption :=
  let line := PyStr.strip line in
  if PyStr.truthy line && negb (PyStr.startswith "LABEL:" line)
     && negb (PyStr.startswith "//" line)
  then match split_once "=" line with
       | (code, Some label) =>
           Some (Option.mkOption (PyStr.strip code) (PyStr.strip label) None)
       | (_, None) => None
       end
  else None.

(** [parse_options], on the lines of the options file. *)
Definition parse_options (lines : list string) : list Option.CAMEOOption :=
  omap parse_option_line lines.

End CameoParser.

(** ** [src/ingestion/schema_validator.py] *)
Module SchemaValidator.

(** A column of the frame [pd.read_csv] returns: numeric (missing
    cells are NaN), or [object], whose present cells are Python
    strings.  Rational numbers stand for the numeric cells. *)
Inductive column : Type :=
  | NumCol (cells : list (option Q))
  | ObjCol (cells : list (option string)).

(** The sample frame: its columns in header order, and [len(df)].
    Every column holds [nrows] cells. *)
Record DataFrame : Type := mkFrame {
  columns : list (string * column);
  nrows : nat
}.

(** What [validate] is pointed at. *)
Inductive source : Type :=
  | Missing                  (* [FileNotFoundError] *)
  | Unreadable (e : exn)     (* [read_csv] raises something else *)
  | Readable (df : DataFrame).

(** The error strings, one constructor per f-string of [validate]. *)
Inductive finding : Type :=
  | FieldCount (expected found : nat)
  | MissingRequired (fields : list string)
  | DuplicateColumns (cols : list string)
  | DuplicateEventIds (dup_count : nat)
  | InvalidYear (rows : nat)
  | InvalidMonth (rows : nat)
  | InvalidDay (rows : nat)
  | InvalidEvType (rows : nat)
  | LowCompleteness (overall_complete : Q)
  | CriticalMissing (field : string) (missing_pct : Q)
  | FileNotFound
  | ValidationException (e : exn).

Definition REQUIRED_FIELDS : list string :=
  ["eventid"; "year"; "month"; "day"; "EV_TYPE"; "NEWS_SOURCE"].
Definition EXPECTED_FIELD_COUNT : nat := 106.
Definition MIN_YEAR : Q := 1900.
Definition MAX_YEAR : Q := 2100.
Definition MIN_MONTH : Q := 1.
Definition MAX_MONTH : Q := 12.
Definition MIN_DAY : Q := 1.
Definition MAX_DAY : Q := 31.

Definition names (df : DataFrame) : list string := fst <$> columns df.

Definition mem (x : string) (l : list string) : bool :=
  existsb (String.eqb x) l.

(** [df[field]] *)
Definition column_of (field : string) (df : DataFrame) : option column :=
  PyDict.get field (columns df).

Definition Qlt_bool (a b : Q) : bool := negb (Qle_bool b a).

(** Check 1: field count. *)
Definition check_field_count (df : DataFrame) : outcome (list finding) :=
  let found := length (names df) in
  Returned (if Nat.eqb found EXPECTED_FIELD_COUNT then []
            else [FieldCount EXPECTED_FIELD_COUNT found]).

(** Check 2: required fields. *)
Definition check_required (df : DataFrame) : outcome (list finding) :=
  let missing_fields :=
    List.filter (fun f => negb (mem f (names df))) REQUIRED_FIELDS in
  Returned (match missing_fields with
            | [] => []
            | _ => [MissingRequired missing_fields]
            end).

Definition count_of (x : string) (l : list string) : nat :=
  length (List.filter (String.eqb x) l).

(** [set(duplicates)], in order of first occurrence (Python leaves
    the order of a set open). *)
Fixpoint dedup (l : list string) : list string :=
  match l with
  | [] => []
  | x :: r => x :: List.filter (fun y => negb (String.eqb x y)) (dedup r)
  end.

(** Check 3: duplicate columns. *)
Definition check_duplicates (df : DataFrame) : outcome (list finding) :=
  let cols := names df in
  let duplicates := List.filter (fun c => Nat.ltb 1 (count_of c cols)) cols in
  Returned (match duplicates with
            | [] => []
            | _ => [DuplicateColumns (dedup duplicates)]
            end).

(** [series.duplicated().sum()]: the cells equal to an earlier cell;
    missing cells count as equal to each other. *)
Fixpoint duplicated {A} (eqb : A -> A -> bool) (seen l : list A) : nat :=
  match l with
  | [] => 0
  | x :: r =>
      ((if existsb (eqb x) seen then 1 else 0) + duplicated eqb (x :: seen) r)%nat
  end.

Definition opt_eqb {A} (eqb : A -> A -> bool) (a b : option A) : bool :=
  match a, b with
  | Some x, Some y => eqb x y
  | None, None => true
  | _, _ => false
  end.

Definition dup_count (c : column) : nat :=
  match c with
  | NumCol cells => duplicated (opt_eqb Qeq_bool) [] cells
  | ObjCol cells => duplicated (opt_eqb String.eqb) [] cells
  end.

(** Check 4: event identifiers unique in the sample. *)
Definition check_event_ids (df : DataFrame) : outcome (list finding) :=
  Returned (match column_of "eventid" df with
            | Some c =>
                if Nat.ltb 0 (dup_count c) then [DuplicateEventIds (dup_count c)] else []
            | None => []
            end).

Definition count_where {A} (p : A -> bool) (l : list A) : nat :=
  length (List.filter p l).

Definition present {A} (o : option A) : bool :=
  match o with Some _ => true | None => false end.

(** [len(df[(df[f] < lo) | (df[f] > hi)])].  A comparison with NaN is
    false; comparing a string cell with a number raises [TypeError]. *)
Definition out_of_range (lo hi : Q) (c : column) : outcome nat :=
  match c with
  | NumCol cells =>
      Returned (count_where
                  (fun o => match o with
                            | Some q => Qlt_bool q lo || Qlt_bool hi q
                            | None => false
                            end) cells)
  | ObjCol cells =>
      if existsb present cells then Raised TypeError else Returned 0%nat
  end.

(** Check 5: temporal ranges, one field at a time. *)
Definition check_range (field : string) (lo hi : Q) (mk : nat -> finding)
    (df : DataFrame) : outcome (list finding) :=
  match column_of field df with
  | Some c =>
      n ← out_of_range lo hi c;
      Returned (if Nat.ltb 0 n then [mk n] else [])
  | None => Returned []
  end.

Definition check_year : DataFrame -> outcome (list finding) :=
  check_range "year" MIN_YEAR MAX_YEAR InvalidYear.
Definition check_month : DataFrame -> outcome (list finding) :=
  check_range "month" MIN_MONTH MAX_MONTH InvalidMonth.
Definition check_day : DataFrame -> outcome (list finding) :=
  check_range "day" MIN_DAY MAX_DAY InvalidDay.

(** [~df[f].isna() & ~df[f].isin({1, 2, 4, 5})]: no string is equal
    to one of the four numbers. *)
Definition invalid_types (c : column) : nat :=
  match c with
  | NumCol cells =>
      count_where
        (fun o => match o with
                  | Some q => negb (existsb (Qeq_bool q) [1; 2; 4; 5]%Q)
                  | None => false
                  end) cells
  | ObjCol cells => count_where present cells
  end.

(** Check 6: event type values. *)
Definition check_ev_type (df : DataFrame) : outcome (list finding) :=
  Returned (match column_of "EV_TYPE" df with
            | Some c =>
                if Nat.ltb 0 (invalid_types c) then [InvalidEvType (invalid_types c)] else []
            | None => []
            end).

(** [series.count()] and [series.isna().sum()] *)
Definition non_null (c : column) : nat :=
  match c with
  | NumCol cells => count_where present cells
  | ObjCol cells => count_where present cells
  end.
Definition nulls (c : column) : nat :=
  match c with
  | NumCol cells => count_where (fun o => negb (present o)) cells
  | ObjCol cells => count_where (fun o => negb (present o)) cells
  end.

Definition ratio (a b : nat) : Q := Z.of_nat a # Pos.of_nat b.

(** [_check_completeness(df)['overall_complete']] *)
Definition overall_complete (df : DataFrame) : Q :=
  let total_cells := (nrows df * length (columns df))%nat in
  let non_null_cells := foldr (fun c acc => (non_null c.2 + acc)%nat) 0%nat (columns df) in
  if Nat.ltb 0 total_cells then ratio non_null_cells total_cells else 0.

(** Check 7: data completeness. *)
Definition check_completeness (df : DataFrame) : outcome (list finding) :=
  Returned (if Qlt_bool (overall_complete df) (1 # 100)
            then [LowCompleteness (overall_complete df)] else []).

(** One critical field.  On an empty sample the quotient is NaN and
    the comparison is false. *)
Definition critical_field (df : DataFrame) (field : string) : list finding :=
  match column_of field df with
  | Some c =>
      if Nat.eqb (nrows df) 0 then []
      else let missing_pct := ratio (nulls c) (nrows df) in
           if Qlt_bool (1 # 2) missing_pct
           then [CriticalMissing field missing_pct] else []
  | None => []
  end.

(** Check 8: critical fields have some data. *)
Definition check_critical (df : DataFrame) : outcome (list finding) :=
  Returned (mbind (critical_field df) ["eventid"; "year"; "EV_TYPE"]).

(** The checks of the [try] block, in order. *)
Definition checks : list (DataFrame -> outcome (list finding)) :=
  [check_field_count; check_required; check_duplicates; check_event_ids;
   check_year; check_month; check_day; check_ev_type;
   check_completeness; check_critical].

(** The [try] block from a given check on: [errors] holds what was
    appended so far.  A check that raises ends in the handler
    [except Exception], which appends one more string. *)
Fixpoint run_checks (cs : list (DataFrame -> outcome (list finding)))
    (df : DataFrame) (errors : list finding) : bool * list finding :=
  match cs with
  | [] => match errors with
          | [] => (true, [])
          | _ => (false, errors)
          end
  | c :: rest =>
      match c df with
      | Returned fs => run_checks rest df (errors ++ fs)
      | Raised e => (false, errors ++ [ValidationException e])
      end
  end.

Definition validate (src : source) : bool * list finding :=
  match src with
  | Missing => (false, [FileNotFound])
  | Unreadable e => (false, [ValidationException e])
  | Readable df => run_checks checks df []
  end.

End SchemaValidator.

(** ** [src/ingestion/csv_parser.py] *)
Module CsvParser.
Import Events.

(** A cell of a row of the frame: missing ([None], NaN), a string, or
    another scalar (a numpy number or boolean), given by its [str]. *)
Inductive cell : Type :=
  | CNull
  | CStr (s : string)
  | CScalar (text : string).

(** A [pd.Series]: its index is the domain of the map. *)
Definition row : Type := gmap string cell.

Definition MISSING_VALUES : list (option string) :=
  [Some "."; Some EmptyString; Some "nan"; Some "NaN"; None].

Definition _safe_get (r : row) (field : string) : option string :=
  match r !! field with
  | None => None
  | Some CNull => None
  | Some (CStr s) =>
      if bool_decide (Some s ∈ MISSING_VALUES) then None
      else Some (PyStr.strip s)
  | Some (CScalar text) => Some (PyStr.strip text)
  end.

(** One entry of [self.errors]. *)
Record error_info : Type := mkError {
  row_index : nat;
  err_event_id : option string;
  error_type : exn
}.

(** The counters and the error log of a [SPEEDCSVParser]. *)
Record parser : Type := mkParser {
  errors : list error_info;
  parsed_count : nat;
  skipped_count : nat
}.

(** [__init__] *)
Definition init : parser := mkParser [] 0 0.

Definition _log_error (idx : nat) (r : row) (e : exn) (self : parser) : parser :=
  mkParser (errors self ++ [mkError idx (_safe_get r "eventid") e])
    (parsed_count self) (skipped_count self).

(** [type(error).__name__] *)
Definition exn_name (e : exn) : string :=
  match e with
  | ValueError => "ValueError"
  | TypeError => "TypeError"
  | OverflowError => "OverflowError"
  | AttributeError => "AttributeError"
  | ConstraintError _ _ => "ConstraintError"
  end.

(** The dictionary [get_error_summary] returns: the last two keys are
    there only when an error was logged. *)
Record error_summary : Type := mkSummary {
  total_errors : nat;
  error_types : option (list (string * nat));
  sample_errors : option (list error_info)
}.

Definition count_types (errors : list error_info) : list (string * nat) :=
  foldl (fun error_types error =>
           let error_type := exn_name (error_type error) in
           PyDict.set error_type
             (default 0%nat (PyDict.get error_type error_types) + 1)%nat
             error_types) [] errors.

Definition get_error_summary (self : parser) : error_summary :=
  match errors self with
  | [] => mkSummary 0 None None
  | _ =>
      mkSummary (length (errors self)) (Some (count_types (errors self)))
        (Some (take 5 (errors self)))
  end.

Section Numerics.

(** [int(float(value))] and [float(value)] on a string, as Python
    computes them: the first returns an integer or raises
    [ValueError] (no number, NaN) or [OverflowError] (an infinity);
    the second returns a float or raises [ValueError] ([None]). *)
Variable int_of_float : string -> outcome Z.
Variable float_of : string -> option pyfloat.

Definition _safe_int (r : row) (field : string) : outcome (option Z) :=
  match _safe_get r field with
  | None => Returned None
  | Some value =>
      match int_of_float value with
      | Returned z => Returned (Some z)
      | Raised ValueError | Raised TypeError => Returned None
      | Raised e => Raised e
      end
  end.

Definition _safe_float (r : row) (field : string) : option pyfloat :=
  match _safe_get r field with
  | None => None
  | Some value => float_of value
  end.

(** [date(y, m, d)] under [if y and m and d] and
    [except ValueError: pass]. *)
Definition optional_date (y m d : option Z) : outcome (option date) :=
  match y, m, d with
  | Some y', Some m', Some d' =>
      if truthy_int y && truthy_int m && truthy_int d
      then match date_new y' m' d' with
           | Returned dt => Returned (Some dt)
           | Raised ValueError => Returned None
           | Raised e => Raised e
           end
      else Returned None
  | _, _, _ => Returned None
  end.

Definition _parse_temporal (r : row) : outcome TemporalInfo :=
  pub_year ← _safe_int r "PUB_YEAR";
  pub_mon ← _safe_int r "PUB_MON";
  pub_day ← _safe_int r "PUB_DATE";
  pub_date ← optional_date pub_year pub_mon pub_day;
  code_year ← _safe_int r "CODE_YEAR";
  code_mon ← _safe_int r "CODE_MONTH";
  code_day ← _safe_int r "CODE_DAY";
  code_date ← optional_date code_year code_mon code_day;
  year ← _safe_int r "year";
  month ← _safe_int r "month";
  day ← _safe_int r "day";
  date_type ← _safe_int r "DATE_TYP";
  jul_psd ← _safe_int r "JUL_PSD";
  jul_ped ← _safe_int r "JUL_PED";
  jul_eed ← _safe_int r "JUL_EED";
  jul_led ← _safe_int r "JUL_LED";
  jul_start ← _safe_int r "JUL_START_DATE";
  jul_end ← _safe_int r "JUL_END_DATE";
  day_span ← _safe_int r "DAY_SPAN";
  mret (mkTemporalInfo year month day date_type jul_psd jul_ped jul_eed
          jul_led jul_start jul_end day_span pub_date code_date).

(** [prefix[0]] *)
Definition initial (prefix : string) : string := PyStr.take 1 prefix.

Definition _parse_actor (r : row) (prefix : string) (role : ActorRole)
  : outcome (option Actor) :=
  let igrp := _safe_get r (prefix +:+ "_IGRP1") in
  let sgrp := _safe_get r (prefix +:+ "_SGRP1") in
  let pgrp := _safe_get r (prefix +:+ "_PGRP1") in
  if negb (truthy_str igrp || truthy_str sgrp || truthy_str pgrp)
  then Returned None
  else
    actor_type ← _safe_int r (prefix +:+ "_TYPE");
    government_type ← _safe_int r ("GOV_" +:+ initial prefix +:+ "1");
    government_level ← _safe_int r ("G_LVL_" +:+ initial prefix);
    non_gov_type ← _safe_int r ("NGOV_" +:+ initial prefix +:+ "1");
    ini ←
      (if String.eqb prefix "INI"
       then k ← _safe_int r "KNOW_INI";
            let a := _safe_float r "AMBIG_INI" in
            p ← _safe_int r "N_OF_INI_P";
            n ← _safe_int r "N_OF_INI_A";
            mret (k, a, p, n)
       else mret (None, None, None, None)
       : outcome (option Z * option pyfloat * option Z * option Z));
    let '(is_known, ambiguity, num_participants, num_armed) := ini in
    human_indicator ←
      (if String.eqb prefix "TAR" then _safe_int r "HUMAN_T1"
       else if String.eqb prefix "VIC" then _safe_int r "HUMAN_V1"
       else mret None);
    mret (Some (mkActor role igrp sgrp pgrp actor_type government_type
                  government_level non_gov_type is_known ambiguity
                  human_indicator num_participants num_armed)).

Definition _parse_location (r : row) : outcome (option Location) :=
  let gp3 := _safe_get r "GP3" in
  let country := _safe_get r "country" in
  if negb (truthy_str gp3) && negb (truthy_str country)
  then Returned None
  else
    let latitude := _safe_float r "GP7" in
    let longitude := _safe_float r "GP8" in
    location_type ← _safe_int r "LOC_TYPE";
    region ← _safe_int r "region";
    cow_code ← _safe_int r "cowcode";
    pinpoint ← _safe_int r "pinpoint";
    mret (Some (mkLocation gp3 country latitude longitude location_type
                  region cow_code pinpoint)).

Definition _parse_impact (r : row) : outcome (option Impact) :=
  k_p ← _safe_int r "N_KILLED_P";
  k_a ← _safe_int r "N_KILLED_A";
  inj ← _safe_int r "N_INJURD";
  arr ← _safe_int r "arrests";
  dmg ← _safe_int r "property_damaged";
  if negb (truthy_int k_p || truthy_int k_a || truthy_int inj
           || truthy_int arr || truthy_int dmg)
  then Returned None
  else
    killed_participants ← _safe_int r "N_KILLED_P";
    killed_armed ← _safe_int r "N_KILLED_A";
    injured ← _safe_int r "N_INJURD";
    injured_detailed ← _safe_int r "N_INJURD_D";
    arrests ← _safe_int r "arrests";
    property_damaged ← _safe_int r "property_damaged";
    mret (Some (mkImpact killed_participants killed_armed injured
                  injured_detailed arrests property_damaged
                  (_safe_get r "property_owner")
                  (_safe_get r "victim_effect"))).

Definition sparse_fields : list string :=
  ["AD_VIOL"; "AD_TACT"; "weapon"; "WEAP_GRD";
   "E_LENGTH"; "SYM_TYPE";
   "SC_ANIMOSITY"; "ANTI_GOV_SENTMNTS"; "CLASS_CONFLICT";
   "POL_DESIRES"; "RETAIN_POWER"; "ECO_SCARCITY";
   "PERS_SECURITY"; "retribution"; "POL_EXPRESS";
   "MASS_EXPRESS"; "POL_VIOL"; "STAT_VIOL";
   "ST_REPRESS"; "PUB_ORDER";
   "INTANG_REP"; "recap"; "AMBIG_WGT";
   "ctry_bias"; "TAR_GPOL"; "GP_TYPE"; "GP4"].

Definition numeric_fields : list string :=
  ["N_INJURD"; "N_KILLED_P"; "N_KILLED_A";
   "N_OF_INI_P"; "N_OF_INI_A"; "WEAP_GRD"; "E_LENGTH"].

Definition _extract_properties (r : row) (event : Event) : outcome Event :=
  let event :=
    foldl (fun ev field =>
             match _safe_get r field with
             | Some value => set_property field (PStr value) ev
             | None => ev
             end) event sparse_fields in
  foldl (fun acc field =>
           ev ← acc;
           value ← _safe_int r field;
           mret (match value with
                 | Some z => set_property field (PInt z) ev
                 | None => ev
                 end)) (Returned event) numeric_fields.

(** [_safe_int(row, field) == 1] *)
Definition flag (r : row) (field : string) : outcome bool :=
  v ← _safe_int r field;
  mret (bool_decide (v = Some 1%Z)).

Definition _parse_row (r : row) : outcome (option Event) :=
  match _safe_get r "eventid" with
  | None => Returned None
  | Some event_id =>
      if negb (PyStr.truthy event_id) then Returned None
      else
        temporal ← _parse_temporal r;
        initiator ← _parse_actor r "INI" INITIATOR;
        target ← _parse_actor r "TAR" TARGET;
        victim ← _parse_actor r "VIC" VICTIM;
        location ← _parse_location r;
        impact ← _parse_impact r;
        is_linked ← flag r "linked";
        let from_eid := if is_linked : bool then _safe_get r "FROM_EID" else None in
        let to_eid := if is_linked then _safe_get r "TO_EID" else None in
        let linked_from := if truthy_str from_eid then option_list from_eid else [] in
        let linked_to := if truthy_str to_eid then option_list to_eid else [] in
        event_type ← _safe_int r "EV_TYPE";
        pe_type ← _safe_int r "PE_TYPE";
        atk_type ← _safe_int r "ATK_TYPE";
        dsa_type ← _safe_int r "DSA_TYPE";
        let news_source := _safe_get r "NEWS_SOURCE" in
        let article_id := _safe_get r "aid" in
        is_quasi_event ← flag r "QUASI_EVENT";
        is_state_action ← flag r "STAT_ACT";
        is_coup ← flag r "coup";
        is_coup_failed ← flag r "COUP_FAILED";
        link_type ← _safe_int r "LINK_TYPE";
        is_posthoc ← flag r "posthoc";
        event ← _extract_properties r
          (mkEvent event_id (Some temporal) event_type pe_type atk_type
             dsa_type news_source article_id initiator target victim
             location impact is_quasi_event is_state_action is_coup
             is_coup_failed is_linked link_type linked_from linked_to
             is_posthoc []);
        mret (Some event)
  end.

(** The body of the loop of [parse] for the row at index [idx]:
    the parser afterwards, and the Event it yields, if any. *)
Definition process_row (self : parser) (idx : nat) (r : row)
  : parser * option Event :=
  match _parse_row r with
  | Returned (Some event) =>
      (mkParser (errors self) (S (parsed_count self)) (skipped_count self),
       Some event)
  | Returned None =>
      (mkParser (errors self) (parsed_count self) (S (skipped_count self)),
       None)
  | Raised e =>
      let self := _log_error idx r e self in
      (mkParser (errors self) (parsed_count self) (S (skipped_count self)),
       None)
  end.

(** The generator [parse] between two rows: the parser object, the
    rows still to read (with their index), the rows read and the
    Events yielded so far. *)
Record generator : Type := mkGenerator {
  self : parser;
  pending : list (nat * row);
  processed : nat;
  yielded : list Event
}.

(** [parser.parse()] on the rows of the file, chunk after chunk. *)
Definition start (rows : list row) : generator :=
  mkGenerator init (imap pair rows) 0 [].

(** The generator reads one more row. *)
Definition advance (g : generator) : option generator :=
  match pending g with
  | [] => None
  | (idx, r) :: rest =>
      let '(p, ev) := process_row (self g) idx r in
      Some (mkGenerator p rest (S (processed g)) (yielded g ++ option_list ev))
  end.

Inductive step : generator -> generator -> Prop :=
  | step_row g g' : advance g = Some g' -> step g g'.

(** The generator run to exhaustion. *)
Fixpoint run (fuel : nat) (g : generator) : generator :=
  match fuel with
  | O => g
  | S n => match advance g with
           | Some g' => run n g'
           | None => g
           end
  end.

Definition parse (rows : list row) : generator :=
  run (length rows) (start rows).

End Numerics.

(** *** An instance of the two conversions

    [decimal_int_of_float] and [decimal_float_of] agree with Python on
    a fragment of its literals, enough to run the parser on concrete
    rows: a sign, digits, and an optional fraction, with at most 15
    digits in all, and [inf].  Outside the fragment they answer
    [ValueError], which is right for text that holds no number. *)
Fixpoint all_digits (s : string) : bool :=
  match s with
  | EmptyString => true
  | String c r => PyStr.isdigit c && all_digits r
  end.

Fixpoint split_dot (s : string) : string * option string :=
  match s with
  | EmptyString => (EmptyString, None)
  | String c r =>
      if Ascii.eqb c "." then (EmptyString, Some r)
      else let '(a, b) := split_dot r in (String c a, b)
  end.

Definition split_sign (s : string) : Z * string :=
  match s with
  | String "-" r => ((-1)%Z, r)
  | String "+" r => (1%Z, r)
  | _ => (1%Z, s)
  end.

Definition decimal_int_of_float (s : string) : outcome Z :=
  if String.eqb s "inf" then Raised OverflowError
  else
    let '(whole, frac) := split_dot s in
    let '(sign, ds) := split_sign whole in
    let fs := default EmptyString frac in
    if all_digits ds && PyStr.truthy ds && all_digits fs
       && Nat.leb (String.length ds + String.length fs) 15
    then match PyStr.int ds with
         | Some z => Returned (sign * z)%Z
         | None => Raised ValueError
         end
    else Raised ValueError.

(** The last character of a string. *)
Fixpoint last_char (s : string) : option ascii :=
  match s with
  | EmptyString => None
  | String c EmptyString => Some c
  | String _ r => last_char r
  end.

(** [s] is the [repr] of a float written without exponent: no
    superfluous zero on either side of the point. *)
Definition canonical_float (s : string) : bool :=
  let '(whole, frac) := split_dot s in
  let ds := match whole with String "-" r => r | _ => whole end in
  match frac with
  | Some fs =>
      all_digits ds && PyStr.truthy ds && all_digits fs && PyStr.truthy fs
      && Nat.leb (String.length ds + String.length fs) 15
      && (String.eqb ds "0" || negb (PyStr.startswith "0" ds))
      && (String.eqb fs "0" || negb (bool_decide (last_char fs = Some "0"%char)))
      && (negb (String.eqb ds "0") || String.eqb fs "0"
          || negb (PyStr.startswith "0" fs))
  | None => false
  end.

Definition decimal_float_of (s : string) : option pyfloat :=
  if canonical_float s then Some s else None.

End CsvParser.

(** ** [json.dumps] on a dictionary of strings and integers *)
Module Json.
Import Events.

Definition hex4 (n : N) : string :=
  string_of_list_ascii
    [MD5.hex_digit (n / 4096); MD5.hex_digit (n / 256);
     MD5.hex_digit (n / 16); MD5.hex_digit n].

(** [ensure_ascii]: everything outside the printable ASCII range is
    escaped. *)
Definition escape_char (c : ascii) : string :=
  let n := PyStr.code c in
  if (n =? 34)%N then "\" +:+ String c EmptyString
  else if (n =? 92)%N then "\\"
  else if (n =? 10)%N then "\n"
  else if (n =? 13)%N then "\r"
  else if (n =? 9)%N then "\t"
  else if (n =? 8)%N then "\b"
  else if (n =? 12)%N then "\f"
  else if PyStr.in_range 32 126 n then String c EmptyString
  else "\u" +:+ hex4 n.

Fixpoint escape (s : string) : string :=
  match s with
  | EmptyString => EmptyString
  | String c r => escape_char c +:+ escape r
  end.

Definition quote (s : string) : string :=
  String (ascii_of_N 34) (escape s) +:+ String (ascii_of_N 34) EmptyString.

Definition dumps_value (v : propval) : string :=
  match v with
  | PStr s => quote s
  | PInt z => PyStr.of_Z z
  end.

Definition dumps (d : list (string * propval)) : string :=
  "{" +:+ PyStr.join ", " ((fun kv => quote kv.1 +:+ ": " +:+ dumps_value kv.2) <$> d)
      +:+ "}".

End Json.

(** ** [src/ingestion/neo4j_loader.py] *)
Module Neo4jLoader.
Import Events.

(** *** The graph store

    The loader drives the store through Cypher statements.  The store
    is modelled by what these statements read and write: nodes with a
    label and properties, directed edges with a type and properties,
    and the uniqueness constraints in force.  A node is named by its
    position in [nodes]; nothing in the loader deletes a node.  A
    statement that raises leaves the store as it was. *)

#[warnings="-register-all"]
Inductive value : Type :=
  | VNull
  | VBool (b : bool)
  | VInt (z : Z)
  | VFloat (f : pyfloat)
  | VStr (s : string)
  | VMap (m : list (string * value)).

Record node : Type := mkNode {
  nlabel : string;
  nprops : gmap string value
}.

Record edge : Type := mkEdge {
  esrc : nat;
  etype : string;
  edst : nat;
  eprops : gmap string value
}.

Record store : Type := mkStore {
  nodes : list node;
  edges : list edge;
  constraints : list (string * string)
}.

Definition empty : store := mkStore [] [] [].

(** Equality of two values in a pattern [{key: $param}]; null is
    equal to nothing. *)
Fixpoint value_eqb (a b : value) : bool :=
  match a, b with
  | VBool x, VBool y => Bool.eqb x y
  | VInt x, VInt y => (x =? y)%Z
  | VFloat x, VFloat y => String.eqb x y
  | VStr x, VStr y => String.eqb x y
  | VMap x, VMap y =>
      (fix go (x y : list (string * value)) : bool :=
         match x, y with
         | [], [] => true
         | (k, v) :: x', (k', v') :: y' =>
             String.eqb k k' && value_eqb v v' && go x' y'
         | _, _ => false
         end) x y
  | _, _ => false
  end.

(** [bool(v)] on the Python side of the driver. *)
Definition truthy (v : value) : bool :=
  match v with
  | VNull => false
  | VBool b => b
  | VInt z => negb (z =? 0)%Z
  | VFloat f => negb (String.eqb f "0.0" || String.eqb f "-0.0")
  | VStr s => PyStr.truthy s
  | VMap m => match m with [] => false | _ => true end
  end.

Definition of_str (o : option string) : value :=
  match o with Some s => VStr s | None => VNull end.
Definition of_int (o : option Z) : value :=
  match o with Some z => VInt z | None => VNull end.
Definition of_float (o : option pyfloat) : value :=
  match o with Some f => VFloat f | None => VNull end.

(** [SET x.k = v]; setting null removes the property. *)
Definition set_prop (m : gmap string value) (kv : string * value)
  : gmap string value :=
  match kv.2 with
  | VNull => delete kv.1 m
  | v => <[kv.1 := v]> m
  end.

Definition set_props (kvs : list (string * value)) (m : gmap string value)
  : gmap string value :=
  foldl set_prop m kvs.

Definition has_prop (k : string) (v : value) (m : gmap string value) : bool :=
  match m !! k with
  | Some w => value_eqb w v
  | None => false
  end.

Definition node_matches (l k : string) (v : value) (n : node) : bool :=
  String.eqb (nlabel n) l && has_prop k v (nprops n).

Fixpoint find_from (p : node -> bool) (i : nat) (ns : list node) : list nat :=
  match ns with
  | [] => []
  | n :: r => if p n then i :: find_from p (S i) r else find_from p (S i) r
  end.

(** [MATCH (n:l {k: v})]: the nodes bound to [n]. *)
Definition find_nodes (l k : string) (v : value) (s : store) : list nat :=
  find_from (node_matches l k v) 0 (nodes s).

(** The first uniqueness constraint on label [l] that a new node with
    properties [props] would break. *)
Definition violated (l : string) (props : gmap string value) (s : store)
  : option (string * string) :=
  List.find
    (fun c => String.eqb c.1 l
              && match props !! c.2 with
                 | Some v => match find_nodes l c.2 v s with
                             | [] => false
                             | _ => true
                             end
                 | None => false
                 end)
    (constraints s).

(** [CREATE (n:l {...})] *)
Definition create_node (l : string) (kvs : list (string * value)) (s : store)
  : outcome store :=
  let props := set_props kvs ∅ in
  match violated l props s with
  | Some c => Raised (ConstraintError c.1 c.2)
  | None => Returned (mkStore (nodes s ++ [mkNode l props]) (edges s) (constraints s))
  end.

(** [MERGE (n:l {k: v}) ON CREATE SET ...]: the store afterwards and
    the nodes bound to [n]. *)
Definition merge_node (l k : string) (v : value)
    (on_create : list (string * value)) (s : store) : store * list nat :=
  match find_nodes l k v s with
  | [] =>
      (mkStore (nodes s ++ [mkNode l (set_props ((k, v) :: on_create) ∅)])
         (edges s) (constraints s),
       [length (nodes s)])
  | found => (s, found)
  end.

Definition edge_matches (src : nat) (ty : string) (dst : nat) (e : edge) : bool :=
  Nat.eqb (esrc e) src && String.eqb (etype e) ty && Nat.eqb (edst e) dst.

(** [MERGE (src)-[r:ty]->(dst) SET r.k = v, ...]: every edge of that
    type between the two nodes is bound to [r]; one is created when
    there is none. *)
Definition merge_edge (src : nat) (ty : string) (dst : nat)
    (kvs : list (string * value)) (s : store) : store :=
  if existsb (edge_matches src ty dst) (edges s)
  then mkStore (nodes s)
         ((fun e => if edge_matches src ty dst e
                    then mkEdge (esrc e) (etype e) (edst e) (set_props kvs (eprops e))
                    else e) <$> edges s)
         (constraints s)
  else mkStore (nodes s)
         (edges s ++ [mkEdge src ty dst (set_props kvs ∅)])
         (constraints s).

(** One [MERGE] of an edge per row [(src, dst)]. *)
Definition merge_edges (ty : string) (kvs : list (string * value))
    (rows : list (nat * nat)) (s : store) : store :=
  foldl (fun s r => merge_edge r.1 ty r.2 kvs s) s rows.

(** *** Schema *)

(** No two nodes labelled [l] carry the same value of [k]. *)
Definition unique_in (l k : string) (s : store) : bool :=
  forallb (fun n =>
             match nprops n !! k with
             | Some v => negb (String.eqb (nlabel n) l)
                         || Nat.leb (length (find_nodes l k v s)) 1
             | None => true
             end) (nodes s).

(** [CREATE CONSTRAINT ... IF NOT EXISTS ... IS UNIQUE], the failure on
    data that already breaks it swallowed by [create_schema]. *)
Definition add_constraint (s : store) (c : string * string) : store :=
  if bool_decide (c ∈ constraints s) then s
  else if unique_in c.1 c.2 s
       then mkStore (nodes s) (edges s) (constraints s ++ [c])
       else s.

(** The indexes do not change what a statement reads or writes and
    are left out. *)
Definition create_schema (s : store) : store :=
  foldl add_constraint s
    [("Event", "eventId"); ("Actor", "actorId"); ("EventType", "cameoCode");
     ("Location", "locationId"); ("CAMEOActorType", "code")].

(** *** Pass 1 *)

Definition _create_event_node (s : store) (event : Event) : outcome store :=
  let properties_json :=
    match properties event with
    | [] => VNull
    | d => VStr (Json.dumps d)
    end in
  let t := temporal event in
  create_node "Event"
    [("eventId", VStr (event_id event));
     ("year", of_int (t ≫= year));
     ("month", of_int (t ≫= month));
     ("day", of_int (t ≫= day));
     ("dateType", of_int (t ≫= date_type));
     ("julianStartDate", of_int (t ≫= julian_start_date));
     ("julianEndDate", of_int (t ≫= julian_end_date));
     ("daySpan", of_int (t ≫= day_span));
     ("eventType", of_int (event_type event));
     ("peType", of_int (pe_type event));
     ("atkType", of_int (atk_type event));
     ("dsaType", of_int (dsa_type event));
     ("newsSource", of_str (news_source event));
     ("articleId", of_str (article_id event));
     ("isQuasiEvent", VBool (is_quasi_event event));
     ("isStateAction", VBool (is_state_action event));
     ("isCoup", VBool (is_coup event));
     ("isCoupFailed", VBool (is_coup_failed event));
     ("isLinked", VBool (is_linked event));
     ("linkType", of_int (link_type event));
     ("isPosthoc", VBool (is_posthoc event));
     ("propertiesJson", properties_json)] s.

(** The rows [(e, a)] after [WITH a MATCH (e:Event {eventId: ...})]. *)
Definition rows_to (event_id : string) (targets : list nat) (s : store)
  : list (nat * nat) :=
  a ← targets; e ← find_nodes "Event" "eventId" (VStr event_id) s; [(e, a)].

(** The statement shared by the three roles: upsert the Actor node,
    then merge the role edge from the Event and set its attributes. *)
Definition actor_statement (rel : string) (actor : Actor) (name : string)
    (event_id : string) (rprops : list (string * value)) (s : store) : store :=
  let '(s1, actors) :=
    merge_node "Actor" "actorId" (VStr (Actors.generate_actor_id name))
      [("name", VStr name);
       ("cameoCode", of_str (identity_group actor));
       ("isGovernment", VBool (is_government actor))] s in
  merge_edges rel rprops (rows_to event_id actors s1) s1.

Definition initiator_props (a : Actor) : list (string * value) :=
  [("actorType", of_int (actor_type a));
   ("governmentType", of_int (government_type a));
   ("governmentLevel", of_int (government_level a));
   ("ambiguity", of_float (ambiguity a));
   ("numParticipants", of_int (num_participants a));
   ("numArmed", of_int (num_armed a))].

Definition target_props (a : Actor) : list (string * value) :=
  [("actorType", of_int (actor_type a));
   ("governmentType", of_int (government_type a));
   ("governmentLevel", of_int (government_level a));
   ("isHuman", VBool (is_human a))].

(** One block of [_create_actor_relationships]:
    [if event.<role> and event.<role>.primary_name: ...]. *)
Definition role_block (rel : string) (rprops : Actor -> list (string * value))
    (actor : option Actor) (event_id : string) (s : store) : store :=
  match actor with
  | Some a =>
      match primary_name a with
      | Some name =>
          if PyStr.truthy name
          then actor_statement rel a name event_id (rprops a) s
          else s
      | None => s
      end
  | None => s
  end.

Definition _create_actor_relationships (s : store) (event : Event) : store :=
  let s := role_block "INITIATED_BY" initiator_props (initiator event) (event_id event) s in
  let s := role_block "TARGETED" target_props (target event) (event_id event) s in
  role_block "VICTIMIZED" target_props (victim event) (event_id event) s.

(** [str(x)] for an optional float in an f-string. *)
Definition str_float (o : option pyfloat) : string :=
  match o with Some f => f | None => "None" end.

Definition _generate_location_id (name : string) (lat lon : option pyfloat)
  : string :=
  let key := PyStr.lower (name +:+ "_" +:+ str_float lat +:+ "_" +:+ str_float lon) in
  "LOC_" +:+ PyStr.upper (PyStr.take 12 (MD5.hexdigest (PyStr.encode_utf8 key))).

Definition location_props (l : Location) : list (string * value) :=
  [("name", of_str (name l));
   ("country", of_str (country l));
   ("latitude", of_float (latitude l));
   ("longitude", of_float (longitude l));
   ("locationType", of_int (location_type l));
   ("region", of_int (region l))].

Definition _create_location_relationship (s : store) (event : Event) : store :=
  match location event with
  | Some l =>
      match or_str (name l) (country l) with
      | Some key_name =>
          if PyStr.truthy key_name
          then
            let location_id := _generate_location_id key_name (latitude l) (longitude l) in
            let '(s1, locs) :=
              merge_node "Location" "locationId" (VStr location_id) (location_props l) s in
            merge_edges "OCCURRED_AT" [] (rows_to (event_id event) locs s1) s1
          else s
      | None => s
      end
  | None => s
  end.

Definition _link_event_type (s : store) (event : Event) : store :=
  match event_type event with
  | Some ty =>
      if negb (ty =? 0)%Z
      then let ets := find_nodes "EventType" "cameoCode" (VStr (PyStr.of_Z ty)) s in
           merge_edges "OF_TYPE" []
             (e ← find_nodes "Event" "eventId" (VStr (event_id event)) s;
              et ← ets; [(e, et)]) s
      else s
  | None => s
  end.

(** The body of the [try] of [_load_event_batch] for one Event.  Only
    the [CREATE] can fail in the store modelled here. *)
Definition load_event (s : store) (event : Event) : outcome store :=
  s ← _create_event_node s event;
  let s := _create_actor_relationships s event in
  let s := _create_location_relationship s event in
  mret (_link_event_type s event).

(** The loader between two statements: the store and the
    [event_load_failed] entries logged so far. *)
Record loader : Type := mkLoader {
  db : store;
  failed : list (string * exn)
}.

Definition _load_event_batch (self : loader) (events : list Event) : loader :=
  foldl (fun self event =>
           match load_event (db self) event with
           | Returned s => mkLoader s (failed self)
           | Raised e => mkLoader (db self) (failed self ++ [(event_id event, e)])
           end) self events.

(** *** Pass 2 *)

(** [MATCH (e:Event) WHERE e.isLinked = true
     RETURN e.eventId as event_id, e.properties as props] *)
Definition linked_records (s : store) : list (value * value) :=
  omap (fun n =>
          if String.eqb (nlabel n) "Event" && has_prop "isLinked" (VBool true) (nprops n)
          then Some (default VNull (nprops n !! "eventId"),
                     default VNull (nprops n !! "properties"))
          else None) (nodes s).

(** [props.get(key)] after [props = record["props"] or {}]. *)
Definition props_get (props : value) (key : string) : outcome value :=
  if truthy props
  then match props with
       | VMap m => Returned (default VNull (PyDict.get key m))
       | _ => Raised AttributeError
       end
  else Returned VNull.

(** [MATCH (e1:Event {eventId: a}) MATCH (e2:Event {eventId: b})
     MERGE (e1)-[r:LINKED_TO]->(e2) SET r.direction = d] *)
Definition link (a b : value) (direction : string) (s : store) : store :=
  merge_edges "LINKED_TO" [("direction", VStr direction)]
    (e1 ← find_nodes "Event" "eventId" a s;
     e2 ← find_nodes "Event" "eventId" b s; [(e1, e2)]) s.

(** The body of the loop of [_create_event_links] for one record. *)
Definition link_record (s : store) (record : value * value) : outcome store :=
  let '(event_id, props) := record in
  from_eid ← props_get props "FROM_EID";
  let s := if truthy from_eid then link from_eid event_id "from" s else s in
  to_eid ← props_get props "TO_EID";
  mret (if truthy to_eid then link event_id to_eid "to" s else s).

(** The statements run outside a transaction: what was linked before
    an exception stays.  The result is the store and the exception
    that ended the pass, if any. *)
Fixpoint link_records (s : store) (records : list (value * value))
  : store * option exn :=
  match records with
  | [] => (s, None)
  | r :: rest =>
      match link_record s r with
      | Returned s' => link_records s' rest
      | Raised e => (s, Some e)
      end
  end.

Definition _create_event_links (s : store) : store * option exn :=
  link_records s (linked_records s).

(** *** [load_events] *)

(** The loop of Pass 1 over the Events the parser yields: [batch] is
    the batch being filled. *)
Fixpoint pass1 (batch_size : Z) (self : loader) (batch events : list Event)
  : loader :=
  match events with
  | [] => match batch with
          | [] => self
          | _ => _load_event_batch self batch
          end
  | event :: rest =>
      let batch := batch ++ [event] in
      if (batch_size <=? Z.of_nat (length batch))%Z
      then pass1 batch_size (_load_event_batch self batch) [] rest
      else pass1 batch_size self batch rest
  end.

(** One attempt of [load_events] on the Events parsed from the file:
    the loader afterwards and the exception raised, if any. *)
Definition load_events (self : loader) (events : list Event) (batch_size : Z)
  : loader * option exn :=
  let self := pass1 batch_size self [] events in
  let '(s, e) := _create_event_links (db self) in
  (mkLoader s (failed self), e).

(** *** The CAMEO ontology *)

(** [SET n.k = v, ...] on the nodes bound to [n]. *)
Definition set_nodes (bound : list nat) (kvs : list (string * value))
    (s : store) : store :=
  mkStore
    (imap (fun i n =>
             if bool_decide (i ∈ bound)
             then mkNode (nlabel n) (set_props kvs (nprops n)) else n)
          (nodes s))
    (edges s) (constraints s).

Definition event_type_props (et : Cameo.CAMEOEventType)
  : list (string * value) :=
  [("label", VStr (Cameo.label et));
   ("level", VInt (Cameo.level et));
   ("category", VStr (Cameo.root_category et));
   ("isCooperation", VBool (Cameo.is_cooperation et));
   ("isConflict", VBool (Cameo.is_conflict et));
   ("isMaterial", VBool (Cameo.is_material et));
   ("isVerbal", VBool (Cameo.is_verbal et))].

(** [MERGE (et:EventType {cameoCode: $code}) SET et.label = ..., ...] *)
Definition event_type_statement (s : store) (et : Cameo.CAMEOEventType)
  : store :=
  let '(s1, bound) :=
    merge_node "EventType" "cameoCode" (VStr (Cameo.code et)) [] s in
  set_nodes bound (event_type_props et) s1.

(** [MATCH (parent:EventType {cameoCode: $parent})
     MATCH (child:EventType {cameoCode: $child})
     MERGE (child)-[:PARENT_TYPE]->(parent)] *)
Definition parent_statement (parent child : string) (s : store) : store :=
  merge_edges "PARENT_TYPE" []
    (p ← find_nodes "EventType" "cameoCode" (VStr parent) s;
     c ← find_nodes "EventType" "cameoCode" (VStr child) s;
     [(c, p)]) s.

Definition _load_event_types (s : store)
    (event_types : list Cameo.CAMEOEventType)
    (hierarchy : list (string * list string)) : store :=
  let s := foldl event_type_statement s event_types in
  foldl (fun s entry =>
           foldl (fun s child_code => parent_statement entry.1 child_code s)
                 s entry.2)
        s hierarchy.

Definition actor_type_props (a : Cameo.ActorType.CAMEOActorType)
  : list (string * value) :=
  [("name", VStr (Cameo.ActorType.name a));
   ("description", of_str (Cameo.ActorType.description a));
   ("baseCountry", of_str (Cameo.ActorType.base_country a));
   ("actorType", of_str (Cameo.ActorType.actor_type a));
   ("isInternationalOrg", VBool (Cameo.ActorType.is_international_org a))].

(** [MERGE (at:CAMEOActorType {code: $code}) SET at.name = ..., ...] *)
Definition actor_type_statement (s : store)
    (a : Cameo.ActorType.CAMEOActorType) : store :=
  let '(s1, bound) :=
    merge_node "CAMEOActorType" "code" (VStr (Cameo.ActorType.code a)) [] s in
  set_nodes bound (actor_type_props a) s1.

Definition _load_actor_types (s : store)
    (actor_types : list Cameo.ActorType.CAMEOActorType) : store :=
  foldl actor_type_statement s actor_types.

(** [load_cameo_ontology], from the ontology [parse_all] returned. *)
Definition load_cameo_ontology (s : store)
    (ontology : Cameo.Ontology.CAMEOOntology) : store :=
  let s := _load_event_types s (Cameo.Ontology.event_types ontology)
             (Cameo.Ontology.build_event_hierarchy ontology) in
  _load_actor_types s (Cameo.Ontology.actor_types ontology).

(** *** Statistics *)

(** [{key: count}] over the rows of an aggregating [RETURN]; the
    rows come in no fixed order. *)
Definition count_by {A} (key : A -> string) (l : list A) : gmap string nat :=
  foldr (fun x m => <[key x := S (default 0%nat (m !! key x))]> m) ∅ l.

Record stats : Type := mkStats {
  node_counts : gmap string nat;
  rel_counts : gmap string nat
}.

Definition get_stats (s : store) : stats :=
  mkStats (count_by nlabel (nodes s)) (count_by etype (edges s)).

End Neo4jLoader.

(** ** Vocabulary of the statements *)
Module Variants.
Import PyStr.

(** A string made of whitespace only. *)
Fixpoint blank (s : string) : bool :=
  match s with
  | EmptyString => true
  | String c r => isspace c && blank r
  end.

(** Two characters that are the same letter, in whatever case. *)
Definition same_letter (c d : ascii) : Prop := lower_char c = lower_char d.

(** Two strings that differ only in letter case. *)
Inductive case_variant : string -> string -> Prop :=
  | cv_nil : case_variant EmptyString EmptyString
  | cv_cons c d s t :
      same_letter c d -> case_variant s t ->
      case_variant (String c s) (String d t).

(** Two names that differ only in letter case or in leading and
    trailing whitespace, in any combination. *)
Inductive name_variant : string -> string -> Prop :=
  | nv_case a b : case_variant a b -> name_variant a b
  | nv_pad l a r :
      blank l = true -> blank r = true -> name_variant a (l +:+ a +:+ r)
  | nv_sym a b : name_variant a b -> name_variant b a
  | nv_trans a b c : name_variant a b -> name_variant b c -> name_variant a c.

Definition is_lower_hex (c : ascii) : bool :=
  in_range 48 57 (code c) || in_range 97 102 (code c).
Definition is_upper_hex (c : ascii) : bool :=
  in_range 48 57 (code c) || in_range 65 70 (code c).

(** Twelve upper-case hexadecimal characters. *)
Definition hex12 (h : string) : Prop :=
  String.length h = 12%nat /\ Forall (fun c => is_upper_hex c = true) (list_ascii_of_string h).

End Variants.

(** A date with month 13. *)
Module TemporalRuns.
Import Events.

Definition month_13 : TemporalInfo :=
  mkTemporalInfo (Some 2000%Z) (Some 13%Z) (Some 5%Z)
    None None None None None None None None None None.

End TemporalRuns.

(** What the checks of [validate] append when none of them raises, and
    the frames used as examples. *)
Module ValidatorRuns.
Import SchemaValidator.

Definition is_field_count (f : finding) : bool :=
  match f with FieldCount _ _ => true | _ => false end.

(** The findings of one check; nothing when it raises. *)
Definition findings_of (df : DataFrame) (c : DataFrame -> outcome (list finding))
  : list finding :=
  match c df with Returned fs => fs | Raised _ => [] end.

Definition returns (df : DataFrame) (c : DataFrame -> outcome (list finding)) : Prop :=
  exists fs, c df = Returned fs.

(** Ninety-nine columns without data, to fill a header. *)
Definition filler : list (string * column) :=
  (fun i => ("X" +:+ PyStr.of_nat i, NumCol [None])) <$> seq 0 99.

(** A sample of one row under a header of 105 columns: the year cell
    holds the sentinel [.], the month is 13 and the event type is 9. *)
Definition sample_105 : DataFrame :=
  mkFrame ([("eventid", NumCol [Some 40124%Q]);
            ("year", ObjCol [Some "."]);
            ("month", NumCol [Some 13%Q]);
            ("day", NumCol [Some 5%Q]);
            ("EV_TYPE", NumCol [Some 9%Q]);
            ("NEWS_SOURCE", ObjCol [Some "NYT"])] ++ filler) 1.

(** The same sample with a numeric year. *)
Definition sample_105_numeric : DataFrame :=
  mkFrame ([("eventid", NumCol [Some 40124%Q]);
            ("year", NumCol [Some 1950%Q]);
            ("month", NumCol [Some 13%Q]);
            ("day", NumCol [Some 5%Q]);
            ("EV_TYPE", NumCol [Some 9%Q]);
            ("NEWS_SOURCE", ObjCol [Some "NYT"])] ++ filler) 1.

End ValidatorRuns.

(** The identifier of a row, and the rows used as examples. *)
Module ParserRuns.
Import CsvParser.

(** One of the four sentinel strings. *)
Definition sentinel (s : string) : Prop :=
  s = EmptyString \/ s = "." \/ s = "nan" \/ s = "NaN".

(** The identifier field is missing: no such column, a null cell, or a
    sentinel. *)
Definition missing_identifier (r : row) : Prop :=
  match r !! "eventid" with
  | None | Some CNull => True
  | Some (CStr s) => sentinel s
  | Some (CScalar _) => False
  end.

(** The text of the identifier cell. *)
Definition identifier_text (r : row) : option string :=
  match r !! "eventid" with
  | Some (CStr s) => Some s
  | Some (CScalar text) => Some text
  | _ => None
  end.

(** The counters of a generator agree with what it has read and
    yielded. *)
Definition counts_agree (g : generator) : Prop :=
  length (yielded g) = parsed_count (self g)
  /\ (parsed_count (self g) + skipped_count (self g))%nat = processed g.

(** What reading the row [r] at index [idx] changes from [g] to [g'],
    by the outcome of [_parse_row] on it.  Exactly one of the two
    counters goes up by one: [parsed_count], with the Event yielded,
    when the row gives an Event; [skipped_count] otherwise -- with the
    log as it was when the row returned no Event, and with one entry
    appended to it, for this index, identifier and exception, when the
    row raised. *)
Definition row_counted (int_of_float : string -> outcome Z)
    (float_of : string -> option Events.pyfloat)
    (idx : nat) (r : row) (g g' : generator) : Prop :=
  match _parse_row int_of_float float_of r with
  | Returned (Some event) =>
      parsed_count (self g') = S (parsed_count (self g))
      /\ skipped_count (self g') = skipped_count (self g)
      /\ errors (self g') = errors (self g)
      /\ yielded g' = yielded g ++ [event]
  | Returned None =>
      skipped_count (self g') = S (skipped_count (self g))
      /\ parsed_count (self g') = parsed_count (self g)
      /\ errors (self g') = errors (self g)
      /\ yielded g' = yielded g
  | Raised e =>
      skipped_count (self g') = S (skipped_count (self g))
      /\ parsed_count (self g') = parsed_count (self g)
      /\ errors (self g') = errors (self g) ++ [mkError idx (_safe_get r "eventid") e]
      /\ yielded g' = yielded g
  end.

(** The log entry a row stands for: one when [_parse_row] raises on
    it, none otherwise. *)
Definition raised_entry (int_of_float : string -> outcome Z)
    (float_of : string -> option Events.pyfloat) (ir : nat * row) : list error_info :=
  match _parse_row int_of_float float_of ir.2 with
  | Raised e => [mkError ir.1 (_safe_get ir.2 "eventid") e]
  | Returned _ => []
  end.

(** The entries of the rows that raise, in the order of the rows and
    under their indices. *)
Definition raised_entries (int_of_float : string -> outcome Z)
    (float_of : string -> option Events.pyfloat) (rows : list row) : list error_info :=
  imap pair rows ≫= raised_entry int_of_float float_of.

Definition row_blank_id : row := {[ "eventid" := CStr " " ]}.
Definition row_padded_id : row := {[ "eventid" := CStr " EID40124 " ]}.
Definition row_sentinel_id : row := {[ "eventid" := CStr "." ]}.
Definition row_overflow : row :=
  list_to_map [("eventid", CStr "EID7"); ("linked", CStr "inf")].

Definition three_rows : list row := [row_padded_id; row_sentinel_id; row_overflow].

(** Two rows of a file: the second is flagged as linked and names the
    first in [FROM_EID]. *)
Definition row_e1 : row :=
  list_to_map [("eventid", CStr "E1"); ("year", CScalar "1950"); ("linked", CScalar "0");
               ("INI_PGRP1", CStr "Army"); ("INI_TYPE", CScalar "2.0");
               ("GP3", CStr "Paris"); ("GP7", CScalar "48.85"); ("GP8", CScalar "2.35");
               ("N_KILLED_P", CScalar "10.0")].
Definition row_e2 : row :=
  list_to_map [("eventid", CStr "E2"); ("linked", CScalar "1"); ("FROM_EID", CStr "E1");
               ("INI_PGRP1", CStr " army"); ("GP3", CStr "PARIS");
               ("GP7", CScalar "48.85"); ("GP8", CScalar "2.35")].
Definition linked_rows : list row := [row_e1; row_e2].

(** The Events the parser yields for them. *)
Definition linked_events : list Events.Event :=
  yielded (parse decimal_int_of_float decimal_float_of linked_rows).

End ParserRuns.

(** What the statements say about stores. *)
Module Stores.
Import Events Neo4jLoader.

(** The last value assigned to [k] in a list of assignments. *)
Fixpoint last_assign (k : string) (kvs : list (string * value)) : option value :=
  match kvs with
  | [] => None
  | (k', v) :: rest =>
      match last_assign k rest with
      | Some w => Some w
      | None => if String.eqb k' k then Some v else None
      end
  end.

(** [s'] has the nodes of [s], unchanged and at the same positions,
    perhaps followed by new ones, and the same constraints. *)
Definition extends (s s' : store) : Prop :=
  nodes s `prefix_of` nodes s' /\ constraints s' = constraints s.

(** At most one node labelled [l] for each value of [k]. *)
Definition unique_key (l k : string) (s : store) : Prop :=
  forall v, length (find_nodes l k v s) <= 1.


(** The edges of type [ty] from node [src] to node [dst]. *)
Definition edges_between (src : nat) (ty : string) (dst : nat) (s : store)
  : list edge :=
  List.filter (edge_matches src ty dst) (edges s).

(** There is an edge of type [ty] from [src] to [dst], and every such
    edge carries the attributes [kvs] sets. *)
Definition edge_settled (src : nat) (ty : string) (dst : nat)
    (kvs : list (string * value)) (s : store) : Prop :=
  existsb (edge_matches src ty dst) (edges s) = true
  /\ forall e, e ∈ edges s -> edge_matches src ty dst e = true ->
               set_props kvs (eprops e) = eprops e.

(** Every node bound by [l {k: v}] is linked by a settled edge of type
    [ty] from every Event node with identifier [event_id], and there is
    such a node. *)
Definition linked_to (ty : string) (event_id : string) (l k : string) (v : value)
    (kvs : list (string * value)) (s : store) : Prop :=
  find_nodes l k v s <> []
  /\ forall e n, e ∈ find_nodes "Event" "eventId" (VStr event_id) s ->
                 n ∈ find_nodes l k v s ->
                 edge_settled e ty n kvs s.

(** The shape shared by the Actor and the Location statements: upsert
    the node [l {k: x}], then merge an edge of type [ty] to it from
    every Event node with identifier [event_id]. *)
Definition upsert_link (ty event_id l k x : string)
    (on_create kvs : list (string * value)) (s : store) : store :=
  let '(s1, targets) := merge_node l k (VStr x) on_create s in
  merge_edges ty kvs (rows_to event_id targets s1) s1.

(** The actor of a role is to be loaded: it is there and its primary
    name is not empty. *)
Definition role_name (actor : option Actor) : option string :=
  match actor with
  | Some a => match primary_name a with
              | Some n => if PyStr.truthy n then Some n else None
              | None => None
              end
  | None => None
  end.

(** What the block of a role leaves behind: when the role is to be
    loaded, its Actor node is there and every node of the Event has a
    settled edge of the role type to it. *)
Definition role_linked (rel : string) (rprops : Actor -> list (string * value))
    (actor : option Actor) (event_id : string) (s : store) : Prop :=
  match actor, role_name actor with
  | Some a, Some n =>
      linked_to rel event_id "Actor" "actorId"
        (VStr (Actors.generate_actor_id n)) (rprops a) s
  | _, _ => True
  end.

(** The name under which the location of an Event is keyed. *)
Definition location_key (event : Event) : option (Location * string) :=
  match location event with
  | Some l => match or_str (name l) (country l) with
              | Some n => if PyStr.truthy n then Some (l, n) else None
              | None => None
              end
  | None => None
  end.








(** The [LINKED_TO] edges of a store. *)
Definition links (s : store) : list edge :=
  List.filter (fun e => String.eqb (etype e) "LINKED_TO") (edges s).

(** The attributes an Actor node is created with. *)
Definition actor_on_create (a : Actor) (n : string) : list (string * value) :=
  [("name", VStr n); ("cameoCode", of_str (identity_group a));
   ("isGovernment", VBool (is_government a))].

(** No Event node carries a property called [properties]. *)
Definition no_properties (s : store) : Prop :=
  forall n, n ∈ nodes s -> nlabel n = "Event" -> nprops n !! "properties" = None.

(** A store without data on which [create_schema] has run. *)
Definition fresh : store := create_schema empty.

(** The two Events of [ParserRuns.linked_rows]. *)
Definition event_e1 : Event :=
  mkEvent "E1"
    (Some (mkTemporalInfo (Some 1950%Z) None None None None None None None None
             None None None None))
    None None None None None None
    (Some (mkActor INITIATOR None None (Some "Army") (Some 2%Z) None None None
             None None None None None))
    None None
    (Some (mkLocation (Some "Paris") None (Some "48.85") (Some "2.35")
             None None None None))
    (Some (mkImpact (Some 10%Z) None None None None None None None))
    false false false false false None [] [] false
    [("N_KILLED_P", PInt 10)].

Definition event_e2 : Event :=
  mkEvent "E2"
    (Some (mkTemporalInfo None None None None None None None None None
             None None None None))
    None None None None None None
    (Some (mkActor INITIATOR None None (Some "army") None None None None
             None None None None None))
    None None
    (Some (mkLocation (Some "PARIS") None (Some "48.85") (Some "2.35")
             None None None None))
    None
    false false false false true None ["E1"] [] false
    [].

(** The store after the [CREATE] of the two Event nodes. *)
Definition two_event_nodes : store :=
  match s ← _create_event_node fresh event_e1; _create_event_node s event_e2 with
  | Returned s => s
  | Raised _ => fresh
  end.


End Stores.

(** The vocabulary of the further properties, and the inputs they are
    run on. *)
Module Readings.

(** A count that is present and positive. *)
Definition positive_count (o : option Z) : Prop :=
  exists n, o = Some n /\ (0 < n)%Z.

(** The merge of two summaries of [merge_actor_info]: sets united,
    flags joined, totals added. *)
Definition merged_union (a b : Actors.merged) : Actors.merged :=
  Actors.mkMerged
    (Actors.names a ∪ Actors.names b) (Actors.roles a ∪ Actors.roles b)
    (Actors.m_is_government a || Actors.m_is_government b)
    (Actors.m_is_non_government a || Actors.m_is_non_government b)
    (Actors.total_appearances a + Actors.total_appearances b)
    (Actors.total_armed a + Actors.total_armed b)
    (Actors.total_participants a + Actors.total_participants b).

(** The codes of the event types whose parent code is [p], in the
    order of the list. *)
Definition children_of (p : string) (event_types : list Cameo.CAMEOEventType)
  : list string :=
  Cameo.code <$> List.filter
                   (fun et => bool_decide (Cameo.parent_code et = Some p))
                   event_types.

(** The entry of a dictionary of lists: absent when the list is empty. *)
Definition entry (cs : list string) : option (list string) :=
  match cs with [] => None | _ => Some cs end.

(** The entry of a dictionary of counts: absent when the count is zero. *)
Definition tally (n : nat) : option nat :=
  match n with O => None | _ => Some n end.

(** How many logged errors are of the class called [name]. *)
Definition occurrences (name : string) (errors : list CsvParser.error_info) : nat :=
  length (List.filter
            (fun e => String.eqb (CsvParser.exn_name (CsvParser.error_type e)) name)
            errors).

(** A column without cells. *)
Definition no_cells (c : SchemaValidator.column) : Prop :=
  match c with
  | SchemaValidator.NumCol cells => cells = []
  | SchemaValidator.ObjCol cells => cells = []
  end.

(** A finding about the header alone, or about completeness. *)
Definition header_finding (f : SchemaValidator.finding) : Prop :=
  match f with
  | SchemaValidator.FieldCount _ _ | SchemaValidator.MissingRequired _
  | SchemaValidator.DuplicateColumns _ | SchemaValidator.LowCompleteness _ => True
  | _ => False
  end.

(** The constraints [create_schema] asks for. *)
Definition schema_constraints : list (string * string) :=
  Neo4jLoader.constraints (Neo4jLoader.create_schema Neo4jLoader.empty).

(** Every EventType node of the store has a code that starts with 0. *)
Definition zero_codes (s : Neo4jLoader.store) : Prop :=
  forall n c,
    n ∈ Neo4jLoader.nodes s -> Neo4jLoader.nlabel n = "EventType" ->
    Neo4jLoader.nprops n !! "cameoCode" = Some (Neo4jLoader.VStr c) ->
    PyStr.startswith "0" c = true.

(** The node carries the attribute values [kvs] sets. *)
Definition carries (kvs : list (string * Neo4jLoader.value)) (n : Neo4jLoader.node)
  : Prop :=
  Neo4jLoader.set_props kvs (Neo4jLoader.nprops n) = Neo4jLoader.nprops n.

(** Every node with code [child] has a settled [PARENT_TYPE] edge to
    every node with code [parent]. *)
Definition parent_linked (parent child : string) (s : Neo4jLoader.store) : Prop :=
  forall p c,
    p ∈ Neo4jLoader.find_nodes "EventType" "cameoCode" (Neo4jLoader.VStr parent) s ->
    c ∈ Neo4jLoader.find_nodes "EventType" "cameoCode" (Neo4jLoader.VStr child) s ->
    Stores.edge_settled c "PARENT_TYPE" p [] s.

End Readings.

(** Inputs of the examples. *)
Module Cases.
Import Events.

Definition feb_3_1989 : TemporalInfo :=
  mkTemporalInfo (Some 1989%Z) (Some 2%Z) (Some 3%Z)
    None None None None None None None None None None.

Definition army : Actor :=
  mkActor INITIATOR None None (Some "Army") (Some 2%Z) (Some 5%Z) (Some 4%Z) None
    None None None (Some 40%Z) (Some 12%Z).

Definition crowd : Actor :=
  mkActor TARGET (Some "Students") None None None None None (Some 14%Z)
    None None (Some 1%Z) None None.

Definition type_0111 : Cameo.CAMEOEventType :=
  Cameo.mkEventType "0111" "Decline comment on specific issue" 4 (Some "01").
Definition type_011 : Cameo.CAMEOEventType :=
  Cameo.mkEventType "011" "Decline comment" 3 (Some "01").
Definition type_011_again : Cameo.CAMEOEventType :=
  Cameo.mkEventType "011" "Decline to comment" 3 (Some "01").
Definition type_01 : Cameo.CAMEOEventType :=
  Cameo.mkEventType "01" "Make public statement" 2 (Some "01").

Definition small_ontology : Cameo.Ontology.CAMEOOntology :=
  Cameo.Ontology.mkOntology
    [Cameo.ActorType.mkActorType "USAGOV" "Usagov" None None None None]
    [] [type_01; type_011; type_0111] [].

Definition verb_1032 : Cameo.Verb.CAMEOVerb :=
  Cameo.Verb.mkVerb "1032" "ACCEPT * DEMAND" None 4 (Some "103") None.

Definition option_key : Cameo.Option.CAMEOOption :=
  Cameo.Option.mkOption "KEY" "value = more" None.

(** A header of two columns over no row. *)
Definition header_only : SchemaValidator.DataFrame :=
  SchemaValidator.mkFrame
    [("eventid", SchemaValidator.ObjCol []); ("year", SchemaValidator.ObjCol [])] 0.

(** A sample of one row under a header of 106 columns. *)
Definition sample_106 : SchemaValidator.DataFrame :=
  SchemaValidator.mkFrame
    ([("eventid", SchemaValidator.NumCol [Some 40124%Q]);
      ("year", SchemaValidator.NumCol [Some 1989%Q]);
      ("month", SchemaValidator.NumCol [Some 2%Q]);
      ("day", SchemaValidator.NumCol [Some 3%Q]);
      ("EV_TYPE", SchemaValidator.NumCol [Some 1%Q]);
      ("NEWS_SOURCE", SchemaValidator.ObjCol [Some "NYT"])]
     ++ ((fun i => ("X" +:+ PyStr.of_nat i, SchemaValidator.NumCol [None]))
           <$> seq 0 100)) 1.

(** A store that holds the root category 01, and an Event of type 1. *)
Definition root_store : Neo4jLoader.store :=
  Neo4jLoader.mkStore
    [Neo4jLoader.mkNode "EventType" {[ "cameoCode" := Neo4jLoader.VStr "01" ]}] [] [].

Definition event_of_type_1 : Event :=
  mkEvent "E9" None (Some 1%Z) None None None None None None None None None None
    false false false false false None [] [] false [].

End Cases.

(** * Properties *)

(** ** The built-ins on sample inputs

    The right-hand sides are the values CPython 3 gives. *)
Section Samples.
Import PyStr.

Local Abbreviation dq := (String (ascii_of_N 34) EmptyString).
Local Abbreviation chr n := (String (ascii_of_N n) EmptyString).

(** The test suite of RFC 1321. *)
Example md5_rfc1321_suite :
  MD5.hexdigest <$> (encode_utf8 <$>
    [EmptyString; "a"; "abc"; "message digest"; "abcdefghijklmnopqrstuvwxyz";
     "12345678901234567890123456789012345678901234567890123456789012345678901234567890"])
  = ["d41d8cd98f00b204e9800998ecf8427e";
     "0cc175b9c0f1b6a831c399e269772661";
     "900150983cd24fb0d6963f7d28e17f72";
     "f96b697d7cb7938d525a2f31aaf161d0";
     "c3fcd3d76192e4007dfb496cca67e13b";
     "57edf4a22be3c955ac49da2e2107b67a"].
Proof. vm_compute. reflexivity. Qed.

(** A code point above 127 is hashed through its two UTF-8 bytes. *)
Example md5_e_acute :
  encode_utf8 (chr 233) = [195; 169]%N
  /\ MD5.hexdigest (encode_utf8 (chr 233)) = "66ddcd97cfdeabb2f6fb8a999b4bc76f".
Proof. vm_compute. done. Qed.

Example strip_sample :
  strip (" " +:+ chr 9 +:+ "a b" +:+ chr 160 +:+ chr 133 +:+ " ") = "a b".
Proof. reflexivity. Qed.

Example lower_sample :
  code <$> list_ascii_of_string (lower (chr 192 +:+ chr 215 +:+ chr 222 +:+ "Bz"))
  = [224; 215; 254; 98; 122]%N.
Proof. reflexivity. Qed.

Example int_samples :
  int <$> [" 12 "; "+7"; "-0"; "1_0"; "1__0"; "_1"; "1.0"; EmptyString; "0012";
           chr 160 +:+ "7" +:+ chr 133]
  = [Some 12; Some 7; Some 0; Some 10; None; None; None; None; Some 12; Some 7]%Z.
Proof. reflexivity. Qed.

Example date_new_samples :
  (fun '(y, m, d) => Events.date_new y m d) <$>
    [(2020, 2, 29); (2021, 2, 29); (1900, 2, 29); (2000, 2, 29); (2020, 13, 1);
     (0, 1, 1); (10000, 1, 1); (2 ^ 31, 1, 1); (2020, 4, 31); (9999, 12, 31)]%Z
  = [Returned (Events.mkDate 2020 2 29); Raised ValueError; Raised ValueError;
     Returned (Events.mkDate 2000 2 29); Raised ValueError; Raised ValueError;
     Raised ValueError; Raised OverflowError; Raised ValueError;
     Returned (Events.mkDate 9999 12 31)]%Z.
Proof. reflexivity. Qed.

Example decimal_int_of_float_samples :
  CsvParser.decimal_int_of_float <$>
    ["3.0"; "3.7"; "-2.5"; "inf"; "abc"; "1989"; "-0.0"; "nan"]
  = [Returned 3; Returned 3; Returned (-2); Raised OverflowError;
     Raised ValueError; Returned 1989; Returned 0; Raised ValueError]%Z.
Proof. reflexivity. Qed.

Example dumps_samples :
  Json.dumps [("a b", Events.PStr ("x" +:+ chr 9 +:+ "y")); ("n", Events.PInt (-3));
              ("z", Events.PInt 0)]
  = "{" +:+ dq +:+ "a b" +:+ dq +:+ ": " +:+ dq +:+ "x\ty" +:+ dq
        +:+ ", " +:+ dq +:+ "n" +:+ dq +:+ ": -3, " +:+ dq +:+ "z" +:+ dq +:+ ": 0}"
  /\ Json.dumps [("k", Events.PStr (chr 233 +:+ chr 127 +:+ "\"))]
     = "{" +:+ dq +:+ "k" +:+ dq +:+ ": " +:+ dq +:+ "\u00e9\u007f\\" +:+ dq +:+ "}"
  /\ Json.dumps [] = "{}".
Proof. vm_compute. done. Qed.

Example generate_actor_id_samples :
  Actors.generate_actor_id <$>
    [" U.S. Army"; "u.s. ARMY  "; "Army"; chr 201 +:+ "cole"; EmptyString]
  = ["ACTOR_F57B111ED28C"; "ACTOR_F57B111ED28C"; "ACTOR_E7B95B496582";
     "ACTOR_D9BF28A92935"; "ACTOR_UNKNOWN"].
Proof. vm_compute. reflexivity. Qed.

Example generate_location_id_samples :
  Neo4jLoader._generate_location_id "Paris" (Some "48.85") (Some "2.35")
  = "LOC_421E29772484"
  /\ Neo4jLoader._generate_location_id "Paris" None None = "LOC_B3A591FBF3D7".
Proof. vm_compute. done. Qed.

(** [re.match(r'LABEL:\s*(\d+)\s*=\s*(.+)', line)] on stripped lines. *)
Example parse_event_type_line_samples :
  CameoParser.parse_event_type_line <$>
    ["LABEL:010=Make statement"; "LABEL:  0111  =   x y  "; "LABEL: 12 = ";
     "LABEL: ab= x"; "  LABEL: 02=Appeal"; "LABEL: 03=" +:+ chr 9 +:+ "q";
     "label: 04= x"]
  = [Some (Cameo.mkEventType "010" "Make statement" 3 (Some "01"));
     Some (Cameo.mkEventType "0111" "x y" 4 (Some "01"));
     None; None;
     Some (Cameo.mkEventType "02" "Appeal" 2 (Some "02"));
     Some (Cameo.mkEventType "03" "q" 2 (Some "03"));
     None].
Proof. vm_compute. reflexivity. Qed.

End Samples.

(** ** Strings *)
Section StringFacts.
Import PyStr Variants.

Ltac each_char c := destruct c as [[] [] [] [] [] [] [] []]; reflexivity.

Lemma lower_char_idem c : lower_char (lower_char c) = lower_char c.
Proof. each_char c. Qed.

Lemma isspace_lower_char c : isspace (lower_char c) = isspace c.
Proof. each_char c. Qed.

Lemma map_app f s t : map f (s +:+ t) = map f s +:+ map f t.
Proof. induction s as [|c s IH]; simpl; [done | by rewrite IH]. Qed.

Lemma lower_idem s : lower (lower s) = lower s.
Proof.
  unfold lower. induction s as [|c s IH]; simpl; [done|].
  by rewrite lower_char_idem, IH.
Qed.

Lemma lower_app s t : lower (s +:+ t) = lower s +:+ lower t.
Proof. apply map_app. Qed.

Lemma lstrip_lower s : lstrip (lower s) = lower (lstrip s).
Proof.
  unfold lower. induction s as [|c s IH]; simpl; [done|].
  rewrite isspace_lower_char. by destruct (isspace c).
Qed.

Lemma rstrip_lower s : rstrip (lower s) = lower (rstrip s).
Proof.
  unfold lower. induction s as [|c s IH]; simpl; [done|].
  rewrite IH, isspace_lower_char.
  destruct (rstrip s); simpl; [by destruct (isspace c) | done].
Qed.

Lemma strip_lower s : strip (lower s) = lower (strip s).
Proof. unfold strip. by rewrite lstrip_lower, rstrip_lower. Qed.

Lemma lstrip_idem s : lstrip (lstrip s) = lstrip s.
Proof.
  induction s as [|c s IH]; simpl; [done|].
  destruct (isspace c) eqn:E; [done | simpl; by rewrite E].
Qed.

Lemma rstrip_idem s : rstrip (rstrip s) = rstrip s.
Proof.
  induction s as [|c s IH]; simpl; [done|].
  destruct (rstrip s) as [|d r] eqn:E.
  - destruct (isspace c) eqn:Ec; simpl; [done | by rewrite Ec].
  - change (rstrip (String c (String d r))) with
      (match rstrip (String d r) with
       | EmptyString => if isspace c then EmptyString else String c EmptyString
       | r' => String c r'
       end).
    by rewrite IH.
Qed.

Lemma lstrip_rstrip s : lstrip (rstrip s) = rstrip (lstrip s).
Proof.
  induction s as [|c s IH]; simpl; [done|].
  destruct (isspace c) eqn:Ec.
  - rewrite <- IH. destruct (rstrip s); simpl; [done | by rewrite Ec].
  - simpl. destruct (rstrip s); simpl; by rewrite Ec.
Qed.

Lemma strip_idem s : strip (strip s) = strip s.
Proof.
  unfold strip.
  by rewrite (lstrip_rstrip (lstrip s)), lstrip_idem, rstrip_idem.
Qed.

Lemma lstrip_blank_app w s : blank w = true -> lstrip (w +:+ s) = lstrip s.
Proof.
  induction w as [|c w IH]; simpl; [done|].
  intros [Hc Hw]%andb_prop. rewrite Hc. auto.
Qed.

Lemma rstrip_blank w : blank w = true -> rstrip w = EmptyString.
Proof.
  induction w as [|c w IH]; simpl; [done|].
  intros [Hc Hw]%andb_prop. by rewrite IH, Hc.
Qed.

Lemma rstrip_app_blank s w : blank w = true -> rstrip (s +:+ w) = rstrip s.
Proof.
  intros Hw. induction s as [|c s IH]; simpl.
  - by apply rstrip_blank.
  - by rewrite IH.
Qed.

Lemma strip_padded l s r :
  blank l = true -> blank r = true -> strip (l +:+ s +:+ r) = strip s.
Proof.
  intros Hl Hr. unfold strip.
  rewrite lstrip_blank_app by done.
  rewrite <- lstrip_rstrip, rstrip_app_blank by done.
  apply lstrip_rstrip.
Qed.

End StringFacts.

(** ** Actor identifiers *)
Section ActorIds.
Import PyStr Variants Actors.

Lemma normalize_idempotent s : normalize (normalize s) = normalize s.
Proof.
  unfold normalize. by rewrite strip_lower, strip_idem, <- strip_lower, lower_idem.
Qed.

Lemma case_variant_lower a b : case_variant a b -> lower a = lower b.
Proof.
  unfold lower. induction 1 as [|c d s t Hcd _ IH]; simpl; [done|].
  by rewrite Hcd, IH.
Qed.

Lemma name_variant_normalize a b : name_variant a b -> normalize a = normalize b.
Proof.
  induction 1 as [a b H | l a r Hl Hr | a b _ IH | a b c _ IH1 _ IH2].
  - unfold normalize. by rewrite (case_variant_lower a b).
  - unfold normalize. by rewrite !strip_lower, strip_padded.
  - done.
  - congruence.
Qed.

(** C7.  The normalisation of [generate_actor_id] is idempotent, so
    hashing after one or after two rounds of it gives the same value;
    and two non-empty names that differ only in letter case or in
    leading and trailing whitespace receive the same actor id. *)
Theorem generate_actor_id_normalization :
  (forall x, hash_value (normalize (normalize x)) = hash_value (normalize x))
  /\ (forall a b,
        a <> EmptyString -> b <> EmptyString -> name_variant a b ->
        generate_actor_id a = generate_actor_id b).
Proof.
  split.
  - intros x. by rewrite normalize_idempotent.
  - intros a b Ha Hb Hab. unfold generate_actor_id.
    destruct a; [done|]. destruct b; [done|]. simpl.
    by rewrite (name_variant_normalize _ _ Hab).
Qed.

Lemma generate_actor_id_normalization_witness :
  hash_value (normalize (normalize " U.S. Army ")) = hash_value (normalize " U.S. Army ")
  /\ generate_actor_id " U.S. Army" = generate_actor_id "u.s. ARMY  ".
Proof.
  split.
  - apply (proj1 generate_actor_id_normalization).
  - apply (proj2 generate_actor_id_normalization); [done | done |].
    apply nv_trans with "U.S. Army".
    + apply nv_sym, (nv_pad " " "U.S. Army" EmptyString); reflexivity.
    + apply nv_trans with "u.s. ARMY".
      * apply nv_case. repeat constructor.
      * apply (nv_pad EmptyString "u.s. ARMY" "  "); reflexivity.
Defined.

End ActorIds.

(** ** Location identifiers *)
Section LocationIds.
Import Variants Neo4jLoader.

Lemma hex_digit_lower n : is_lower_hex (MD5.hex_digit n) = true.
Proof.
  unfold MD5.hex_digit.
  assert (H : (N.to_nat (n mod 16) < 16)%nat).
  { pose proof (N.mod_upper_bound n 16). lia. }
  revert H. generalize (N.to_nat (n mod 16)). intros k Hk.
  do 16 (destruct k as [|k]; [reflexivity|]). lia.
Qed.

Lemma upper_lower_hex c : is_lower_hex c = true -> is_upper_hex (PyStr.upper_char c) = true.
Proof. destruct c as [[] [] [] [] [] [] [] []]; vm_compute; congruence. Qed.

Lemma take_of_list n l :
  PyStr.take n (string_of_list_ascii l) = string_of_list_ascii (take n l).
Proof.
  revert l. induction n as [|n IH]; intros [|c l]; simpl; try done.
  by rewrite IH.
Qed.

Lemma upper_of_list l :
  PyStr.upper (string_of_list_ascii l) = string_of_list_ascii (PyStr.upper_char <$> l).
Proof. unfold PyStr.upper. induction l as [|c l IH]; simpl; [done | by rewrite IH]. Qed.

Lemma length_of_list l : String.length (string_of_list_ascii l) = length l.
Proof. induction l as [|c l IH]; simpl; [done | by rewrite IH]. Qed.

(** The digest is 32 lower-case hexadecimal characters. *)
Lemma hexdigest_chars msg :
  exists l, MD5.hexdigest msg = string_of_list_ascii l
            /\ length l = 32%nat /\ Forall (fun c => is_lower_hex c = true) l.
Proof.
  unfold MD5.hexdigest. destruct (MD5.digest msg) as [[[a b] c] d].
  eexists. split; [reflexivity|]. split; [reflexivity|].
  apply Forall_bind. apply Forall_true. intros w.
  repeat constructor; apply hex_digit_lower.
Qed.

(** The first twelve characters of a digest, in upper case. *)
Lemma digest_prefix_hex12 msg : hex12 (PyStr.upper (PyStr.take 12 (MD5.hexdigest msg))).
Proof.
  destruct (hexdigest_chars msg) as (l & -> & Hlen & Hall).
  rewrite take_of_list, upper_of_list. split.
  - rewrite length_of_list, length_fmap, length_take. lia.
  - rewrite list_ascii_of_string_of_list_ascii.
    apply Forall_fmap, Forall_take. eapply Forall_impl; [exact Hall|].
    intros c Hc. by apply upper_lower_hex.
Qed.

Lemma location_id_format name lat lon :
  exists h, _generate_location_id name lat lon = "LOC_" +:+ h /\ hex12 h.
Proof. eexists. split; [reflexivity | apply digest_prefix_hex12]. Qed.

Lemma location_id_case_insensitive n1 n2 lat lon :
  case_variant n1 n2 ->
  _generate_location_id n1 lat lon = _generate_location_id n2 lat lon.
Proof.
  intros H. unfold _generate_location_id.
  by rewrite (lower_app n1), (lower_app n2), (case_variant_lower n1 n2 H).
Qed.

End LocationIds.

(** ** Temporal information *)
Section Temporal.
Import Events TemporalRuns.

Lemma calendar_date_total t :
  (exists r, calendar_date t = Returned r) \/ calendar_date t = Raised OverflowError.
Proof.
  unfold calendar_date, date_new.
  destruct (year t), (month t), (day t); repeat case_match; simplify_eq;
    first [left; eexists; reflexivity | right; reflexivity].
Qed.

(** An argument of [date] beyond the range of a C [int] raises
    [OverflowError], which [calendar_date] does not catch. *)
Example calendar_date_overflow :
  calendar_date (mkTemporalInfo (Some 10000000000%Z) (Some 1%Z) (Some 1%Z)
                   None None None None None None None None None None)
  = Raised OverflowError.
Proof. reflexivity. Qed.

(** C4, as the code has it.  When year, month and day are all present,
    fit a C [int], and do not form a calendar date, [calendar_date]
    returns [None] and raises nothing; [precision] looks only at which
    fields are populated with a non-zero value, so it still answers
    ["day"] whenever the day is one, and falls back to a coarser field
    only from a zero. *)
Theorem calendar_date_invalid_precision_by_presence (t : TemporalInfo) (y m d : Z) :
  year t = Some y -> month t = Some m -> day t = Some d ->
  fits_c_int y && fits_c_int m && fits_c_int d = true ->
  valid_date y m d = false ->
  calendar_date t = Returned None
  /\ precision t = (if negb (d =? 0)%Z then "day"
                    else if negb (m =? 0)%Z then "month"
                    else if negb (y =? 0)%Z then "year"
                    else "unknown").
Proof.
  intros Hy Hm Hd Hfit Hbad. unfold calendar_date, precision, date_new.
  rewrite Hy, Hm, Hd, Hfit, Hbad. simpl. split; [|done].
  by destruct (negb (y =? 0)%Z && negb (m =? 0)%Z && negb (d =? 0)%Z).
Qed.

Lemma calendar_date_invalid_precision_by_presence_witness :
  calendar_date month_13 = Returned None /\ precision month_13 = "day".
Proof.
  apply (calendar_date_invalid_precision_by_presence month_13 2000 13 5);
    reflexivity.
Defined.

(** C4 as stated fails: with month 13 the date is invalid and
    [calendar_date] is [None], yet [precision] reports the finest field,
    ["day"], and not the next coarser one. *)
Lemma precision_reports_day_for_month_13 :
  valid_date 2000 13 5 = false
  /\ calendar_date month_13 = Returned None
  /\ precision month_13 = "day"
  /\ precision month_13 <> "month" /\ precision month_13 <> "year".
Proof. repeat split; done. Qed.

End Temporal.

(** ** The ontology example *)
Section Ontology.
Import Cameo CameoParser.

(** C8.  The two [LABEL:] lines give the event types 01 and 010; the
    hierarchy maps 01 to the list holding 010 alone; and an event type
    with code 010 has root category 01, is a cooperation and is no
    conflict. *)
Theorem options_example :
  let event_types :=
    parse_event_types ["LABEL: 01= Make public statement";
                       "LABEL: 010= Make statement"] in
  event_types = [mkEventType "01" "Make public statement" 2 (Some "01");
                 mkEventType "010" "Make statement" 3 (Some "01")]
  /\ code <$> event_types = ["01"; "010"]
  /\ build_event_type_hierarchy event_types = [("01", ["010"])]
  /\ PyDict.get "01" (build_event_type_hierarchy event_types) = Some ["010"]
  /\ forall et, et ∈ event_types -> code et = "010" ->
       root_category et = "01" /\ is_cooperation et = true /\ is_conflict et = false.
Proof.
  vm_compute parse_event_types. cbv zeta.
  split; [reflexivity|]. split; [reflexivity|].
  split; [reflexivity|]. split; [reflexivity|].
  intros et Hin Hcode.
  apply elem_of_cons in Hin as [-> | Hin]; [by vm_compute in Hcode|].
  apply list_elem_of_singleton in Hin as ->. by vm_compute.
Qed.

End Ontology.


(** ** Schema validation *)
Section Validation.
Import SchemaValidator ValidatorRuns.

(** [run_checks] appends the findings of the checks in order, up to the
    first one that raises. *)
Lemma run_checks_all_return cs df errors :
  Forall (returns df) cs ->
  run_checks cs df errors
  = (match errors ++ mbind (findings_of df) cs with [] => true | _ => false end,
     errors ++ mbind (findings_of df) cs).
Proof.
  revert errors. induction cs as [|c cs IH]; intros errors Hall; simpl.
  - rewrite app_nil_r. by destruct errors.
  - inversion Hall as [|? ? [fs Hc] Hcs]; subst.
    unfold findings_of at 1 3. rewrite Hc, IH by done.
    by rewrite <- !app_assoc.
Qed.

Lemma run_checks_raise pre c post df errors e :
  Forall (returns df) pre -> c df = Raised e ->
  run_checks (pre ++ c :: post) df errors
  = (false, errors ++ mbind (findings_of df) pre ++ [ValidationException e]).
Proof.
  revert errors. induction pre as [|p pre IH]; intros errors Hall Hc; simpl.
  - by rewrite Hc.
  - inversion Hall as [|? ? [fs Hp] Hpre]; subst.
    unfold findings_of at 1. rewrite Hp, IH by done.
    by rewrite <- !app_assoc.
Qed.

(** The returned boolean says whether the returned list is empty. *)
Lemma run_checks_valid_iff cs df errors :
  (run_checks cs df errors).1 = true <-> (run_checks cs df errors).2 = [].
Proof.
  revert errors. induction cs as [|c cs IH]; intros errors; simpl.
  - by destruct errors.
  - destruct (c df) as [fs|e]; [apply IH|]. simpl. split; [done|].
    by intros [? ?]%app_eq_nil.
Qed.

Lemma validate_valid_iff src :
  (validate src).1 = true <-> (validate src).2 = [].
Proof. destruct src; [done | done | apply run_checks_valid_iff]. Qed.

Lemma check_range_findings field lo hi mk df :
  check_range field lo hi mk df = Returned []
  \/ (exists n, check_range field lo hi mk df = Returned [mk n])
  \/ (exists e, check_range field lo hi mk df = Raised e).
Proof.
  unfold check_range. destruct (column_of field df) as [c|]; [|by left].
  destruct (out_of_range lo hi c) as [n|e]; simpl; [|by eauto].
  destruct (0 <? n)%nat; eauto.
Qed.

(** Only the first check speaks of the field count. *)
Lemma later_checks_no_field_count df c :
  c ∈ tail checks -> Forall (fun f => is_field_count f = false) (findings_of df c).
Proof.
  unfold checks; simpl. rewrite !elem_of_cons, elem_of_nil.
  intros H. unfold findings_of.
  repeat (destruct H as [-> | H]); [..|done].
  - unfold check_required. case_match; by repeat constructor.
  - unfold check_duplicates. case_match; by repeat constructor.
  - unfold check_event_ids. repeat case_match; by repeat constructor.
  - unfold check_year.
    destruct (check_range_findings "year" MIN_YEAR MAX_YEAR InvalidYear df)
      as [-> | [[n ->] | [e ->]]]; by repeat constructor.
  - unfold check_month.
    destruct (check_range_findings "month" MIN_MONTH MAX_MONTH InvalidMonth df)
      as [-> | [[n ->] | [e ->]]]; by repeat constructor.
  - unfold check_day.
    destruct (check_range_findings "day" MIN_DAY MAX_DAY InvalidDay df)
      as [-> | [[n ->] | [e ->]]]; by repeat constructor.
  - unfold check_ev_type. repeat case_match; by repeat constructor.
  - unfold check_completeness. case_match; by repeat constructor.
  - unfold check_critical. apply Forall_bind, Forall_true. intros field.
    unfold critical_field, compose. repeat case_match; by repeat constructor.
Qed.

Lemma filter_none (l : list finding) :
  Forall (fun f => is_field_count f = false) l -> List.filter is_field_count l = [].
Proof. induction 1 as [|f l Hf _ IH]; simpl; [done | by rewrite Hf]. Qed.

Lemma filter_bind_later df cs :
  cs ⊆ tail checks -> List.filter is_field_count (mbind (findings_of df) cs) = [].
Proof.
  intros Hcs. apply filter_none, Forall_bind, Forall_forall.
  intros c Hc. by apply later_checks_no_field_count, Hcs.
Qed.

(** Either every check of a list returns, or one of them is the first
    to raise. *)
Lemma first_raise df (cs : list (DataFrame -> outcome (list finding))) :
  Forall (returns df) cs
  \/ exists pre c post e,
       cs = pre ++ c :: post /\ Forall (returns df) pre /\ c df = Raised e.
Proof.
  induction cs as [|c cs IH]; [by left|].
  destruct (c df) as [fs|e] eqn:Hc.
  - destruct IH as [IH | (pre & c' & post & e & -> & Hpre & Hc')].
    + left. constructor; [by exists fs | done].
    + right. exists (c :: pre), c', post, e. repeat split; [|done].
      constructor; [by exists fs | done].
  - right. by exists [], c, cs, e.
Qed.

Lemma validate_field_count_105 df :
  length (columns df) = 105%nat ->
  check_field_count df = Returned [FieldCount 106 105].
Proof.
  intros H. unfold check_field_count, names. by rewrite length_fmap, H.
Qed.

(** C5, as the code has it.  On a readable file whose header has 105
    columns, [validate] reports the field count exactly once, and the
    boolean it returns is true exactly when the list it returns is
    empty.  A failed check does not stop the others: as long as no check
    raises, the list is the field-count string followed by what each
    later check finds on the columns at hand.  A check that raises does
    stop them: the list then ends with one "Validation exception" string
    after the findings of the checks before it. *)
Theorem validate_105_columns (df : DataFrame) :
  length (columns df) = 105%nat ->
  ((validate (Readable df)).1 = true <-> (validate (Readable df)).2 = [])
  /\ length (List.filter is_field_count (validate (Readable df)).2) = 1%nat
  /\ (Forall (returns df) (tail checks) ->
      validate (Readable df)
      = (false, FieldCount 106 105 :: mbind (findings_of df) (tail checks)))
  /\ (forall pre c post e,
        tail checks = pre ++ c :: post ->
        Forall (returns df) pre -> c df = Raised e ->
        validate (Readable df)
        = (false, FieldCount 106 105 :: mbind (findings_of df) pre
                    ++ [ValidationException e])).
Proof.
  intros Hlen. pose proof (validate_field_count_105 df Hlen) as Hfc.
  assert (Hall : Forall (returns df) (tail checks) ->
                 validate (Readable df)
                 = (false, FieldCount 106 105 :: mbind (findings_of df) (tail checks))).
  { intros Hret.
    change (validate (Readable df))
      with (run_checks (check_field_count :: tail checks) df []).
    cbn [run_checks]. rewrite Hfc. by rewrite run_checks_all_return. }
  assert (Hraise : forall pre c post e,
             tail checks = pre ++ c :: post ->
             Forall (returns df) pre -> c df = Raised e ->
             validate (Readable df)
             = (false, FieldCount 106 105 :: mbind (findings_of df) pre
                         ++ [ValidationException e])).
  { intros pre c post e Hsplit Hpre Hc.
    change (validate (Readable df))
      with (run_checks (check_field_count :: tail checks) df []).
    cbn [run_checks]. rewrite Hfc, Hsplit.
    by rewrite (run_checks_raise pre c post df _ e). }
  split; [apply validate_valid_iff|]. split; [|by split].
  destruct (first_raise df (tail checks))
    as [Hret | (pre & c & post & e & Hsplit & Hpre & Hc)].
  - rewrite (Hall Hret). cbn [snd List.filter is_field_count length].
    by rewrite filter_bind_later.
  - rewrite (Hraise pre c post e Hsplit Hpre Hc).
    cbn [snd List.filter is_field_count length].
    rewrite List.filter_app, filter_bind_later; [done|].
    rewrite Hsplit. intros x Hx. apply elem_of_app. by left.
Qed.

Lemma validate_105_columns_witness :
  length (columns sample_105_numeric) = 105%nat
  /\ ((validate (Readable sample_105_numeric)).1 = true
      <-> (validate (Readable sample_105_numeric)).2 = [])
  /\ length (List.filter is_field_count (validate (Readable sample_105_numeric)).2) = 1%nat.
Proof.
  split; [reflexivity|].
  split; apply (validate_105_columns sample_105_numeric); reflexivity.
Defined.

(** C5 as stated fails: under a header of 105 columns, a year column
    that holds the sentinel [.] makes the year check raise, and the
    month and event-type checks, which both have a finding to report,
    never run. *)
Lemma validate_stops_at_raising_check :
  length (columns sample_105) = 105%nat
  /\ validate (Readable sample_105)
     = (false, [FieldCount 106 105; ValidationException TypeError])
  /\ check_month sample_105 = Returned [InvalidMonth 1]
  /\ check_ev_type sample_105 = Returned [InvalidEvType 1]
  /\ (InvalidMonth 1 ∉ snd (validate (Readable sample_105)))
  /\ (InvalidEvType 1 ∉ snd (validate (Readable sample_105))).
Proof.
  repeat split; try reflexivity.
  all: vm_compute validate; simpl; intros H.
  all: repeat (apply elem_of_cons in H as [H | H]; [discriminate|]).
  all: by apply elem_of_nil in H.
Qed.

End Validation.

(** ** The record parser *)
Section ParserFacts.
Import Events CsvParser ParserRuns.

Variable int_of_float : string -> outcome Z.
Variable float_of : string -> option pyfloat.

Local Abbreviation _parse_row := (_parse_row int_of_float float_of).
Local Abbreviation _extract_properties := (_extract_properties int_of_float).
Local Abbreviation process_row := (process_row int_of_float float_of).
Local Abbreviation advance := (advance int_of_float float_of).
Local Abbreviation step := (step int_of_float float_of).
Local Abbreviation run := (run int_of_float float_of).
Local Abbreviation parse := (parse int_of_float float_of).
Local Abbreviation row_counted := (row_counted int_of_float float_of).
Local Abbreviation raised_entries := (raised_entries int_of_float float_of).

Lemma set_property_event_id k v e : event_id (set_property k v e) = event_id e.
Proof. done. Qed.

Lemma extract_properties_event_id r e e' :
  _extract_properties r e = Returned e' -> event_id e' = event_id e.
Proof.
  unfold CsvParser._extract_properties.
  generalize numeric_fields as nf. generalize sparse_fields as sf.
  intros sf nf.
  set (e0 := foldl _ e sf).
  assert (He0 : event_id e0 = event_id e).
  { subst e0. revert e. induction sf as [|f sf IH]; intros e; simpl; [done|].
    rewrite IH. by destruct (_safe_get r f). }
  rewrite <- He0. clearbody e0. clear He0.
  assert (Hgen : forall acc,
             foldl (fun acc field =>
                      ev ← acc; value ← _safe_int int_of_float r field;
                      mret (match value with
                            | Some z => set_property field (PInt z) ev
                            | None => ev
                            end)) acc nf = Returned e' ->
             exists a, acc = Returned a /\ event_id e' = event_id a).
  { induction nf as [|f nf IH]; intros acc; simpl.
    - intros ->. eauto.
    - intros H. apply IH in H as (a & Ha & Hid).
      destruct acc as [b|]; [|done]. exists b. split; [done|].
      unfold mbind, outcome_bind, obind, mret, outcome_ret in Ha.
      destruct (_safe_int int_of_float r f) as [[z|]|]; simplify_eq; done. }
  intros H. apply Hgen in H as (a & Ha & Hid). by simplify_eq.
Qed.

(** What [_parse_row] returns, when it returns, is decided by the
    identifier it reads. *)
Lemma parse_row_returned r res :
  _parse_row r = Returned res ->
  match _safe_get r "eventid" with
  | Some event_id =>
      if PyStr.truthy event_id
      then exists event, res = Some event /\ Events.event_id event = event_id
      else res = None
  | None => res = None
  end.
Proof.
  unfold CsvParser._parse_row.
  destruct (_safe_get r "eventid") as [id|]; [|by intros [= <-]].
  destruct (PyStr.truthy id); simpl; [|by intros [= <-]].
  unfold mbind, outcome_bind, obind, mret, outcome_ret.
  intros H. repeat case_match; simplify_eq.
  all: eexists; split; [done|].
  all: match goal with
       | H : CsvParser._extract_properties _ _ _ = Returned _ |- _ =>
           by apply extract_properties_event_id in H as ->
       end.
Qed.

Lemma safe_get_missing r : missing_identifier r -> _safe_get r "eventid" = None.
Proof.
  unfold missing_identifier, _safe_get.
  destruct (r !! "eventid") as [[|s|t]|]; try done.
  by intros [-> | [-> | [-> | ->]]].
Qed.

Lemma safe_get_present r text :
  ~ missing_identifier r -> identifier_text r = Some text ->
  _safe_get r "eventid" = Some (PyStr.strip text).
Proof.
  unfold missing_identifier, identifier_text, _safe_get, sentinel.
  destruct (r !! "eventid") as [[|s|t]|]; try done; intros Hs [= ->]; [|done].
  rewrite bool_decide_false; [done|].
  unfold MISSING_VALUES. rewrite !elem_of_cons, elem_of_nil.
  intros H. apply Hs.
  destruct H as [H|[H|[H|[H|[H|[]]]]]]; simplify_eq; auto 6.
Qed.

(** C6, as the code has it.  A row whose identifier is missing (no
    column, a null, or one of the sentinels) yields no Event, leaves
    [parsed_count] alone and counts as skipped.  A row whose identifier
    is not missing and that parses without exception yields exactly one
    Event, which carries the identifier stripped of surrounding
    whitespace -- unless nothing is left after stripping, in which case
    the row is skipped like the first kind. *)
Theorem process_row_identifier (self : parser) (idx : nat) (r : row) :
  (missing_identifier r ->
   process_row self idx r
   = (mkParser (errors self) (parsed_count self) (S (skipped_count self)), None))
  /\ (forall text res,
        ~ missing_identifier r -> identifier_text r = Some text ->
        _parse_row r = Returned res ->
        if PyStr.truthy (PyStr.strip text)
        then exists event,
               res = Some event
               /\ event_id event = PyStr.strip text
               /\ process_row self idx r
                  = (mkParser (errors self) (S (parsed_count self)) (skipped_count self),
                     Some event)
        else res = None
             /\ process_row self idx r
                = (mkParser (errors self) (parsed_count self) (S (skipped_count self)),
                   None)).
Proof.
  split.
  - intros Hmiss. unfold CsvParser.process_row, CsvParser._parse_row.
    by rewrite safe_get_missing.
  - intros text res Hpresent Htext Hres.
    pose proof (parse_row_returned r res Hres) as Hid.
    rewrite (safe_get_present r text Hpresent Htext) in Hid.
    unfold CsvParser.process_row. rewrite Hres.
    destruct (PyStr.truthy (PyStr.strip text)).
    + destruct Hid as (event & -> & Hev). by exists event.
    + by subst res.
Qed.

(** *** The counters of [parse] *)

Lemma advance_inv g g' :
  advance g = Some g' ->
  exists idx r, pending g = (idx, r) :: pending g'
    /\ processed g' = S (processed g)
    /\ self g' = (process_row (self g) idx r).1
    /\ yielded g' = yielded g ++ option_list (process_row (self g) idx r).2.
Proof.
  unfold CsvParser.advance. destruct (pending g) as [|[idx r] rest]; [done|].
  destruct (process_row (self g) idx r) as [p ev] eqn:Hp.
  intros [= <-]. exists idx, r. by rewrite Hp.
Qed.

Lemma step_row_counted g g' :
  step g g' ->
  exists idx r, pending g = (idx, r) :: pending g'
    /\ processed g' = S (processed g)
    /\ row_counted idx r g g'.
Proof.
  intros [? ? (idx & r & Hp & Hn & Hself & Hy)%advance_inv].
  exists idx, r. split; [exact Hp|]. split; [exact Hn|].
  unfold ParserRuns.row_counted. rewrite Hself, Hy.
  unfold CsvParser.process_row.
  destruct (_parse_row r) as [[event|]|e]; simpl; rewrite ?app_nil_r; done.
Qed.

Lemma step_counts_agree g g' : step g g' -> counts_agree g -> counts_agree g'.
Proof.
  intros (idx & r & _ & Hp & Hup)%step_row_counted [Hy Hc].
  unfold counts_agree. rewrite Hp. unfold ParserRuns.row_counted in Hup.
  destruct (_parse_row r) as [[event|]|e];
    destruct Hup as (-> & -> & _ & ->); rewrite ?length_app; simpl; lia.
Qed.

Lemma step_pending g g' :
  step g g' ->
  (processed g' + length (pending g') = processed g + length (pending g))%nat.
Proof.
  intros [? ? (idx & r & -> & -> & _)%advance_inv]. simpl. lia.
Qed.

Lemma pending_start rows : length (pending (CsvParser.start rows)) = length rows.
Proof. unfold start. simpl. by rewrite length_imap. Qed.

(** The run to exhaustion goes through every state the generator can
    be in. *)
Lemma run_reaches g n : rtc step g (run n g).
Proof.
  revert g. induction n as [|n IH]; intros g; simpl; [done|].
  destruct (advance g) as [g'|] eqn:Hg; [|done].
  eapply rtc_l; [by constructor | apply IH].
Qed.

Lemma run_exhausts g n :
  length (pending g) <= n -> pending (run n g) = [].
Proof.
  revert g. induction n as [|n IH]; intros g Hn; simpl.
  - destruct (pending g); [done | simpl in Hn; lia].
  - destruct (advance g) as [g'|] eqn:Hg.
    + apply IH. apply advance_inv in Hg as (idx & r & Hp & _).
      rewrite Hp in Hn. simpl in Hn. lia.
    + unfold CsvParser.advance in Hg. destruct (pending g) as [|[idx r] rest]; [done|].
      by destruct (process_row (self g) idx r).
Qed.

Lemma run_from_reachable g g' :
  rtc step g g' -> run (length (pending g)) g = run (length (pending g')) g'.
Proof.
  induction 1 as [|g g1 g2 [? ? Hadv] _ IH]; [done|].
  rewrite <- IH. pose proof Hadv as (idx & r & Hp & _)%advance_inv.
  rewrite Hp. simpl. by rewrite Hadv.
Qed.

(** The rows still to read are the rest of the file, each under its
    index. *)
Lemma reachable_pending rows g :
  rtc step (CsvParser.start rows) g ->
  pending g = drop (processed g) (imap pair rows).
Proof.
  intros Hreach. pattern g. revert g Hreach. apply rtc_ind_r; [done|].
  intros g1 g2 _ (idx & r & Hp & Hn & _)%step_row_counted IH.
  rewrite Hn. rewrite IH in Hp.
  assert (Hl : imap pair rows !! processed g1 = Some (idx, r)).
  { rewrite <- (Nat.add_0_r (processed g1)), <- lookup_drop, Hp. done. }
  rewrite (drop_S _ _ _ Hl) in Hp. by injection Hp as <-.
Qed.

Lemma pending_head rows g idx r rest :
  rtc step (CsvParser.start rows) g ->
  pending g = (idx, r) :: rest ->
  idx = processed g /\ rows !! processed g = Some r.
Proof.
  intros Hreach Hp. rewrite (reachable_pending rows g Hreach) in Hp.
  assert (Hl : imap pair rows !! processed g = Some (idx, r)).
  { rewrite <- (Nat.add_0_r (processed g)), <- lookup_drop, Hp. done. }
  rewrite list_lookup_imap in Hl.
  destruct (rows !! processed g) as [r'|]; [|done].
  simpl in Hl. by injection Hl as <- <-.
Qed.

(** The log holds the entries of the rows read that raised, and
    nothing else. *)
Lemma reachable_log rows g :
  rtc step (CsvParser.start rows) g ->
  errors (self g) = raised_entries (take (processed g) rows).
Proof.
  intros Hreach. pattern g. revert g Hreach. apply rtc_ind_r; [done|].
  intros g1 g2 Hreach (idx & r & Hp & Hn & Hup)%step_row_counted IH.
  destruct (pending_head rows g1 idx r _ Hreach Hp) as (-> & Hr).
  rewrite Hn, (take_S_r _ _ r Hr).
  unfold ParserRuns.raised_entries. rewrite imap_app, bind_app. simpl.
  rewrite app_nil_r.
  fold (raised_entries (take (processed g1) rows)). rewrite <- IH.
  assert (Hlen : length (take (processed g1) rows) = processed g1).
  { apply lookup_lt_Some in Hr. rewrite list.length_take. lia. }
  rewrite Hlen, Nat.add_0_r.
  unfold ParserRuns.row_counted in Hup. unfold ParserRuns.raised_entry. simpl.
  destruct (_parse_row r) as [[event|]|e]; destruct Hup as (_ & _ & -> & _);
    by rewrite ?app_nil_r.
Qed.

(** C9.  In every state the generator [parse] can reach on the rows of
    a file, the Events yielded so far are as many as [parsed_count], and
    [parsed_count + skipped_count] is the number of rows read so far;
    the error log holds, in order, one entry for each row read on which
    [_parse_row] raised -- its index, identifier and exception -- and no
    other entry.  Reading one more row reads the row of the file at
    index [processed] and raises exactly one of the two counters by
    one: [parsed_count] when the row gives an Event, which is yielded,
    and [skipped_count] otherwise; the row is written to the error log
    exactly when it raised.  And the run goes on to the end of the
    rows. *)
Theorem parse_counts_invariant (rows : list row) (g : generator) :
  rtc step (CsvParser.start rows) g ->
  counts_agree g
  /\ (processed g + length (pending g))%nat = length rows
  /\ errors (self g) = raised_entries (take (processed g) rows)
  /\ (forall g', step g g' ->
        processed g' = S (processed g)
        /\ exists r, rows !! processed g = Some r
                     /\ row_counted (processed g) r g g')
  /\ rtc step g (parse rows)
  /\ pending (parse rows) = []
  /\ processed (parse rows) = length rows.
Proof.
  intros Hreach.
  assert (Hinv : counts_agree g
                 /\ (processed g + length (pending g))%nat = length rows).
  { revert g Hreach. apply rtc_ind_r.
    - split; [done|]. by rewrite pending_start.
    - intros g1 g2 _ Hstep [IH1 IH2].
      split; [by eapply step_counts_agree|]. by rewrite (step_pending g1 g2). }
  assert (Hend : parse rows = run (length (pending g)) g).
  { unfold CsvParser.parse. rewrite <- (pending_start rows).
    by apply run_from_reachable. }
  assert (Hdone : pending (parse rows) = []).
  { rewrite Hend. by apply run_exhausts. }
  destruct Hinv as [Hc Hp].
  split; [exact Hc|]. split; [exact Hp|].
  split; [by apply reachable_log|].
  split; [|split; [|split; [exact Hdone|]]].
  - intros g' (idx & r & Hpend & Hn & Hup)%step_row_counted.
    split; [exact Hn|].
    destruct (pending_head rows g idx r _ Hreach Hpend) as (-> & Hr).
    by exists r.
  - rewrite Hend. apply run_reaches.
  - assert (Hfin : rtc step (CsvParser.start rows) (parse rows)).
    { etrans; [exact Hreach|]. rewrite Hend. apply run_reaches. }
    revert Hdone Hfin. generalize (parse rows) as gend. intros gend Hdone Hfin.
    assert (Hsum : (processed gend + length (pending gend))%nat = length rows).
    { revert Hfin. clear Hdone. revert gend. apply rtc_ind_r.
      - by rewrite pending_start.
      - intros g1 g2 _ Hstep IH. by rewrite (step_pending g1 g2). }
    rewrite Hdone in Hsum. simpl in Hsum. lia.
Qed.

End ParserFacts.

Section ParserExamples.
Import Events CsvParser ParserRuns.

Local Abbreviation iof := decimal_int_of_float.
Local Abbreviation fof := decimal_float_of.

Lemma process_row_identifier_witness :
  process_row iof fof init 0 row_sentinel_id = (mkParser [] 0 1, None)
  /\ exists event,
       event_id event = "EID40124"
       /\ process_row iof fof init 0 row_padded_id = (mkParser [] 1 0, Some event).
Proof.
  split.
  - apply (process_row_identifier iof fof init 0 row_sentinel_id).
    vm_compute. auto.
  - assert (Hpresent : ~ missing_identifier row_padded_id).
    { vm_compute. intros [H | [H | [H | H]]]; discriminate H. }
    destruct (proj2 (process_row_identifier iof fof init 0 row_padded_id)
                " EID40124 " _ Hpresent eq_refl eq_refl)
      as (event & _ & Hid & Hrow).
    exists event. split; [exact Hid | exact Hrow].
Defined.

(** C6 as stated fails on an identifier that is not a sentinel but
    holds whitespace only: the row parses without exception and yields
    no Event.  And an identifier with whitespace around it is not
    carried as it stands. *)
Lemma blank_identifier_yields_no_event :
  ~ missing_identifier row_blank_id
  /\ _parse_row iof fof row_blank_id = Returned None
  /\ process_row iof fof init 0 row_blank_id = (mkParser [] 0 1, None)
  /\ identifier_text row_padded_id = Some " EID40124 "
  /\ (event_id <$> (process_row iof fof init 0 row_padded_id).2) = Some "EID40124".
Proof.
  split; [|by vm_compute].
  vm_compute. intros [H | [H | [H | H]]]; discriminate H.
Qed.

(** The third of the three rows raises [OverflowError]: it is counted
    as skipped and is the one entry of the log. *)
Lemma parse_counts_invariant_witness :
  counts_agree (run iof fof 3 (start three_rows))
  /\ _parse_row iof fof row_overflow = Raised OverflowError
  /\ errors (self (run iof fof 3 (start three_rows)))
     = [mkError 2 (Some "EID7") OverflowError]
  /\ row_counted iof fof 2 row_overflow
       (run iof fof 2 (start three_rows)) (run iof fof 3 (start three_rows))
  /\ processed (parse iof fof three_rows) = length three_rows.
Proof.
  destruct (parse_counts_invariant iof fof three_rows
              (run iof fof 3 (start three_rows))
              (run_reaches iof fof (start three_rows) 3))
    as (Hagree & _ & Hlog & _ & _ & _ & Hall).
  destruct (parse_counts_invariant iof fof three_rows
              (run iof fof 2 (start three_rows))
              (run_reaches iof fof (start three_rows) 2))
    as (_ & _ & _ & Hstep & _).
  destruct (Hstep (run iof fof 3 (start three_rows)))
    as (_ & r & Hr & Hup).
  { constructor. vm_compute. reflexivity. }
  change (three_rows !! 2%nat = Some r) in Hr. injection Hr as <-.
  split; [exact Hagree|]. split; [vm_compute; reflexivity|].
  split; [etransitivity; [exact Hlog | vm_compute; reflexivity]|].
  split; [exact Hup | exact Hall].
Defined.

End ParserExamples.

(** ** The graph store *)
Section StoreFacts.
Import Events Neo4jLoader Stores.

(** *** Properties of nodes and edges *)

Lemma lookup_set_props kvs (m : gmap string value) k :
  set_props kvs m !! k
  = match last_assign k kvs with
    | Some VNull => None
    | Some v => Some v
    | None => m !! k
    end.
Proof.
  unfold set_props. revert m.
  induction kvs as [|[k' v] kvs IH]; intros m; simpl; [done|].
  rewrite IH. destruct (last_assign k kvs) as [w|]; [done|].
  unfold set_prop; simpl. destruct (String.eqb_spec k' k) as [->|Hne].
  - destruct v; by rewrite ?lookup_delete_eq, ?lookup_insert_eq.
  - destruct v; by rewrite ?lookup_delete_ne, ?lookup_insert_ne.
Qed.

Lemma set_props_idem kvs (m : gmap string value) :
  set_props kvs (set_props kvs m) = set_props kvs m.
Proof.
  apply map_eq. intros k. rewrite !lookup_set_props.
  by destruct (last_assign k kvs) as [[]|].
Qed.

Lemma value_eqb_str x y : value_eqb (VStr x) (VStr y) = String.eqb x y.
Proof. done. Qed.

Lemma value_str_dec (v : value) (x : string) : {v = VStr x} + {v <> VStr x}.
Proof.
  destruct v as [| | | |y|]; try (right; discriminate).
  destruct (decide (y = x)) as [-> | Hne]; [by left | right; congruence].
Qed.

(** *** Matching nodes *)

Lemma find_from_app p i a b :
  find_from p i (a ++ b) = find_from p i a ++ find_from p (i + length a) b.
Proof.
  revert i. induction a as [|n a IH]; intros i; simpl.
  - by rewrite Nat.add_0_r.
  - rewrite IH, Nat.add_succ_r. by destruct (p n).
Qed.

Lemma find_nodes_snoc l k v s n :
  find_from (node_matches l k v) 0 (nodes s ++ [n])
  = find_nodes l k v s ++ (if node_matches l k v n then [length (nodes s)] else []).
Proof. rewrite find_from_app. simpl. by destruct (node_matches l k v n). Qed.

Lemma find_nodes_same_nodes l k v s s' :
  nodes s' = nodes s -> find_nodes l k v s' = find_nodes l k v s.
Proof. unfold find_nodes. by intros ->. Qed.

Lemma find_nodes_extends l k v s s' :
  extends s s' -> find_nodes l k v s `prefix_of` find_nodes l k v s'.
Proof.
  intros [[ns Hns] _]. unfold find_nodes. rewrite Hns, find_from_app.
  by eexists.
Qed.


#[local] Instance extends_refl : Reflexive extends.
Proof. intros s. by split. Qed.

#[local] Instance extends_trans : Transitive extends.
Proof.
  intros a b c [H1 H2] [H3 H4]. split; [by etrans | congruence].
Qed.

Lemma extends_same_nodes s s' :
  nodes s' = nodes s -> constraints s' = constraints s -> extends s s'.
Proof. intros Hn Hc. split; [by rewrite Hn | done]. Qed.

(** *** [MERGE] of a node *)

Lemma new_node_matches l k x oc :
  last_assign k oc = None ->
  node_matches l k (VStr x) (mkNode l (set_props ((k, VStr x) :: oc) ∅)) = true.
Proof.
  intros Hoc. unfold node_matches, has_prop. cbn [nlabel nprops].
  rewrite String.eqb_refl, lookup_set_props. cbn [last_assign].
  rewrite Hoc, String.eqb_refl. cbn. apply String.eqb_refl.
Qed.

Lemma merge_node_spec l k x oc s :
  last_assign k oc = None ->
  let '(s1, found) := merge_node l k (VStr x) oc s in
  found = find_nodes l k (VStr x) s1 /\ found <> []
  /\ edges s1 = edges s /\ constraints s1 = constraints s
  /\ ((find_nodes l k (VStr x) s <> [] /\ s1 = s)
      \/ (find_nodes l k (VStr x) s = []
          /\ nodes s1 = nodes s ++ [mkNode l (set_props ((k, VStr x) :: oc) ∅)])).
Proof.
  intros Hoc. unfold merge_node.
  destruct (find_nodes l k (VStr x) s) as [|i r] eqn:Hfind.
  - repeat split; try done.
    + unfold find_nodes at 1. cbn [nodes].
      rewrite find_nodes_snoc, Hfind.
      by rewrite (new_node_matches l k x oc Hoc).
    + by right.
  - repeat split; try done. by left.
Qed.

Lemma merge_node_extends l k v oc s : extends s (merge_node l k v oc s).1.
Proof.
  unfold merge_node. destruct (find_nodes l k v s); simpl; [|done].
  split; [by eexists | done].
Qed.

(** *** [MERGE] of an edge *)

Lemma merge_edge_nodes src ty dst kvs s :
  nodes (merge_edge src ty dst kvs s) = nodes s
  /\ constraints (merge_edge src ty dst kvs s) = constraints s.
Proof. unfold merge_edge. by destruct (existsb _ _). Qed.

Lemma merge_edges_nodes ty kvs rows s :
  nodes (merge_edges ty kvs rows s) = nodes s
  /\ constraints (merge_edges ty kvs rows s) = constraints s.
Proof.
  unfold merge_edges. revert s. induction rows as [|r rows IH]; intros s; simpl; [done|].
  destruct (IH (merge_edge r.1 ty r.2 kvs s)) as [-> ->].
  apply merge_edge_nodes.
Qed.

Lemma edge_matches_set_props src ty dst kvs e :
  edge_matches src ty dst (mkEdge (esrc e) (etype e) (edst e) (set_props kvs (eprops e)))
  = edge_matches src ty dst e.
Proof. done. Qed.

(** After the [MERGE], the edge is there with its attributes set. *)
Lemma merge_edge_settles src ty dst kvs s :
  edge_settled src ty dst kvs (merge_edge src ty dst kvs s).
Proof.
  unfold merge_edge, edge_settled.
  destruct (existsb (edge_matches src ty dst) (edges s)) eqn:Hex; simpl.
  - split.
    + apply existsb_exists in Hex as (e & He & Hm).
      apply existsb_exists. eexists. split.
      * apply in_map, He.
      * simpl. by rewrite Hm.
    + intros e (e0 & -> & He0)%list_elem_of_fmap Hm.
      destruct (edge_matches src ty dst e0) eqn:Hm0; simpl.
      * apply set_props_idem.
      * congruence.
  - split.
    + rewrite existsb_app. simpl. unfold edge_matches at 2. simpl.
      by rewrite !Nat.eqb_refl, String.eqb_refl, orb_true_r.
    + intros e [He | ->%list_elem_of_singleton]%elem_of_app Hm.
      * assert (existsb (edge_matches src ty dst) (edges s) = true); [|congruence].
        apply existsb_exists. exists e. split; [by apply list_elem_of_In | done].
      * apply set_props_idem.
Qed.

Lemma edge_matches_eq src ty dst src' ty' dst' e :
  edge_matches src ty dst e = true -> edge_matches src' ty' dst' e = true ->
  src = src' /\ ty = ty' /\ dst = dst'.
Proof.
  unfold edge_matches.
  intros [[H1 H2]%andb_prop H3]%andb_prop [[H4 H5]%andb_prop H6]%andb_prop.
  apply Nat.eqb_eq in H1, H3, H4, H6. apply String.eqb_eq in H2, H5.
  repeat split; congruence.
Qed.

(** A [MERGE] between other nodes, of another type, or setting the same
    attributes, leaves a settled edge settled. *)
Lemma merge_edge_preserves src ty dst kvs src' ty' dst' kvs' s :
  (src, ty, dst) <> (src', ty', dst') \/ kvs' = kvs ->
  edge_settled src ty dst kvs s ->
  edge_settled src ty dst kvs (merge_edge src' ty' dst' kvs' s).
Proof.
  intros Hdiff [Hex Hset]. unfold merge_edge, edge_settled.
  destruct (existsb (edge_matches src' ty' dst') (edges s)) eqn:Hex'; simpl.
  - split.
    + apply existsb_exists in Hex as (e & He & Hm).
      apply existsb_exists. eexists. split; [apply in_map, He|].
      simpl. destruct (edge_matches src' ty' dst' e); [|done].
      by rewrite edge_matches_set_props.
    + intros e (e0 & -> & He0)%list_elem_of_fmap Hm.
      destruct (edge_matches src' ty' dst' e0) eqn:Hm0; simpl.
      * rewrite edge_matches_set_props in Hm.
        destruct Hdiff as [Hne | ->].
        -- destruct (edge_matches_eq _ _ _ _ _ _ _ Hm Hm0) as (-> & -> & ->). done.
        -- apply set_props_idem.
      * by apply Hset.
  - split.
    + rewrite existsb_app, Hex. done.
    + intros e [He | ->%list_elem_of_singleton]%elem_of_app Hm; [by apply Hset|].
      simpl. destruct Hdiff as [Hne | ->]; [|apply set_props_idem].
      exfalso. apply Hne. unfold edge_matches in Hm. simpl in Hm.
      apply andb_prop in Hm as [[H1 H2]%andb_prop H3].
      apply Nat.eqb_eq in H1, H3. apply String.eqb_eq in H2. congruence.
Qed.

(** A [MERGE] of a settled edge changes nothing. *)
Lemma merge_edge_settled_id src ty dst kvs s :
  edge_settled src ty dst kvs s -> merge_edge src ty dst kvs s = s.
Proof.
  intros [Hex Hset]. unfold merge_edge. rewrite Hex.
  destruct s as [ns es cs]. simpl in *. f_equal.
  rewrite <- (list_fmap_id es) at 2. apply list_fmap_ext.
  intros i e He. simpl.
  destruct (edge_matches src ty dst e) eqn:Hm; [|done].
  rewrite Hset; [by destruct e | by eapply list_elem_of_lookup_2 | done].
Qed.

(** *** A [MERGE] of an edge per row *)

Lemma merge_edges_preserves src ty0 dst kvs0 ty kvs rows s :
  ty0 <> ty \/ kvs0 = kvs ->
  edge_settled src ty0 dst kvs0 s ->
  edge_settled src ty0 dst kvs0 (merge_edges ty kvs rows s).
Proof.
  intros Hdiff. unfold merge_edges. revert s.
  induction rows as [|r rows IH]; intros s Hs; simpl; [done|].
  apply IH, merge_edge_preserves; [|done].
  destruct Hdiff as [Hne | ->]; [left; congruence | by right].
Qed.

Lemma merge_edges_settles ty kvs rows s r :
  r ∈ rows -> edge_settled r.1 ty r.2 kvs (merge_edges ty kvs rows s).
Proof.
  revert s. induction rows as [|r0 rows IH]; intros s Hr; [by apply elem_of_nil in Hr|].
  apply elem_of_cons in Hr as [-> | Hr]; [|by apply IH].
  change (merge_edges ty kvs (r0 :: rows) s)
    with (merge_edges ty kvs rows (merge_edge r0.1 ty r0.2 kvs s)).
  apply merge_edges_preserves; [by right | apply merge_edge_settles].
Qed.

Lemma merge_edges_settled_id ty kvs rows s :
  (forall r, r ∈ rows -> edge_settled r.1 ty r.2 kvs s) ->
  merge_edges ty kvs rows s = s.
Proof.
  unfold merge_edges. induction rows as [|r rows IH]; intros Hall; simpl; [done|].
  rewrite merge_edge_settled_id by (apply Hall; by left).
  apply IH. intros r' Hr'. apply Hall. by right.
Qed.

Lemma merge_edges_extends ty kvs rows s : extends s (merge_edges ty kvs rows s).
Proof.
  destruct (merge_edges_nodes ty kvs rows s) as [Hn Hc].
  by apply extends_same_nodes.
Qed.

Lemma elem_of_rows_to event_id targets s e a :
  (e, a) ∈ rows_to event_id targets s
  <-> a ∈ targets /\ e ∈ find_nodes "Event" "eventId" (VStr event_id) s.
Proof.
  unfold rows_to. rewrite list_elem_of_bind. split.
  - intros (a' & (e' & [= -> ->]%list_elem_of_singleton & He)%list_elem_of_bind & Ha).
    done.
  - intros [Ha He]. exists a. split; [|done].
    apply list_elem_of_bind. exists e. split; [by apply list_elem_of_singleton | done].
Qed.

(** *** Upsert a node and link the Event to it *)

Section Upsert.
Variables (ty event_id l k x : string) (oc kvs : list (string * value)).
Hypothesis key_not_overwritten : last_assign k oc = None.

Local Abbreviation U := (upsert_link ty event_id l k x oc kvs).

Lemma upsert_link_extends s : extends s (U s).
Proof.
  unfold upsert_link. pose proof (merge_node_extends l k (VStr x) oc s) as Hext.
  destruct (merge_node l k (VStr x) oc s) as [s1 targets]. simpl in Hext.
  etrans; [exact Hext | apply merge_edges_extends].
Qed.

Lemma upsert_link_links s : linked_to ty event_id l k (VStr x) kvs (U s).
Proof.
  unfold upsert_link, linked_to.
  pose proof (merge_node_spec l k x oc s key_not_overwritten) as Hspec.
  destruct (merge_node l k (VStr x) oc s) as [s1 targets].
  destruct Hspec as (-> & Hne & _).
  destruct (merge_edges_nodes ty kvs
              (rows_to event_id (find_nodes l k (VStr x) s1) s1) s1) as [Hn _].
  rewrite !(find_nodes_same_nodes _ _ _ _ _ Hn). split; [done|].
  intros e n He Hn'.
  apply (merge_edges_settles ty kvs _ s1 (e, n)).
  by apply elem_of_rows_to.
Qed.

Lemma upsert_link_linked_id s :
  linked_to ty event_id l k (VStr x) kvs s -> U s = s.
Proof.
  intros [Hne Hall]. unfold upsert_link.
  pose proof (merge_node_spec l k x oc s key_not_overwritten) as Hspec.
  destruct (merge_node l k (VStr x) oc s) as [s1 targets].
  destruct Hspec as (-> & _ & _ & _ & [[_ ->] | [Hnil _]]); [|done].
  apply merge_edges_settled_id. intros [e n] [Hn He]%elem_of_rows_to.
  by apply Hall.
Qed.

(** The node an upsert may add is bound by no other pattern. *)
Lemma upsert_link_find l0 k0 v0 s :
  l0 <> l \/ (l0 = l /\ k0 = k /\ (v0 <> VStr x \/ find_nodes l k (VStr x) s <> [])) ->
  find_nodes l0 k0 v0 (U s) = find_nodes l0 k0 v0 s.
Proof.
  intros Hq. unfold upsert_link.
  pose proof (merge_node_spec l k x oc s key_not_overwritten) as Hspec.
  destruct (merge_node l k (VStr x) oc s) as [s1 targets].
  destruct Hspec as (_ & _ & _ & _ & Hcase).
  destruct (merge_edges_nodes ty kvs (rows_to event_id targets s1) s1) as [Hn _].
  rewrite (find_nodes_same_nodes _ _ _ _ _ Hn).
  destruct Hcase as [[_ ->] | [Hnil Hnodes]]; [done|].
  unfold find_nodes at 1. rewrite Hnodes, find_nodes_snoc.
  assert (Hno : node_matches l0 k0 v0
                  (mkNode l (set_props ((k, VStr x) :: oc) ∅)) = false);
    [|by rewrite Hno, app_nil_r].
  unfold node_matches, has_prop. cbn [nlabel nprops].
  destruct Hq as [Hl | (-> & -> & [Hv | Hfound])]; [| |done].
  - apply andb_false_intro1. apply String.eqb_neq. congruence.
  - apply andb_false_intro2. rewrite lookup_set_props. cbn [last_assign].
    rewrite key_not_overwritten, String.eqb_refl.
    destruct v0; try done. cbn. apply String.eqb_neq. congruence.
Qed.


Lemma upsert_link_found_nodes s :
  find_nodes l k (VStr x) s <> [] -> nodes (U s) = nodes s.
Proof.
  intros Hne. unfold upsert_link.
  pose proof (merge_node_spec l k x oc s key_not_overwritten) as Hspec.
  destruct (merge_node l k (VStr x) oc s) as [s1 targets].
  destruct Hspec as (_ & _ & _ & _ & [[_ ->] | [Hnil _]]); [|done].
  apply merge_edges_nodes.
Qed.

Lemma upsert_link_new_node s :
  find_nodes l k (VStr x) s = [] ->
  nodes (U s) = nodes s ++ [mkNode l (set_props ((k, VStr x) :: oc) ∅)]
  /\ find_nodes l k (VStr x) (U s) = [length (nodes s)].
Proof.
  intros Hnil. unfold upsert_link.
  pose proof (merge_node_spec l k x oc s key_not_overwritten) as Hspec.
  destruct (merge_node l k (VStr x) oc s) as [s1 targets].
  destruct Hspec as (_ & _ & _ & _ & [[Hne _] | [_ Hnodes]]); [done|].
  destruct (merge_edges_nodes ty kvs (rows_to event_id targets s1) s1) as [Hn _].
  rewrite (find_nodes_same_nodes _ _ _ _ _ Hn), Hn. split; [done|].
  unfold find_nodes at 1. rewrite Hnodes, find_nodes_snoc, Hnil.
  by rewrite (new_node_matches l k x oc key_not_overwritten).
Qed.

Lemma upsert_link_edges_settled src ty0 dst kvs0 s :
  ty0 <> ty \/ kvs0 = kvs ->
  edge_settled src ty0 dst kvs0 s -> edge_settled src ty0 dst kvs0 (U s).
Proof.
  intros Hdiff Hs. unfold upsert_link.
  pose proof (merge_node_spec l k x oc s key_not_overwritten) as Hspec.
  destruct (merge_node l k (VStr x) oc s) as [s1 targets].
  destruct Hspec as (_ & _ & Hedges & _).
  apply merge_edges_preserves; [done|].
  unfold edge_settled in *. by rewrite Hedges.
Qed.

(** An upsert for another edge type, or one that sets the same
    attributes, leaves what was linked linked. *)
Lemma upsert_link_preserves ty0 eid0 l0 k0 v0 kvs0 s :
  ty0 <> ty \/ kvs0 = kvs -> l <> "Event" ->
  l0 <> l \/ (l0 = l /\ k0 = k) ->
  linked_to ty0 eid0 l0 k0 v0 kvs0 s -> linked_to ty0 eid0 l0 k0 v0 kvs0 (U s).
Proof.
  intros Hdiff Hl Hq [Hne Hall]. unfold linked_to.
  assert (Hfind : find_nodes l0 k0 v0 (U s) = find_nodes l0 k0 v0 s).
  { apply upsert_link_find. destruct Hq as [? | [-> ->]]; [by left | right].
    repeat split. destruct (value_str_dec v0 x) as [-> | Hv]; auto. }
  assert (Hev : find_nodes "Event" "eventId" (VStr eid0) (U s)
                = find_nodes "Event" "eventId" (VStr eid0) s).
  { apply upsert_link_find. left. congruence. }
  rewrite Hfind, Hev. split; [done|].
  intros e n He Hn. by apply upsert_link_edges_settled, Hall.
Qed.

End Upsert.

(** *** The actor blocks of Pass 1 *)

Lemma role_block_upsert rel rprops actor eid s :
  role_block rel rprops actor eid s
  = match actor, role_name actor with
    | Some a, Some n =>
        upsert_link rel eid "Actor" "actorId" (Actors.generate_actor_id n)
          (actor_on_create a n) (rprops a) s
    | _, _ => s
    end.
Proof.
  unfold role_block, role_name. destruct actor as [a|]; [|done].
  destruct (primary_name a) as [n|]; [|done]. by destruct (PyStr.truthy n).
Qed.

Lemma role_block_extends rel rprops actor eid s :
  extends s (role_block rel rprops actor eid s).
Proof.
  rewrite role_block_upsert. destruct actor as [a|]; [|done].
  destruct (role_name (Some a)) as [n|]; [|done]. apply upsert_link_extends.
Qed.

Lemma role_block_links rel rprops actor eid s :
  role_linked rel rprops actor eid (role_block rel rprops actor eid s).
Proof.
  rewrite role_block_upsert. unfold role_linked. destruct actor as [a|]; [|done].
  destruct (role_name (Some a)) as [n|]; [|done]. by apply upsert_link_links.
Qed.

Lemma role_block_linked_id rel rprops actor eid s :
  role_linked rel rprops actor eid s -> role_block rel rprops actor eid s = s.
Proof.
  rewrite role_block_upsert. unfold role_linked. destruct actor as [a|]; [|done].
  destruct (role_name (Some a)) as [n|]; [|done]. by apply upsert_link_linked_id.
Qed.

Lemma role_block_preserves rel0 rprops0 actor0 eid0 rel rprops actor eid s :
  rel0 <> rel ->
  role_linked rel0 rprops0 actor0 eid0 s ->
  role_linked rel0 rprops0 actor0 eid0 (role_block rel rprops actor eid s).
Proof.
  intros Hrel. rewrite role_block_upsert. unfold role_linked.
  destruct actor0 as [a0|]; [|done]. destruct (role_name (Some a0)) as [n0|]; [|done].
  destruct actor as [a|]; [|done]. destruct (role_name (Some a)) as [n|]; [|done].
  apply upsert_link_preserves; [done | by left | done | by right].
Qed.

(** What the actor step leaves behind, role by role. *)
Lemma actor_relationships_roles (s : store) (event : Event) :
  let s' := _create_actor_relationships s event in
  role_linked "INITIATED_BY" initiator_props (initiator event) (event_id event) s'
  /\ role_linked "TARGETED" target_props (target event) (event_id event) s'
  /\ role_linked "VICTIMIZED" target_props (victim event) (event_id event) s'.
Proof.
  unfold _create_actor_relationships. cbn zeta. split; [|split].
  - do 2 (apply role_block_preserves; [done|]). apply role_block_links.
  - apply role_block_preserves; [done|]. apply role_block_links.
  - apply role_block_links.
Qed.

Lemma actor_relationships_extends s event :
  extends s (_create_actor_relationships s event).
Proof.
  unfold _create_actor_relationships.
  etrans; [apply role_block_extends|]. etrans; apply role_block_extends.
Qed.

(** C3, as the code has it.  For each role that is present with a
    non-empty primary name, [_create_actor_relationships] upserts the
    Actor node by its hashed id -- every node of the store before is
    still there, unchanged -- and merges the role edge from the Event to
    it, so that afterwards the edge exists with its attributes set; and
    running the step again on the result changes nothing: no edge is
    doubled. *)
Theorem actor_relationships_merge (s : store) (event : Event) :
  let s' := _create_actor_relationships s event in
  nodes s `prefix_of` nodes s'
  /\ role_linked "INITIATED_BY" initiator_props (initiator event) (event_id event) s'
  /\ role_linked "TARGETED" target_props (target event) (event_id event) s'
  /\ role_linked "VICTIMIZED" target_props (victim event) (event_id event) s'
  /\ _create_actor_relationships s' event = s'.
Proof.
  destruct (actor_relationships_roles s event) as (H1 & H2 & H3).
  pose proof (actor_relationships_extends s event) as [Hext _].
  cbn zeta. set (s' := _create_actor_relationships s event) in *.
  split; [exact Hext|]. do 3 (split; [done|]).
  unfold _create_actor_relationships at 1.
  rewrite (role_block_linked_id "INITIATED_BY" _ _ _ s' H1).
  rewrite (role_block_linked_id "TARGETED" _ _ _ s' H2).
  exact (role_block_linked_id "VICTIMIZED" _ _ _ s' H3).
Qed.

(** *** The location statement of Pass 1 *)

Lemma location_upsert s event :
  _create_location_relationship s event
  = match location_key event with
    | Some (l, n) =>
        upsert_link "OCCURRED_AT" (event_id event) "Location" "locationId"
          (_generate_location_id n (latitude l) (longitude l))
          (location_props l) [] s
    | None => s
    end.
Proof.
  unfold _create_location_relationship, location_key.
  destruct (location event) as [l|]; [|done].
  destruct (or_str (name l) (country l)) as [n|]; [|done].
  by destruct (PyStr.truthy n).
Qed.


(** C10.  The key of a Location is case-insensitive: two names that
    differ only in letter case, with equal coordinates, receive the same
    identifier, which is [LOC_] followed by twelve upper-case
    hexadecimal characters.  Loading the location of one Event and then
    that of another with such a variant creates no second node: both
    Events end up linked to the Location node(s) of that identifier, and
    a node created for the first Event keeps the attribute values of
    the first. *)
Theorem location_key_case_insensitive
    (s : store) (ev1 ev2 : Event) (l1 l2 : Location) (n1 n2 : string) :
  location_key ev1 = Some (l1, n1) ->
  location_key ev2 = Some (l2, n2) ->
  Variants.case_variant n1 n2 ->
  latitude l1 = latitude l2 -> longitude l1 = longitude l2 ->
  let lid := _generate_location_id n1 (latitude l1) (longitude l1) in
  let s1 := _create_location_relationship s ev1 in
  let s2 := _create_location_relationship s1 ev2 in
  _generate_location_id n2 (latitude l2) (longitude l2) = lid
  /\ (exists h, lid = "LOC_" +:+ h /\ Variants.hex12 h)
  /\ nodes s2 = nodes s1
  /\ linked_to "OCCURRED_AT" (event_id ev1) "Location" "locationId" (VStr lid) [] s2
  /\ linked_to "OCCURRED_AT" (event_id ev2) "Location" "locationId" (VStr lid) [] s2
  /\ (find_nodes "Location" "locationId" (VStr lid) s = [] ->
      find_nodes "Location" "locationId" (VStr lid) s2 = [length (nodes s)]
      /\ nodes s2 !! length (nodes s)
         = Some (mkNode "Location"
                   (set_props (("locationId", VStr lid) :: location_props l1) ∅))).
Proof.
  intros Hk1 Hk2 Hcase Hlat Hlon lid s1 s2.
  assert (Hid : _generate_location_id n2 (latitude l2) (longitude l2) = lid).
  { subst lid. rewrite <- Hlat, <- Hlon. symmetry.
    by apply location_id_case_insensitive. }
  assert (Hs1 : s1 = upsert_link "OCCURRED_AT" (event_id ev1) "Location" "locationId"
                       lid (location_props l1) [] s).
  { subst s1. by rewrite location_upsert, Hk1. }
  assert (Hs2 : s2 = upsert_link "OCCURRED_AT" (event_id ev2) "Location" "locationId"
                       lid (location_props l2) [] s1).
  { subst s2. by rewrite location_upsert, Hk2, Hid. }
  assert (Hl1 : linked_to "OCCURRED_AT" (event_id ev1) "Location" "locationId"
                  (VStr lid) [] s1).
  { rewrite Hs1. by apply upsert_link_links. }
  assert (Hnodes : nodes s2 = nodes s1).
  { rewrite Hs2. apply upsert_link_found_nodes; [done | apply Hl1]. }
  split; [exact Hid|]. split; [apply location_id_format|]. split; [exact Hnodes|].
  split; [|split].
  - rewrite Hs2. apply upsert_link_preserves; [done | by right | done | by right | done].
  - rewrite Hs2. by apply upsert_link_links.
  - intros Hnil.
    destruct (upsert_link_new_node "OCCURRED_AT" (event_id ev1) "Location" "locationId"
                lid (location_props l1) [] eq_refl s Hnil) as [Hn Hf].
    rewrite <- Hs1 in Hn, Hf.
    rewrite (find_nodes_same_nodes _ _ _ _ _ Hnodes), Hnodes, Hn. split; [done|].
    by rewrite list_lookup_middle.
Qed.

(** *** [CREATE] of the Event node *)





Lemma create_node_returned l kvs s s' :
  create_node l kvs s = Returned s' ->
  violated l (set_props kvs ∅) s = None
  /\ s' = mkStore (nodes s ++ [mkNode l (set_props kvs ∅)]) (edges s) (constraints s).
Proof.
  unfold create_node. destruct (violated l (set_props kvs ∅) s); [done|].
  by intros [= <-].
Qed.


(** The attributes of an Event node: its identifier under [eventId],
    and nothing under [properties]. *)
Lemma event_node_attributes event :
  exists kvs,
    (forall s, _create_event_node s event = create_node "Event" kvs s)
    /\ last_assign "eventId" kvs = Some (VStr (event_id event))
    /\ last_assign "properties" kvs = None.
Proof. eexists. split; [intros s; reflexivity|]. split; reflexivity. Qed.






(** What a successful [load_event] goes through. *)
Lemma load_event_returned s event s' :
  load_event s event = Returned s' ->
  exists kvs sc,
    last_assign "eventId" kvs = Some (VStr (event_id event))
    /\ last_assign "properties" kvs = None
    /\ violated "Event" (set_props kvs ∅) s = None
    /\ sc = mkStore (nodes s ++ [mkNode "Event" (set_props kvs ∅)])
              (edges s) (constraints s)
    /\ s' = _link_event_type
              (_create_location_relationship
                 (_create_actor_relationships sc event) event) event.
Proof.
  destruct (event_node_attributes event) as (kvs & Hcreate & Hid & Hprops).
  unfold load_event. rewrite Hcreate.
  destruct (create_node "Event" kvs s) as [sc|] eqn:Hc; [|done].
  apply create_node_returned in Hc as [Hviol ->]. intros [= <-].
  by exists kvs, (mkStore (nodes s ++ [mkNode "Event" (set_props kvs ∅)])
                   (edges s) (constraints s)).
Qed.





(** *** Uniqueness through Pass 1 *)

Lemma value_eqb_str_eq x v : value_eqb (VStr x) v = true -> v = VStr x.
Proof. destruct v; try done. simpl. by intros ->%String.eqb_eq. Qed.


Lemma same_nodes_unique l0 k0 s s' :
  nodes s' = nodes s -> unique_key l0 k0 s -> unique_key l0 k0 s'.
Proof. intros Hn Hu v. rewrite (find_nodes_same_nodes _ _ _ _ _ Hn). apply Hu. Qed.









(** *** Batches *)

Lemma batch_snoc self events event :
  _load_event_batch self (events ++ [event])
  = let self' := _load_event_batch self events in
    match load_event (db self') event with
    | Returned s => mkLoader s (failed self')
    | Raised e => mkLoader (db self') (failed self' ++ [(event_id event, e)])
    end.
Proof. unfold _load_event_batch. by rewrite foldl_app. Qed.

Lemma batch_cons self events event :
  _load_event_batch self (event :: events)
  = _load_event_batch
      (match load_event (db self) event with
       | Returned s => mkLoader s (failed self)
       | Raised e => mkLoader (db self) (failed self ++ [(event_id event, e)])
       end) events.
Proof. done. Qed.













(** *** Pass 2 *)

Lemma links_merge_edge src ty dst kvs s :
  ty <> "LINKED_TO" -> links (merge_edge src ty dst kvs s) = links s.
Proof.
  intros Hty. unfold links, merge_edge.
  destruct (existsb (edge_matches src ty dst) (edges s)); cbn [edges].
  - induction (edges s) as [|e es IH]; [done|]. cbn.
    rewrite IH. destruct (edge_matches src ty dst e) eqn:Hm; [|done]. cbn.
    assert (Hne : String.eqb (etype e) "LINKED_TO" = false); [|by rewrite Hne].
    unfold edge_matches in Hm.
    apply andb_prop in Hm as [[_ Ht%String.eqb_eq]%andb_prop _].
    apply String.eqb_neq. congruence.
  - rewrite List.filter_app. cbn.
    assert (Hne : String.eqb ty "LINKED_TO" = false) by by apply String.eqb_neq.
    by rewrite Hne, app_nil_r.
Qed.

Lemma links_merge_edges ty kvs rows s :
  ty <> "LINKED_TO" -> links (merge_edges ty kvs rows s) = links s.
Proof.
  intros Hty. unfold merge_edges. revert s.
  induction rows as [|r rows IH]; intros s; simpl; [done|].
  by rewrite IH, links_merge_edge.
Qed.

Lemma links_same_edges s s' : edges s' = edges s -> links s' = links s.
Proof. unfold links. by intros ->. Qed.

Lemma links_upsert ty event_id l k x oc kvs s :
  last_assign k oc = None -> ty <> "LINKED_TO" ->
  links (upsert_link ty event_id l k x oc kvs s) = links s.
Proof.
  intros Hoc Hty. unfold upsert_link.
  pose proof (merge_node_spec l k x oc s Hoc) as Hspec.
  destruct (merge_node l k (VStr x) oc s) as [s1 targets].
  destruct Hspec as (_ & _ & Hedges & _).
  by rewrite links_merge_edges, (links_same_edges s s1).
Qed.

Lemma no_properties_snoc s n es cs :
  no_properties s -> (nlabel n = "Event" -> nprops n !! "properties" = None) ->
  no_properties (mkStore (nodes s ++ [n]) es cs).
Proof.
  intros Hs Hn n' [Hin | ->%list_elem_of_singleton]%elem_of_app; [by apply Hs | done].
Qed.

Lemma no_properties_same_nodes s s' :
  nodes s' = nodes s -> no_properties s -> no_properties s'.
Proof. unfold no_properties. by intros ->. Qed.

Lemma no_properties_upsert ty event_id l k x oc kvs s :
  last_assign k oc = None -> l <> "Event" ->
  no_properties s -> no_properties (upsert_link ty event_id l k x oc kvs s).
Proof.
  intros Hoc Hl Hs.
  destruct (decide (find_nodes l k (VStr x) s = [])) as [Hnil | Hne].
  - destruct (upsert_link_new_node ty event_id l k x oc kvs Hoc s Hnil) as [Hn _].
    intros n. rewrite Hn.
    intros [Hin | ->%list_elem_of_singleton]%elem_of_app; [by apply Hs | done].
  - apply (no_properties_same_nodes s); [|done].
    by apply upsert_link_found_nodes.
Qed.

(** Pass 1 writes no [LINKED_TO] edge and no [properties] attribute. *)
Lemma load_event_no_link s event s' :
  load_event s event = Returned s' ->
  links s' = links s /\ (no_properties s -> no_properties s').
Proof.
  intros (kvs & sc & _ & Hprops & _ & Hsc & Hs')%load_event_returned.
  assert (Hroles : forall rel rprops actor s0,
             rel <> "LINKED_TO" ->
             links (role_block rel rprops actor (event_id event) s0) = links s0
             /\ (no_properties s0 ->
                 no_properties (role_block rel rprops actor (event_id event) s0))).
  { intros rel rprops actor s0 Hrel. rewrite role_block_upsert.
    destruct actor as [a|]; [|done]. destruct (role_name (Some a)) as [n|]; [|done].
    split; [by apply links_upsert | by apply no_properties_upsert]. }
  assert (Hloc : forall s0,
             links (_create_location_relationship s0 event) = links s0
             /\ (no_properties s0 ->
                 no_properties (_create_location_relationship s0 event))).
  { intros s0. rewrite location_upsert.
    destruct (location_key event) as [[l n]|]; [|done].
    split; [by apply links_upsert | by apply no_properties_upsert]. }
  assert (Hty : forall s0,
             links (_link_event_type s0 event) = links s0
             /\ (no_properties s0 -> no_properties (_link_event_type s0 event))).
  { intros s0. unfold _link_event_type.
    destruct (event_type event) as [ty|]; [|done].
    destruct (negb (ty =? 0)%Z); [|done].
    split; [by apply links_merge_edges|].
    apply no_properties_same_nodes, merge_edges_nodes. }
  rewrite Hs'. unfold _create_actor_relationships.
  set (s1 := role_block "INITIATED_BY" initiator_props (initiator event) (event_id event) sc).
  set (s2 := role_block "TARGETED" target_props (target event) (event_id event) s1).
  set (s3 := role_block "VICTIMIZED" target_props (victim event) (event_id event) s2).
  destruct (Hroles "INITIATED_BY" initiator_props (initiator event) sc) as [L1 N1]; [done|].
  destruct (Hroles "TARGETED" target_props (target event) s1) as [L2 N2]; [done|].
  destruct (Hroles "VICTIMIZED" target_props (victim event) s2) as [L3 N3]; [done|].
  fold s1 in L1, N1, L2, N2. fold s2 in L2, N2, L3, N3. fold s3 in L3, N3.
  destruct (Hloc s3) as [L4 N4].
  destruct (Hty (_create_location_relationship s3 event)) as [L5 N5].
  split.
  - rewrite L5, L4, L3, L2, L1. by rewrite Hsc.
  - intros Hs. apply N5, N4, N3, N2, N1.
    rewrite Hsc. apply no_properties_snoc; [done|]. intros _. cbn [nprops].
    by rewrite lookup_set_props, Hprops.
Qed.

Lemma batch_no_link self events :
  links (db (_load_event_batch self events)) = links (db self)
  /\ (no_properties (db self) -> no_properties (db (_load_event_batch self events))).
Proof.
  revert self. induction events as [|event events IH]; intros self; [done|].
  rewrite batch_cons.
  destruct (load_event (db self) event) as [s'|e] eqn:Hl.
  - destruct (load_event_no_link _ _ _ Hl) as [Hlinks Hnp].
    destruct (IH (mkLoader s' (failed self))) as [IH1 IH2]. cbn [db] in *.
    split; [congruence | auto].
  - apply (IH (mkLoader (db self) _)).
Qed.

Lemma pass1_no_link batch_size self batch events :
  links (db (pass1 batch_size self batch events)) = links (db self)
  /\ (no_properties (db self) ->
      no_properties (db (pass1 batch_size self batch events))).
Proof.
  revert self batch. induction events as [|event events IH]; intros self batch; simpl.
  - destruct batch; [done | apply batch_no_link].
  - destruct (batch_size <=? _)%Z; [|apply IH].
    destruct (IH (_load_event_batch self (batch ++ [event])) []) as [IH1 IH2].
    destruct (batch_no_link self (batch ++ [event])) as [B1 B2].
    split; [congruence | auto].
Qed.

(** Without a [properties] attribute on an Event node, Pass 2 finds no
    identifier to link. *)
Lemma link_records_null s records :
  Forall (fun r => r.2 = VNull) records -> link_records s records = (s, None).
Proof.
  induction 1 as [|[eid props] records Hr _ IH]; [done|].
  simpl in Hr. subst props. simpl. exact IH.
Qed.

Lemma linked_records_null s :
  no_properties s -> Forall (fun r => r.2 = VNull) (linked_records s).
Proof.
  intros Hs. unfold linked_records. apply Forall_forall.
  intros r (n & Hn & Hr)%list_elem_of_omap.
  destruct (String.eqb (nlabel n) "Event" && _) eqn:Hm; [|done].
  apply andb_prop in Hm as [Hl%String.eqb_eq _]. injection Hr as <-.
  cbn. by rewrite (Hs n Hn Hl).
Qed.

Lemma create_event_links_nothing s :
  no_properties s -> _create_event_links s = (s, None).
Proof.
  intros Hs. unfold _create_event_links. by apply link_records_null, linked_records_null.
Qed.

(** C1 on the code.  Pass 1 stores the sparse properties under
    [propertiesJson] and the linkage identifiers nowhere, so the
    [properties] attribute Pass 2 reads is absent from every Event node:
    on a store whose Event nodes lack it, [load_events] ends with the
    store Pass 1 left, and with the [LINKED_TO] edges it started from. *)
Theorem pass2_creates_no_link
    (s : store) (log : list (string * exn)) (events : list Event) (batch_size : Z) :
  no_properties s ->
  let loaded := pass1 batch_size (mkLoader s log) [] events in
  load_events (mkLoader s log) events batch_size = (loaded, None)
  /\ links (db loaded) = links s.
Proof.
  intros Hs loaded.
  destruct (pass1_no_link batch_size (mkLoader s log) [] events) as [Hlinks Hnp].
  fold loaded in Hlinks, Hnp. cbn [db] in Hlinks, Hnp.
  split; [|done]. unfold load_events. fold loaded.
  rewrite create_event_links_nothing by auto. by destruct loaded.
Qed.

End StoreFacts.

(** ** The loader on two concrete rows *)
Section LoaderExamples.
Import Events CsvParser ParserRuns Neo4jLoader Stores.

(** The parser turns the two rows into the two Events: the second is
    flagged as linked and holds the identifier of the first. *)
Example linked_rows_parse : linked_events = [event_e1; event_e2].
Proof. vm_compute. reflexivity. Qed.

Lemma no_properties_fresh : no_properties fresh.
Proof. intros n Hn. vm_compute in Hn. by apply elem_of_nil in Hn. Qed.


(** The failing input of C1: both Events are loaded, the second one
    with [isLinked] true, and no [LINKED_TO] edge exists after Pass 2. *)
Lemma pass2_creates_no_link_witness :
  (load_events (mkLoader fresh []) [event_e1; event_e2] 500).2 = None
  /\ links (db (load_events (mkLoader fresh []) [event_e1; event_e2] 500).1) = [].
Proof.
  destruct (pass2_creates_no_link fresh [] [event_e1; event_e2] 500 no_properties_fresh)
    as [Hload Hlinks].
  rewrite Hload. split; [reflexivity | exact Hlinks].
Defined.

Example linked_event_nodes :
  let s := db (load_events (mkLoader fresh []) [event_e1; event_e2] 500).1 in
  find_nodes "Event" "eventId" (VStr "E1") s = [0%nat]
  /\ find_nodes "Event" "eventId" (VStr "E2") s = [3%nat]
  /\ linked_records s = [(VStr "E2", VNull)]
  /\ linked_from event_e2 = ["E1"].
Proof. vm_compute. done. Qed.


Example reload_batch_log :
  failed (_load_event_batch
            (_load_event_batch (mkLoader fresh []) [event_e1; event_e2])
            [event_e1; event_e2])
  = [("E1", ConstraintError "Event" "eventId");
     ("E2", ConstraintError "Event" "eventId")].
Proof. vm_compute. reflexivity. Qed.

(** C3 as stated fails: the role edge is merged, not created.  Running
    the actor step twice for an Event whose node is in the store leaves
    one [INITIATED_BY] edge from the Event to the Actor, not two. *)
Lemma repeated_actor_step_keeps_one_edge :
  let s0 := two_event_nodes in
  let s1 := _create_actor_relationships s0 event_e1 in
  let s2 := _create_actor_relationships s1 event_e1 in
  find_nodes "Event" "eventId" (VStr "E1") s0 = [0%nat]
  /\ find_nodes "Actor" "actorId" (VStr (Actors.generate_actor_id "Army")) s1 = [2%nat]
  /\ length (edges_between 0 "INITIATED_BY" 2 s1) = 1%nat
  /\ length (edges_between 0 "INITIATED_BY" 2 s2) = 1%nat
  /\ length (edges s2) = 1%nat.
Proof. vm_compute. done. Qed.

Lemma location_key_case_insensitive_witness :
  let s1 := _create_location_relationship two_event_nodes event_e1 in
  let s2 := _create_location_relationship s1 event_e2 in
  _generate_location_id "PARIS" (Some "48.85") (Some "2.35")
  = _generate_location_id "Paris" (Some "48.85") (Some "2.35")
  /\ nodes s2 = nodes s1.
Proof.
  destruct (location_key_case_insensitive two_event_nodes event_e1 event_e2
              (mkLocation (Some "Paris") None (Some "48.85") (Some "2.35")
                 None None None None)
              (mkLocation (Some "PARIS") None (Some "48.85") (Some "2.35")
                 None None None None)
              "Paris" "PARIS" eq_refl eq_refl)
    as (Hid & _ & Hnodes & _).
  - repeat constructor.
  - reflexivity.
  - reflexivity.
  - split; [exact Hid | exact Hnodes].
Defined.

Example location_nodes :
  let s1 := _create_location_relationship two_event_nodes event_e1 in
  let s2 := _create_location_relationship s1 event_e2 in
  find_nodes "Location" "locationId" (VStr "LOC_421E29772484") s2 = [2%nat]
  /\ (nprops <$> nodes s2 !! 2%nat) ≫= (fun p => p !! "name") = Some (VStr "Paris")
  /\ length (edges_between 0 "OCCURRED_AT" 2 s2) = 1%nat
  /\ length (edges_between 1 "OCCURRED_AT" 2 s2) = 1%nat.
Proof. vm_compute. done. Qed.

End LoaderExamples.

(** * Further properties

    Of the functions around those of the first part: their edge cases,
    what they keep, and how they fit together. *)

(** ** Dictionaries *)
Section DictFacts.

Lemma get_set_eq {V} k (v : V) d : PyDict.get k (PyDict.set k v d) = Some v.
Proof.
  induction d as [|[k' v'] d IH]; cbn.
  - by rewrite String.eqb_refl.
  - destruct (String.eqb k' k) eqn:E; cbn; rewrite E; done.
Qed.
Lemma get_set_ne {V} k k' (v : V) d :
  k' <> k -> PyDict.get k' (PyDict.set k v d) = PyDict.get k' d.
Proof.
  intros Hne. induction d as [|[k0 v0] d IH]; cbn.
  - destruct (String.eqb_spec k k'); [congruence|done].
  - destruct (String.eqb_spec k0 k) as [->|Hk]; cbn.
    + destruct (String.eqb_spec k k'); [congruence|done].
    + destruct (String.eqb_spec k0 k'); [done|apply IH].
Qed.
Lemma keys_set {V} k (v : V) d :
  forall x, x ∈ (PyDict.set k v d).*1 <-> x = k \/ x ∈ d.*1.
Proof.
  induction d as [|[k0 v0] d IH]; intros x; cbn.
  - rewrite list_elem_of_singleton, elem_of_nil. tauto.
  - destruct (String.eqb_spec k0 k) as [->|Hk]; cbn.
    + rewrite !elem_of_cons. tauto.
    + rewrite !elem_of_cons, IH. tauto.
Qed.
Lemma NoDup_keys_set {V} k (v : V) d : NoDup d.*1 -> NoDup (PyDict.set k v d).*1.
Proof.
  induction d as [|[k0 v0] d IH]; cbn; intros Hd.
  - apply NoDup_singleton.
  - apply NoDup_cons in Hd as [Hin Hd].
    destruct (String.eqb_spec k0 k) as [->|Hk]; cbn.
    + by apply NoDup_cons.
    + apply NoDup_cons. split; [|by apply IH].
      rewrite keys_set. intros [->|H]; done.
Qed.
Lemma length_set {V} k (v : V) d :
  length (PyDict.set k v d)
  = match PyDict.get k d with Some _ => length d | None => S (length d) end.
Proof.
  induction d as [|[k0 v0] d IH]; cbn; [done|].
  destruct (String.eqb_spec k0 k) as [->|Hk]; cbn; [done|].
  rewrite IH. by destruct (PyDict.get k d).
Qed.
Lemma get_elem_of {V} k (v : V) d : PyDict.get k d = Some v -> (k, v) ∈ d.
Proof.
  induction d as [|[k0 v0] d IH]; cbn; [done|].
  destruct (String.eqb_spec k0 k) as [->|Hne].
  - intros [= ->]. apply elem_of_cons. by left.
  - intros H. apply elem_of_cons. right. auto.
Qed.

End DictFacts.

(** ** More on strings *)
Section MoreStrings.
Import Variants.

Local Abbreviation chars := list_ascii_of_string.
Lemma length_append s t : String.length (s +:+ t) = (String.length s + String.length t)%nat.
Proof. induction s as [|c s IH]; simpl; [done | by rewrite IH]. Qed.
Lemma append_assoc s t u : (s +:+ t) +:+ u = s +:+ (t +:+ u).
Proof.
  induction s as [|c s IH]; [done|].
  change (String c ((s +:+ t) +:+ u) = String c (s +:+ (t +:+ u))). by rewrite IH.
Qed.
Lemma length_take_le n s : (n <= String.length s)%nat -> String.length (PyStr.take n s) = n.
Proof.
  revert s. induction n as [|n IH]; intros [|c s]; cbn; try done; try lia.
  intros H. rewrite IH; lia.
Qed.
Lemma take_drop_last n s :
  (n < String.length s)%nat -> PyStr.take n (PyStr.drop_last s) = PyStr.take n s.
Proof.
  revert s. induction n as [|n IH]; intros s Hlt.
  - destruct (PyStr.drop_last s); by destruct s.
  - destruct s as [|c [|d s]]; [cbn in Hlt; lia..|].
    change (PyStr.drop_last (String c (String d s)))
      with (String c (PyStr.drop_last (String d s))).
    cbn [PyStr.take]. f_equal. apply IH. cbn in *. lia.
Qed.
Lemma length_drop_last s :
  String.length (PyStr.drop_last s) = pred (String.length s).
Proof.
  induction s as [|c s IH]; [done|]. destruct s as [|d s]; [done|].
  change (PyStr.drop_last (String c (String d s)))
    with (String c (PyStr.drop_last (String d s))).
  cbn [String.length]. rewrite IH. done.
Qed.
Lemma blank_lower s : blank (PyStr.lower s) = blank s.
Proof.
  unfold PyStr.lower. induction s as [|c s IH]; cbn; [done|].
  by rewrite isspace_lower_char, IH.
Qed.
Lemma strip_blank s : blank s = true -> PyStr.strip s = EmptyString.
Proof.
  intros H. unfold PyStr.strip.
  assert (PyStr.lstrip s = EmptyString) as ->; [|done].
  induction s as [|c s IH]; cbn in *; [done|].
  apply andb_prop in H as [-> H]. auto.
Qed.
(** Digits *)
Lemma digit_not_space c : PyStr.isdigit c = true -> PyStr.isspace c = false.
Proof. destruct c as [[] [] [] [] [] [] [] []]; vm_compute; congruence. Qed.
Lemma rstrip_no_space s :
  Forall (fun c => PyStr.isspace c = false) (chars s) -> PyStr.rstrip s = s.
Proof.
  induction s as [|c s IH]; cbn; [done|]. intros [Hc Hs]%Forall_cons.
  rewrite (IH Hs), Hc. by destruct s.
Qed.
Lemma all_digits_no_space s :
  CsvParser.all_digits s = true -> Forall (fun c => PyStr.isspace c = false) (chars s).
Proof.
  induction s as [|c s IH]; cbn; [constructor|].
  intros [Hc Hs]%andb_prop. constructor; [by apply digit_not_space|auto].
Qed.
Lemma strip_digits s : CsvParser.all_digits s = true -> PyStr.strip s = s.
Proof.
  intros Hs. unfold PyStr.strip.
  assert (PyStr.lstrip s = s) as ->.
  { destruct s as [|c s]; [done|]. cbn in *. apply andb_prop in Hs as [Hc _].
    by rewrite (digit_not_space c Hc). }
  by apply rstrip_no_space, all_digits_no_space.
Qed.
Lemma int_digits_all s acc prev :
  CsvParser.all_digits s = true -> (s <> EmptyString \/ prev = true) ->
  is_Some (PyStr.int_digits s acc prev).
Proof.
  revert acc prev. induction s as [|c s IH]; cbn; intros acc prev Hs Hne.
  - destruct Hne as [Hne | ->]; [done|by eexists].
  - apply andb_prop in Hs as [Hc Hs]. rewrite Hc. apply IH; [done|by right].
Qed.
Lemma int_of_digits s :
  CsvParser.all_digits s = true -> s <> EmptyString -> is_Some (PyStr.int s).
Proof.
  intros Hs Hne. unfold PyStr.int. rewrite strip_digits by done.
  destruct s as [|c s]; [done|].
  assert (Hc : PyStr.isdigit c = true) by (cbn in Hs; by apply andb_prop in Hs as [? _]).
  assert (c <> "+"%char /\ c <> "-"%char) as [Hp Hm].
  { split; intros ->; by vm_compute in Hc. }
  assert (is_Some (PyStr.int_digits (String c s) 0 false)) by (apply int_digits_all; auto).
  destruct c as [[] [] [] [] [] [] [] []]; try done.
Qed.
Lemma all_digits_take n s :
  CsvParser.all_digits s = true -> CsvParser.all_digits (PyStr.take n s) = true.
Proof.
  revert s. induction n as [|n IH]; intros [|c s]; cbn; try done.
  intros [-> Hs]%andb_prop. cbn. auto.
Qed.
(** Suffixes of a stripped line *)
Lemma length_rstrip s : (String.length (PyStr.rstrip s) <= String.length s)%nat.
Proof.
  induction s as [|c s IH]; cbn; [done|].
  destruct (PyStr.rstrip s); [destruct (PyStr.isspace c)|]; cbn in *; lia.
Qed.
Lemma stripped_suffix_not_blank l pre suf :
  PyStr.strip l = pre +:+ suf -> suf <> EmptyString -> blank suf = false.
Proof.
  intros Heq Hne. destruct (blank suf) eqn:Hb; [|done]. exfalso.
  assert (Hr : PyStr.rstrip (pre +:+ suf) = pre +:+ suf).
  { rewrite <- Heq. unfold PyStr.strip. apply rstrip_idem. }
  rewrite rstrip_app_blank in Hr by done.
  pose proof (length_rstrip pre) as Hlen. rewrite Hr, length_append in Hlen.
  destruct suf; [done|]. cbn in Hlen. lia.
Qed.
Lemma lstrip_suffix s : exists pre, s = pre +:+ PyStr.lstrip s.
Proof.
  induction s as [|c s IH]; [by exists EmptyString|]. cbn.
  destruct (PyStr.isspace c); [|by exists EmptyString].
  destruct IH as (pre & Hpre). exists (String c pre).
  change (String c s = String c (pre +:+ PyStr.lstrip s)). by rewrite <- Hpre.
Qed.
Lemma strip_starts_nonspace c r :
  PyStr.isspace c = false -> PyStr.strip (String c r) <> EmptyString.
Proof.
  intros Hc. unfold PyStr.strip. cbn [PyStr.lstrip]. rewrite Hc. cbn.
  destruct (PyStr.rstrip r); [by rewrite Hc|done].
Qed.
(** Options *)
Lemma elem_of_lstrip c s : c ∈ chars (PyStr.lstrip s) -> c ∈ chars s.
Proof.
  induction s as [|d s IH]; cbn; [done|].
  destruct (PyStr.isspace d); [|done]. intros H. apply elem_of_cons. auto.
Qed.
Lemma elem_of_rstrip c s : c ∈ chars (PyStr.rstrip s) -> c ∈ chars s.
Proof.
  induction s as [|d s IH]; cbn; [done|].
  destruct (PyStr.rstrip s) as [|e r].
  - destruct (PyStr.isspace d); cbn; [by intros ?%elem_of_nil|].
    intros ->%list_elem_of_singleton. apply elem_of_cons. by left.
  - cbn. intros [->|H]%elem_of_cons; apply elem_of_cons; [by left|]. right. by apply IH.
Qed.
Lemma elem_of_strip c s : c ∈ chars (PyStr.strip s) -> c ∈ chars s.
Proof. unfold PyStr.strip. intros H. by apply elem_of_lstrip, elem_of_rstrip. Qed.
(** [str(n)] has no leading zero, unless [n] is zero. *)
Lemma to_uint_no_leading_zero n d : Nat.to_uint n = Decimal.D0 d -> n = 0%nat.
Proof.
  intros Hd.
  pose proof (DecimalNat.Unsigned.to_of (Nat.to_uint n)) as Hnorm.
  rewrite DecimalNat.Unsigned.of_to, Hd in Hnorm.
  unfold Decimal.unorm in Hnorm. cbn [Decimal.nzhead] in Hnorm.
  destruct (Decimal.nzhead d) eqn:Hz;
    [injection Hnorm as ->;
     by rewrite <- (DecimalNat.Unsigned.of_to n), Hd|..];
    pose proof (DecimalFacts.nb_digits_nzhead d) as Hlen;
    rewrite Hz, <- Hnorm in Hlen; cbn in Hlen; lia.
Qed.
Lemma of_Z_no_leading_zero z :
  z <> 0%Z -> PyStr.startswith "0" (PyStr.of_Z z) = false.
Proof.
  intros Hz. unfold PyStr.of_Z. destruct z as [|p|p]; [done| |done].
  unfold PyStr.of_nat.
  destruct (Nat.to_uint (Z.to_nat (Z.pos p))) as [|d|d|d|d|d|d|d|d|d|d] eqn:Hd; try done.
  apply to_uint_no_leading_zero in Hd. lia.
Qed.

End MoreStrings.

(** ** [src/domain/events.py]: the derived properties *)
Section DomainFacts.
Import Events Readings.
Lemma or_else_truthy o d : PyStr.truthy d = true -> PyStr.truthy (or_else o d) = true.
Proof. intros Hd. destruct o as [s|]; [|done]. cbn. destruct (PyStr.truthy s) eqn:E; done. Qed.
(** A Location always has a name to show: [display_name] is the name when
    there is one, else the country, else the text Unknown Location; it is
    never the empty string. *)
Theorem display_name_never_empty (l : Location) :
  PyStr.truthy (display_name l) = true
  /\ (truthy_str (name l) = true -> Some (display_name l) = name l)
  /\ (truthy_str (name l) = false -> truthy_str (country l) = true ->
      Some (display_name l) = country l)
  /\ (truthy_str (name l) = false -> truthy_str (country l) = false ->
      display_name l = "Unknown Location").
Proof.
  unfold display_name. split; [by do 2 apply or_else_truthy|].
  destruct (name l) as [n|], (country l) as [c|]; cbn;
    repeat split; intros; repeat case_match; simplify_eq; done.
Qed.
Lemma and_positive_truthy o :
  answer_truthy (and_positive o) = true <-> positive_count o.
Proof.
  unfold positive_count. destruct o as [z|]; cbn.
  - destruct (Z.eqb_spec z 0) as [->|Hz]; cbn.
    + split; [done|]. intros (n & [= <-] & Hn). lia.
    + rewrite Z.ltb_lt. split; [by exists z|]. by intros (n & [= <-] & Hn).
  - split; [done|]. by intros (n & [=] & _).
Qed.
Lemma or_answer_truthy a b :
  answer_truthy (or_answer a b) = answer_truthy a || answer_truthy b.
Proof. unfold or_answer. destruct (answer_truthy a) eqn:E; cbn; [done|done]. Qed.
Lemma or_answer_falsy a b : answer_truthy a = false -> or_answer a b = b.
Proof. intros H. unfold or_answer. by rewrite H. Qed.
Lemma has_casualties_truthy (i : Impact) :
  answer_truthy (has_casualties i) = true <->
  positive_count (killed_participants i) \/ positive_count (killed_armed i)
  \/ positive_count (injured i).
Proof.
  unfold has_casualties.
  rewrite !or_answer_truthy, !orb_true_iff, !and_positive_truthy. tauto.
Qed.
(** [has_casualties] is true exactly when one of the three counts it reads
    (killed participants, killed armed, injured) is positive; the detailed
    injury count, arrests and damage play no part.  When it is not true its
    value is that of the clause on [injured], which need not be a boolean:
    it is [None] exactly when no killed count is positive and [injured] is
    absent. *)
Theorem has_casualties_positive_count (i : Impact) :
  (answer_truthy (has_casualties i) = true <->
   positive_count (killed_participants i) \/ positive_count (killed_armed i)
   \/ positive_count (injured i))
  /\ (answer_truthy (has_casualties i) = false ->
      has_casualties i = and_positive (injured i))
  /\ (has_casualties i = ANone <->
      ~ positive_count (killed_participants i) /\ ~ positive_count (killed_armed i)
      /\ injured i = None).
Proof.
  split; [apply has_casualties_truthy|]. unfold has_casualties. split.
  - rewrite !or_answer_truthy, !orb_false_iff. intros [[H1 H2] _].
    rewrite (or_answer_falsy (or_answer _ _)).
    + done.
    + by rewrite or_answer_truthy, H1, H2.
  - rewrite <- !and_positive_truthy.
    destruct (answer_truthy (and_positive (killed_participants i))) eqn:H1.
    { split; [|intros [H _]; by destruct H].
      unfold or_answer at 2. rewrite H1. unfold or_answer. rewrite H1.
      intros H. rewrite H in H1. done. }
    rewrite (or_answer_falsy _ _ H1).
    destruct (answer_truthy (and_positive (killed_armed i))) eqn:H2.
    { split; [|intros (_ & H & _); by destruct H].
      unfold or_answer. rewrite H2. intros H. rewrite H in H2. done. }
    rewrite (or_answer_falsy _ _ H2).
    split.
    + intros H. split; [done|]. split; [done|].
      destruct (injured i) as [z|]; [|done]. cbn in H. by case_match.
    + intros (_ & _ & ->). done.
Qed.
(** An Event is violent when its type is 2 or its impact has casualties. *)
Theorem is_violent_truthy (e : Event) :
  answer_truthy (is_violent e) = true <->
  event_type e = Some 2%Z
  \/ exists i, impact e = Some i
       /\ (positive_count (killed_participants i) \/ positive_count (killed_armed i)
           \/ positive_count (injured i)).
Proof.
  unfold is_violent. rewrite or_answer_truthy, orb_true_iff. cbn [answer_truthy].
  rewrite bool_decide_eq_true. split.
  - intros [H|H]; [by left|]. destruct (impact e) as [i|]; [|done].
    right. exists i. split; [done|]. by apply has_casualties_truthy.
  - intros [H|(i & -> & H)]; [by left|]. right. by apply has_casualties_truthy.
Qed.
(** [has_actors] holds exactly when [actor_count] is positive, and the
    count is at most three. *)
Theorem has_actors_actor_count (e : Event) :
  (has_actors e = true <-> (0 < actor_count e)%Z)
  /\ (0 <= actor_count e <= 3)%Z
  /\ (actor_count e = 3%Z <->
      is_Some (initiator e) /\ is_Some (target e) /\ is_Some (victim e)).
Proof.
  unfold has_actors, actor_count.
  destruct (initiator e) as [a|], (target e) as [b|], (victim e) as [c|]; cbn;
    repeat split; try done; try lia; intros; try lia;
    repeat match goal with H : _ /\ _ |- _ => destruct H end;
    repeat match goal with H : is_Some None |- _ => by destruct H end; eauto.
Qed.
(** [add_motivation_property] stores the value under the key: it is read
    back, the other keys keep their values, keys stay distinct, the
    dictionary grows by one entry for a new key and by none for a known
    one; a value [None] leaves the Event as it is. *)
Theorem add_motivation_property_lookup (key : string) (v : propval) (e : Event) :
  let e' := add_motivation_property key (Some v) e in
  PyDict.get key (properties e') = Some v
  /\ (forall k, k <> key -> PyDict.get k (properties e') = PyDict.get k (properties e))
  /\ (NoDup (properties e).*1 -> NoDup (properties e').*1)
  /\ length (properties e')
     = match PyDict.get key (properties e) with
       | Some _ => length (properties e)
       | None => S (length (properties e))
       end
  /\ event_id e' = event_id e
  /\ add_motivation_property key None e = e.
Proof.
  cbn. split; [apply get_set_eq|]. split; [intros k Hk; by apply get_set_ne|].
  split; [apply NoDup_keys_set|]. split; [apply length_set|]. done.
Qed.

End DomainFacts.

(** ** Dates on display *)
Section DateFacts.
Import Events.
Lemma format_0d_length (width bound : nat) z :
  forallb (fun n => Nat.eqb (String.length (format_0d width (Z.of_nat n))) width)
    (seq 0 bound) = true ->
  (0 <= z < Z.of_nat bound)%Z ->
  String.length (format_0d width z) = width.
Proof.
  intros Hall Hz. rewrite forallb_forall in Hall.
  specialize (Hall (Z.to_nat z)). rewrite Z2Nat.id in Hall by lia.
  apply Nat.eqb_eq, Hall. apply in_seq. lia.
Qed.
Lemma format_04d_length z : (0 <= z < 10000)%Z -> String.length (format_0d 4 z) = 4%nat.
Proof.
  intros Hz. apply (format_0d_length 4 (Z.to_nat 10000)); [by vm_compute|lia].
Qed.
Lemma format_02d_length z : (0 <= z < 100)%Z -> String.length (format_0d 2 z) = 2%nat.
Proof.
  intros Hz. apply (format_0d_length 2 (Z.to_nat 100)); [by vm_compute|lia].
Qed.
Lemma days_in_month_le y m : (days_in_month y m <= 31)%Z.
Proof. unfold days_in_month. repeat case_match; lia. Qed.
Lemma date_new_valid y m d dt :
  date_new y m d = Returned dt ->
  dt = mkDate y m d /\ (1 <= y <= 9999)%Z /\ (1 <= m <= 12)%Z /\ (1 <= d <= 31)%Z.
Proof.
  unfold date_new. destruct (_ && _ && _); [|done].
  destruct (valid_date y m d) eqn:Hv; [|done]. intros [= <-].
  unfold valid_date in Hv. pose proof (days_in_month_le y m).
  repeat (apply andb_prop in Hv as [Hv ?]).
  split; [done|]. lia.
Qed.
Lemma calendar_date_some t dt :
  calendar_date t = Returned (Some dt) ->
  year t = Some (d_year dt) /\ month t = Some (d_month dt) /\ day t = Some (d_day dt)
  /\ (1 <= d_year dt <= 9999)%Z /\ (1 <= d_month dt <= 12)%Z /\ (1 <= d_day dt <= 31)%Z.
Proof.
  unfold calendar_date.
  destruct (year t) as [y|]; [|done]. destruct (month t) as [m|]; [|done].
  destruct (day t) as [d|]; [|done].
  destruct (_ && _ && _); [|done].
  destruct (date_new y m d) as [dt'|e] eqn:Hd; [|by destruct e].
  intros [= ->]. by apply date_new_valid in Hd as (-> & ? & ? & ?).
Qed.
(** When year, month and day form a calendar date, [display_date] is its
    ISO form: four digits, two and two, zero-padded and separated by
    hyphens, ten characters in all; the date is made of exactly the three
    fields. *)
Theorem display_date_iso (t : TemporalInfo) (dt : date) :
  calendar_date t = Returned (Some dt) ->
  display_date t = Returned (isoformat dt)
  /\ String.length (isoformat dt) = 10%nat
  /\ (exists yyyy mm dd,
        isoformat dt = yyyy +:+ "-" +:+ mm +:+ "-" +:+ dd
        /\ String.length yyyy = 4%nat /\ String.length mm = 2%nat
        /\ String.length dd = 2%nat)
  /\ year t = Some (d_year dt) /\ month t = Some (d_month dt)
  /\ day t = Some (d_day dt).
Proof.
  intros Hc. pose proof (calendar_date_some t dt Hc) as (Hy & Hm & Hd & By & Bm & Bd).
  split; [unfold display_date; by rewrite Hc|].
  unfold isoformat.
  pose proof (format_04d_length (d_year dt) ltac:(lia)) as L4.
  pose proof (format_02d_length (d_month dt) ltac:(lia)) as L2.
  pose proof (format_02d_length (d_day dt) ltac:(lia)) as L2'.
  split; [|split; [|done]].
  - rewrite !length_append, L4, L2, L2'. done.
  - by eexists _, _, _.
Qed.

End DateFacts.

(** ** [src/domain/actors.py] *)
Section ActorFacts.
Import Events Actors Variants Readings.
(** The id of a non-empty name is [ACTOR_] followed by twelve upper-case
    hexadecimal characters; [ACTOR_UNKNOWN] is the id of the empty name and
    of no other; and a name of whitespace only is not unknown: it gets the
    id of the hash of the empty string. *)
Theorem generate_actor_id_shape (name : string) :
  (generate_actor_id name = "ACTOR_UNKNOWN" <-> name = EmptyString)
  /\ (name <> EmptyString ->
      exists h, generate_actor_id name = "ACTOR_" +:+ h /\ hex12 h)
  /\ (name <> EmptyString -> blank name = true ->
      generate_actor_id name = "ACTOR_D41D8CD98F00").
Proof.
  assert (Hshape : name <> EmptyString ->
            exists h, generate_actor_id name = "ACTOR_" +:+ h /\ hex12 h).
  { intros Hne. unfold generate_actor_id. destruct name; [done|]. cbn [PyStr.truthy negb].
    eexists. split; [reflexivity|]. apply digest_prefix_hex12. }
  split; [|split; [exact Hshape|]].
  - split; [|by intros ->].
    intros Hid. destruct name as [|c name]; [done|].
    destruct Hshape as (h & Hh & Hlen & _); [done|].
    rewrite Hh in Hid. cbn in Hid. injection Hid as Hid.
    change (h = "UNKNOWN") in Hid. subst h. done.
  - intros Hne Hblank. unfold generate_actor_id. destruct name; [done|].
    cbn [PyStr.truthy negb]. unfold normalize.
    rewrite strip_blank; [by vm_compute|]. by rewrite blank_lower.
Qed.
(** [classify_actor_type] never answers [non_government_unspecified]: a
    non-government actor has a positive type, so the branch is dead.  It
    answers [unknown] exactly for an actor that is neither government nor
    non-government; a government type takes precedence over a
    non-government one. *)
Theorem classify_actor_type_classes (actor : Actor) :
  classify_actor_type actor <> "non_government_unspecified"
  /\ (classify_actor_type actor = "unknown" <->
      is_government actor = false /\ is_non_government actor = false)
  /\ (is_government actor = true ->
      classify_actor_type actor
      ∈ ["national_government"; "regional_government"; "local_government";
         "government_unspecified"])
  /\ (is_government actor = false -> is_non_government actor = true ->
      classify_actor_type actor
      ∈ ["political_organization"; "armed_group"; "civil_society";
         "other_non_government"]).
Proof.
  unfold classify_actor_type, is_non_government, range_mem.
  destruct (is_government actor).
  - split; [|split; [|split]]; repeat case_match; try done;
      try (split; [done|by intros []]); intros; try done;
      rewrite !elem_of_cons; tauto.
  - destruct (non_gov_type actor) as [t|].
    + destruct (Z.ltb_spec 0 t) as [Ht|Ht].
      * assert ((t =? 0)%Z = false) as -> by lia. cbn [negb].
        split; [|split; [|split]]; repeat case_match; try done;
          try (split; [done|by intros []]); intros; try done;
          rewrite !elem_of_cons; tauto.
      * split; [done|]. split; [done|]. split; intros; done.
    + split; [done|]. split; [done|]. split; intros; done.
Qed.
Lemma get_int_range (table : list (Z * string)) (lo n : nat) c :
  table.*1 = Z.of_nat <$> seq lo n ->
  is_Some (get_int c table) <-> (Z.of_nat lo <= c < Z.of_nat (lo + n))%Z.
Proof.
  revert table lo. induction n as [|n IH]; intros table lo Hkeys.
  - destruct table; [|done]. cbn. split; [by intros []|lia].
  - destruct table as [|[k v] table]; [done|]. cbn in Hkeys.
    injection Hkeys as -> Hkeys. cbn.
    destruct (Z.eqb_spec (Z.of_nat lo) c) as [<-|Hne].
    + split; [lia|by eexists].
    + rewrite (IH table (S lo) Hkeys). lia.
Qed.
(** The two codebook look-ups return a name exactly for the codes of the
    tables: 1 to 23 for government types and 1 to 37 for non-government
    types; an absent code, zero, a negative or a larger code give [None]. *)
Theorem type_name_defined_range (c : option Z) :
  (is_Some (get_government_type_name c) <-> exists z, c = Some z /\ (1 <= z <= 23)%Z)
  /\ (is_Some (get_non_government_type_name c) <->
      exists z, c = Some z /\ (1 <= z <= 37)%Z).
Proof.
  unfold get_government_type_name, get_non_government_type_name, type_name.
  destruct c as [z|].
  - destruct (Z.eqb_spec z 0) as [->|Hz]; cbn [negb].
    + split; (split; [by intros []|intros (z & [= <-] & Hz); lia]).
    + rewrite (get_int_range GOVERNMENT_TYPES 1 23) by reflexivity.
      rewrite (get_int_range NON_GOVERNMENT_TYPES 1 37) by reflexivity.
      split; (split; [intros H; exists z; split; [done|lia]
                     |intros (? & [= <-] & H); lia]).
  - split; (split; [by intros []|by intros (z & [=] & _)]).
Qed.
Lemma sum_of_app l1 l2 : sum_of (l1 ++ l2) = (sum_of l1 + sum_of l2)%Z.
Proof. unfold sum_of. induction l1 as [|x l1 IH]; cbn; [done|]. rewrite IH. lia. Qed.
(** [merge_actor_info] composes: merging two lists that are not empty, one
    after the other, is the union of their merges -- names and roles
    united, flags joined, appearances and totals added. *)
Theorem merge_actor_info_app (l1 l2 : list Actor) (m1 m2 : merged) :
  merge_actor_info l1 = Some m1 -> merge_actor_info l2 = Some m2 ->
  merge_actor_info (l1 ++ l2) = Some (merged_union m1 m2).
Proof.
  destruct l1 as [|a l1]; [done|]. destruct l2 as [|b l2]; [done|].
  intros [= <-] [= <-]. unfold merged_union. cbn [merge_actor_info app
    names roles m_is_government m_is_non_government total_appearances
    total_armed total_participants].
  f_equal. f_equal.
  - change (a :: l1 ++ b :: l2) with ((a :: l1) ++ b :: l2).
    by rewrite omap_app, list_to_set_app_L.
  - change (a :: l1 ++ b :: l2) with ((a :: l1) ++ b :: l2).
    by rewrite fmap_app, list_to_set_app_L.
  - change (a :: l1 ++ b :: l2) with ((a :: l1) ++ b :: l2). apply existsb_app.
  - change (a :: l1 ++ b :: l2) with ((a :: l1) ++ b :: l2). apply existsb_app.
  - change (a :: l1 ++ b :: l2) with ((a :: l1) ++ b :: l2).
    by rewrite length_app, Nat2Z.inj_add.
  - change (a :: l1 ++ b :: l2) with ((a :: l1) ++ b :: l2).
    by rewrite fmap_app, sum_of_app.
  - change (a :: l1 ++ b :: l2) with ((a :: l1) ++ b :: l2).
    by rewrite fmap_app, sum_of_app.
Qed.

End ActorFacts.

(** ** [src/domain/cameo.py] *)
Section OntologyFacts.
Import Cameo CameoParser Readings.
Lemma take_from n s : PyStr.take n s +:+ ActorType.from n s = s.
Proof.
  revert s. induction n as [|n IH]; intros [|c s]; try done.
  change (String c (PyStr.take n s +:+ ActorType.from n s) = String c s).
  by rewrite IH.
Qed.
(** The code of an actor type splits into its two readings: an
    international organisation has no base country; a base country has
    three characters; when both are there, the code is the base country
    followed by the actor type, which is not empty; and there is no actor
    type exactly when the code has at most three characters. *)
Theorem actor_type_code_parts (a : ActorType.CAMEOActorType) :
  (ActorType.is_international_org a = true -> ActorType.base_country a = None)
  /\ (forall b, ActorType.base_country a = Some b -> String.length b = 3%nat)
  /\ (forall b t, ActorType.base_country a = Some b ->
                  ActorType.actor_type a = Some t ->
                  ActorType.code a = b +:+ t /\ t <> EmptyString)
  /\ (ActorType.actor_type a = None <-> (String.length (ActorType.code a) <= 3)%nat).
Proof.
  unfold ActorType.is_international_org, ActorType.base_country,
    ActorType.actor_type, len.
  split; [|split; [|split]].
  - intros [->| ->]%orb_prop; [by rewrite andb_false_r|].
    by rewrite andb_false_r.
  - intros b. case_match eqn:E; [|done]. intros [= <-].
    apply (length_take_le 3). apply andb_prop in E as [[E _]%andb_prop _]. lia.
  - intros b t Hb Ht.
    destruct (_ && _); [|done]. destruct (3 <? _)%Z eqn:E; [|done].
    assert (b = PyStr.take 3 (ActorType.code a)) as -> by congruence.
    assert (t = ActorType.from 3 (ActorType.code a)) as -> by congruence.
    clear Hb Ht. split; [symmetry; apply take_from|].
    intros Hfrom. apply Z.ltb_lt in E.
    pose proof (f_equal String.length (take_from 3 (ActorType.code a))) as Heq.
    rewrite length_append, Hfrom in Heq.
    assert (String.length (PyStr.take 3 (ActorType.code a)) <= 3)%nat.
    { generalize (ActorType.code a). intros s.
      destruct s as [|? [|? [|? s]]]; cbn; lia. }
    cbn [String.length] in Heq. lia.
  - destruct (3 <? _)%Z eqn:E; split; try done; lia.
Qed.
(** The four classes of an event type fit together: verbal is cooperation
    or non-material conflict, cooperation and conflict exclude each other,
    so do verbal and material, material implies conflict; and a root
    category that is no number puts the type in none of them. *)
Theorem event_type_classes (et : CAMEOEventType) :
  is_verbal et = is_cooperation et || (is_conflict et && negb (is_material et))
  /\ is_cooperation et && is_conflict et = false
  /\ is_verbal et && is_material et = false
  /\ (is_material et = true -> is_conflict et = true)
  /\ (PyStr.int (root_category et) = None ->
      is_cooperation et = false /\ is_conflict et = false
      /\ is_material et = false /\ is_verbal et = false).
Proof.
  unfold is_verbal, is_cooperation, is_conflict, is_material, category_between.
  destruct (PyStr.int (root_category et)) as [cat|]; [|done].
  repeat split; try done; intros;
    repeat match goal with
           | |- context [(?a <=? ?b)%Z] => destruct (Z.leb_spec a b)
           | H : context [(?a <=? ?b)%Z] |- _ => destruct (Z.leb_spec a b)
           end; cbn in *; try done; lia.
Qed.
(** A parent has the root category of its child, and its code is the code
    of the child without the last character. *)
Theorem parent_code_root_category (et parent : CAMEOEventType) :
  parent_code et = Some (code parent) ->
  root_category parent = root_category et
  /\ (len (code parent) = len (code et) - 1)%Z
  /\ PyStr.startswith (code parent) (code et) = true.
Proof.
  unfold parent_code, root_category, len.
  case_match eqn:E; [|done]. intros [= <-].
  apply andb_prop in E as [_ E]. apply Z.ltb_lt in E.
  rewrite length_drop_last.
  assert (Hlen : (2 < String.length (code et))%nat) by lia.
  split; [|split].
  - rewrite !(proj2 (Z.leb_le 2 _)) by lia.
    apply take_drop_last. lia.
  - lia.
  - clear. induction (code et) as [|c s IH]; [done|].
    destruct s as [|d s]; [done|].
    change (PyStr.drop_last (String c (String d s)))
      with (String c (PyStr.drop_last (String d s))).
    cbn [PyStr.startswith]. by rewrite Ascii.eqb_refl, IH.
Qed.
(** One turn of the loop that builds the hierarchy. *)
Lemma parent_code_truthy et p : parent_code et = Some p -> PyStr.truthy p = true.
Proof.
  unfold parent_code, len. destruct (_ && _) eqn:E; [|done]. intros [= <-].
  apply andb_prop in E as [_ E]. apply Z.ltb_lt in E.
  destruct (code et) as [|c [|d s]]; [cbn in E; lia..|]. done.
Qed.
Lemma hierarchy_from_get p (event_types : list CAMEOEventType) h0 :
  PyDict.get p
    (foldl (fun hierarchy et =>
              match parent_code et with
              | Some parent =>
                  if PyStr.truthy parent
                  then PyDict.set parent
                         (default [] (PyDict.get parent hierarchy) ++ [code et])
                         hierarchy
                  else hierarchy
              | None => hierarchy
              end) h0 event_types)
  = match children_of p event_types with
    | [] => PyDict.get p h0
    | cs => Some (default [] (PyDict.get p h0) ++ cs)
    end.
Proof.
  revert h0. induction event_types as [|et ets IH]; intros h0; [done|].
  cbn [foldl]. rewrite IH. unfold children_of. cbn [List.filter].
  destruct (parent_code et) as [q|] eqn:Hq.
  - rewrite (parent_code_truthy et q Hq).
    destruct (decide (q = p)) as [->|Hne].
    + rewrite bool_decide_eq_true_2 by done. rewrite get_set_eq. cbn.
      destruct (code <$> List.filter _ ets) as [|c cs]; [done|].
      by rewrite <- app_assoc.
    + rewrite bool_decide_eq_false_2 by congruence.
      by rewrite get_set_ne.
  - by rewrite bool_decide_eq_false_2.
Qed.
Lemma hierarchy_from_keys (event_types : list CAMEOEventType) h0 :
  NoDup h0.*1 ->
  NoDup (foldl (fun hierarchy et =>
              match parent_code et with
              | Some parent =>
                  if PyStr.truthy parent
                  then PyDict.set parent
                         (default [] (PyDict.get parent hierarchy) ++ [code et])
                         hierarchy
                  else hierarchy
              | None => hierarchy
              end) h0 event_types).*1.
Proof.
  revert h0. induction event_types as [|et ets IH]; intros h0 Hh; [done|].
  cbn [foldl]. apply IH. repeat case_match; try done. by apply NoDup_keys_set.
Qed.
Lemma build_event_hierarchy_get (o : Ontology.CAMEOOntology) (p : string) :
  PyDict.get p (Ontology.build_event_hierarchy o)
  = entry (children_of p (Ontology.event_types o)).
Proof.
  unfold Ontology.build_event_hierarchy. rewrite hierarchy_from_get.
  by destruct (children_of p _).
Qed.

(** The hierarchy maps a code to the codes of exactly the event types
    whose parent code it is, in the order of the list and with
    repetitions; a code that is no parent has no entry; the keys are
    distinct; and the parser builds the same dictionary as the ontology. *)
Theorem build_event_hierarchy_children (o : Ontology.CAMEOOntology) (p : string) :
  PyDict.get p (Ontology.build_event_hierarchy o)
  = entry (children_of p (Ontology.event_types o))
  /\ NoDup (Ontology.build_event_hierarchy o).*1
  /\ build_event_type_hierarchy (Ontology.event_types o)
     = Ontology.build_event_hierarchy o.
Proof.
  split; [apply build_event_hierarchy_get|]. split; [|done].
  apply hierarchy_from_keys. constructor.
Qed.

(** [get_event_type] returns the first event type with the code, and
    [None] when no event type has it. *)
Theorem get_event_type_first (o : Ontology.CAMEOOntology) (c : string) :
  match Ontology.get_event_type o c with
  | Some et =>
      exists pre post,
        Ontology.event_types o = pre ++ et :: post
        /\ code et = c /\ Forall (fun x => code x <> c) pre
  | None => Forall (fun x => code x <> c) (Ontology.event_types o)
  end.
Proof.
  unfold Ontology.get_event_type.
  induction (Ontology.event_types o) as [|x l IH]; cbn; [done|].
  destruct (String.eqb_spec (code x) c) as [Hc|Hc].
  - by exists [], l.
  - destruct (List.find _ l) as [et|].
    + destruct IH as (pre & post & -> & Hcode & Hpre).
      exists (x :: pre), post. repeat split; [done|]. by constructor.
    + by constructor.
Qed.

End OntologyFacts.

(** ** [src/ingestion/cameo_parser.py]: lines *)
Section LineFacts.
Import Cameo CameoParser Variants.

Local Abbreviation chars := list_ascii_of_string.
Lemma span_digits_spec s ds rest :
  span_digits s = (ds, rest) ->
  CsvParser.all_digits ds = true /\ s = ds +:+ rest.
Proof.
  revert ds rest. induction s as [|c s IH]; cbn; intros ds rest.
  - by intros [= <- <-].
  - destruct (PyStr.isdigit c) eqn:Hc.
    + destruct (span_digits s) as [ds' rest'] eqn:Hs. intros [= <- <-].
      destruct (IH ds' rest' eq_refl) as [Hd ->]. cbn. by rewrite Hc, Hd.
    + by intros [= <- <-].
Qed.
Lemma drop_suffix n s : exists pre, s = pre +:+ drop n s.
Proof.
  revert s. induction n as [|n IH]; intros s; [by exists EmptyString; destruct s|].
  destruct s as [|c s]; [by exists EmptyString|].
  destruct (IH s) as (pre & Hpre). exists (String c pre).
  change (String c s = String c (pre +:+ drop n s)). by rewrite <- Hpre.
Qed.
Lemma spaces_dot_plus_not_blank s :
  blank s = false ->
  exists c r, spaces_dot_plus s = Some (String c r) /\ PyStr.isspace c = false.
Proof.
  induction s as [|c s IH]; cbn; [done|].
  destruct (PyStr.isspace c) eqn:Hc; cbn.
  - intros Hs. destruct (IH Hs) as (d & r & -> & Hd). by exists d, r.
  - intros _. exists c. unfold is_newline.
    destruct (N.eqb_spec (PyStr.code c) 10) as [Hn|Hn].
    + exfalso. destruct c as [[] [] [] [] [] [] [] []]; by vm_compute in Hn, Hc.
    + eexists. done.
Qed.
Lemma match_label_spec l code label :
  match_label (PyStr.strip l) = Some (code, label) ->
  CsvParser.all_digits code = true /\ code <> EmptyString
  /\ PyStr.strip label <> EmptyString.
Proof.
  unfold match_label. destruct (PyStr.startswith _ _); [|done].
  destruct (span_digits _) as [digits rest] eqn:Hspan.
  destruct (PyStr.truthy digits) eqn:Hd; [|done].
  destruct (PyStr.lstrip rest) as [|e rest'] eqn:Hrest; [done|].
  destruct (Ascii.eqb_spec e "=") as [->|He];
    [|by destruct e as [[] [] [] [] [] [] [] []]].
  destruct (spaces_dot_plus rest') as [g|] eqn:Hg; [|done].
  intros [= <- <-].
  apply span_digits_spec in Hspan as [Hdigits Hsplit].
  split; [done|]. split; [by destruct digits|].
  assert (Hsuffix : exists pre, PyStr.strip l = pre +:+ rest').
  { destruct (drop_suffix 6 (PyStr.strip l)) as (p1 & H1).
    destruct (lstrip_suffix (drop 6 (PyStr.strip l))) as (p2 & H2).
    destruct (lstrip_suffix rest) as (p3 & H3).
    exists (p1 +:+ p2 +:+ digits +:+ p3 +:+ "=").
    rewrite H1 at 1. rewrite H2 at 1. rewrite Hsplit at 1. rewrite H3 at 1.
    rewrite Hrest. rewrite !append_assoc. done. }
  destruct Hsuffix as (pre & Hpre).
  destruct rest' as [|c0 r0]; [done|].
  pose proof (stripped_suffix_not_blank l pre _ Hpre ltac:(done)) as Hnb.
  destruct (spaces_dot_plus_not_blank _ Hnb) as (c & r & Hc & Hsp).
  rewrite Hc in Hg. injection Hg as <-. by apply strip_starts_nonspace.
Qed.
(** Every event type [parse_event_types] builds has a code of digits that
    is not empty, a level equal to the length of the code, its root
    category as category -- a number, so that the four classes never meet
    the [ValueError] branch -- and a label that is stripped and not empty. *)
Theorem parse_event_type_line_shape (line : string) (et : CAMEOEventType) :
  parse_event_type_line line = Some et ->
  CsvParser.all_digits (code et) = true
  /\ code et <> EmptyString
  /\ level et = len (code et)
  /\ category et = Some (root_category et)
  /\ is_Some (PyStr.int (root_category et))
  /\ label et <> EmptyString
  /\ PyStr.strip (label et) = label et.
Proof.
  unfold parse_event_type_line.
  destruct (PyStr.startswith _ _); [|done]. cbn [negb].
  destruct (match_label _) as [[c l]|] eqn:Hm; [|done].
  apply match_label_spec in Hm as (Hdigits & Hne & Hlabel).
  intros [= <-]. cbn [code level category label]. unfold root_category. cbn [code].
  rewrite (strip_digits c Hdigits).
  split; [done|]. split; [done|]. split; [done|]. split; [done|].
  split; [|split; [done|apply strip_idem]].
  apply int_of_digits.
  - destruct (2 <=? len c)%Z; [by apply all_digits_take|done].
  - destruct (2 <=? len c)%Z eqn:E; [|done].
    destruct c as [|? [|? ?]]; done.
Qed.
Lemma split_once_no_sep sep s c : c ∈ chars (split_once sep s).1 -> c <> sep.
Proof.
  induction s as [|d s IH]; cbn; intros Hc; [by apply elem_of_nil in Hc|].
  destruct (Ascii.eqb_spec d sep) as [->|Hd]; [by apply elem_of_nil in Hc|].
  destruct (split_once sep s) as [a b]. cbn in *.
  apply elem_of_cons in Hc as [->|Hc]; [done|by apply IH].
Qed.
Lemma split_once_join sep s a b :
  split_once sep s = (a, Some b) -> s = a +:+ String sep b.
Proof.
  revert a. induction s as [|d s IH]; cbn; intros a; [done|].
  destruct (Ascii.eqb_spec d sep) as [->|Hd]; [by intros [= <- <-]|].
  destruct (split_once sep s) as [a' b'] eqn:Hs. intros [= <- ->].
  cbn. by rewrite (IH a' eq_refl).
Qed.
(** A line is read as an option or as an event type, never as both.  An
    option is cut at the first [=] of the stripped line: its code holds no
    [=], code and label are stripped, and no description is set. *)
Theorem parse_option_line_shape (line : string) (opt : Option.CAMEOOption) :
  parse_option_line line = Some opt ->
  parse_event_type_line line = None
  /\ ("="%char ∉ chars (Option.code opt))
  /\ (exists code label,
        PyStr.strip line = code +:+ "=" +:+ label
        /\ Option.code opt = PyStr.strip code
        /\ Option.label opt = PyStr.strip label)
  /\ Option.description opt = None.
Proof.
  unfold parse_option_line, parse_event_type_line.
  destruct (PyStr.truthy _); [|done].
  destruct (PyStr.startswith "LABEL:" _); [done|].
  destruct (PyStr.startswith "//" _); [done|]. cbn [negb andb].
  destruct (split_once "=" (PyStr.strip line)) as [c [l|]] eqn:Hs; [|done].
  intros [= <-]. cbn [Option.code Option.label Option.description].
  split; [done|]. split; [|split; [|done]].
  - intros Hin%elem_of_strip.
    assert (c = (split_once "=" (PyStr.strip line)).1) as -> by by rewrite Hs.
    by apply split_once_no_sep in Hin.
  - exists c, l. by rewrite (split_once_join _ _ _ _ Hs).
Qed.
(** Every verb [_parse_verb_line] builds has a pattern that is stripped and
    not empty, and a stripped code that is never one of the markers [---]
    and [###] (the code is empty for them); its level is the length of the
    code, it has a parent code -- the code without its last character --
    exactly when the code has more than two characters, it is a root
    exactly at level 2, and its label is its metadata. *)
Theorem parse_verb_line_shape (line : string) (v : Verb.CAMEOVerb) :
  _parse_verb_line line = Some v ->
  Verb.pattern v <> EmptyString
  /\ PyStr.strip (Verb.pattern v) = Verb.pattern v
  /\ PyStr.strip (Verb.code v) = Verb.code v
  /\ undefined_code (Verb.code v) = false
  /\ Verb.level v = len (Verb.code v)
  /\ Verb.parent_code v
     = (if (2 <? len (Verb.code v))%Z then Some (PyStr.drop_last (Verb.code v))
        else None)
  /\ Verb.is_root v = (Verb.level v =? 2)%Z
  /\ Verb.label v = Verb.metadata v.
Proof.
  unfold _parse_verb_line.
  set (pattern := match search_code line with
                  | Some m => PyStr.strip m.1
                  | None => PyStr.strip (split_once ";" line).1
                  end).
  assert (Hpattern : PyStr.strip pattern = pattern).
  { unfold pattern. destruct (search_code line); apply strip_idem. }
  clearbody pattern.
  destruct (PyStr.truthy pattern) eqn:Htruthy; [|done]. cbn [negb].
  destruct (search_code line) as [[pre g]|]; cbn [fmap option_fmap option_map snd].
  - destruct (undefined_code (PyStr.strip g)) eqn:Hundef.
    + intros [= <-]. cbn. repeat split; try done. by destruct pattern.
    + intros [= <-]. cbn [Verb.pattern Verb.code Verb.level Verb.parent_code
                          Verb.is_root Verb.label Verb.metadata
                          Events.truthy_str Events.or_else _get_verb_level].
      destruct (PyStr.truthy (PyStr.strip g)) eqn:Hg; cbn [negb orb andb].
      * rewrite Hundef. rewrite strip_idem.
        repeat split; try done. by destruct pattern.
      * destruct (PyStr.strip g); [|done].
        repeat split; try done. by destruct pattern.
  - intros [= <-]. cbn. repeat split; try done. by destruct pattern.
Qed.

End LineFacts.

(** ** [src/ingestion/schema_validator.py]: acceptance *)
Section ValidatorFacts.
Import SchemaValidator ValidatorRuns Readings.
Lemma run_checks_accepts cs df errors :
  run_checks cs df errors = (true, []) ->
  errors = [] /\ Forall (fun c => c df = Returned []) cs.
Proof.
  revert errors. induction cs as [|c cs IH]; intros errors; simpl.
  - destruct errors; [done|]. discriminate.
  - destruct (c df) as [fs|e] eqn:Hc; [|discriminate].
    intros [[-> ->]%app_eq_nil Hcs]%IH. by split; [|constructor].
Qed.
Lemma mem_elem_of x l : mem x l = true <-> x ∈ l.
Proof.
  unfold mem. induction l as [|y l IH]; cbn; [by rewrite elem_of_nil|].
  rewrite orb_true_iff, IH, elem_of_cons.
  destruct (String.eqb_spec x y); split; intros [?|?]; auto; done.
Qed.
Lemma filter_nil_Forall {A} (p : A -> bool) l :
  List.filter p l = [] -> Forall (fun x => p x = false) l.
Proof.
  induction l as [|x l IH]; cbn; [constructor|].
  destruct (p x) eqn:E; [done|]. intros H. constructor; auto.
Qed.
Lemma count_of_elem x l : x ∈ l -> (0 < count_of x l)%nat.
Proof.
  unfold count_of. induction l as [|y l IH]; [by intros ?%elem_of_nil|].
  intros [->|H]%elem_of_cons; cbn.
  - rewrite String.eqb_refl. cbn. lia.
  - destruct (String.eqb x y); cbn; [lia|auto].
Qed.
Lemma count_of_cons x y l :
  count_of x (y :: l) = ((if String.eqb x y then 1 else 0) + count_of x l)%nat.
Proof. unfold count_of. cbn. by destruct (String.eqb x y). Qed.
Lemma no_duplicates_NoDup (l : list string) :
  Forall (fun c => Nat.ltb 1 (count_of c l) = false) l -> NoDup l.
Proof.
  induction l as [|x l IH]; [constructor|].
  intros [Hx Hl]%Forall_cons. apply Nat.ltb_ge in Hx.
  rewrite count_of_cons, String.eqb_refl in Hx.
  constructor.
  - intros Hin%count_of_elem. lia.
  - apply IH. eapply Forall_impl; [exact Hl|]. intros y Hy. cbv beta in *.
    apply Nat.ltb_ge in Hy. apply Nat.ltb_ge. rewrite count_of_cons in Hy. lia.
Qed.
(** What [validate] accepts is sound for the header and the sample: 106
    columns, every required field among them, no column name twice, no
    event identifier twice in the sample, and a sample that is not empty. *)
Theorem validate_accepts_sound (df : DataFrame) :
  validate (Readable df) = (true, []) ->
  length (columns df) = 106%nat
  /\ Forall (fun f => f ∈ names df) REQUIRED_FIELDS
  /\ NoDup (names df)
  /\ (forall c, column_of "eventid" df = Some c -> dup_count c = 0%nat)
  /\ (0 < nrows df)%nat.
Proof.
  intros [_ Hall]%run_checks_accepts. unfold checks in Hall.
  repeat match goal with
         | H : Forall _ (_ :: _) |- _ => apply Forall_cons in H as [? H]
         end.
  split; [|split; [|split; [|split]]].
  - match goal with H : check_field_count df = _ |- _ => revert H end.
    unfold check_field_count, names. rewrite length_fmap.
    destruct (Nat.eqb_spec (length (columns df)) EXPECTED_FIELD_COUNT); [done|].
    discriminate.
  - match goal with H : check_required df = _ |- _ => revert H end.
    unfold check_required. destruct (List.filter _ _) eqn:Hf; [|discriminate].
    intros _. apply filter_nil_Forall in Hf.
    eapply Forall_impl; [exact Hf|]. cbn. intros f Hm.
    apply negb_false_iff in Hm. by apply mem_elem_of.
  - match goal with H : check_duplicates df = _ |- _ => revert H end.
    unfold check_duplicates. destruct (List.filter _ _) eqn:Hf; [|discriminate].
    intros _. by apply no_duplicates_NoDup, filter_nil_Forall.
  - intros c Hc.
    match goal with H : check_event_ids df = _ |- _ => revert H end.
    unfold check_event_ids. rewrite Hc.
    destruct (Nat.ltb_spec 0 (dup_count c)); [discriminate|]. intros _. lia.
  - match goal with H : check_completeness df = _ |- _ => revert H end.
    unfold check_completeness, overall_complete.
    destruct (Nat.ltb_spec 0 (nrows df * length (columns df))); [intros _; lia|].
    discriminate.
Qed.
Lemma empty_range field lo hi mk df :
  Forall (fun c => no_cells c.2) (columns df) ->
  check_range field lo hi mk df = Returned [].
Proof.
  intros Hall. unfold check_range. destruct (column_of field df) as [c|] eqn:Hc; [|done].
  apply get_elem_of in Hc. rewrite Forall_forall in Hall. apply Hall in Hc.
  by destruct c; cbn in Hc; subst.
Qed.
(** A file that holds a header and no row is never valid: the data checks
    find nothing on it, but completeness is 0 and the completeness check
    reports it; all that is reported is about the header or about
    completeness. *)
Theorem validate_header_only (df : DataFrame) :
  nrows df = 0%nat ->
  Forall (fun c => no_cells c.2) (columns df) ->
  exists findings,
    validate (Readable df) = (false, findings)
    /\ LowCompleteness 0 ∈ findings
    /\ Forall header_finding findings.
Proof.
  intros Hrows Hall.
  assert (Hids : check_event_ids df = Returned []).
  { unfold check_event_ids. destruct (column_of "eventid" df) as [c|] eqn:Hc; [|done].
    apply get_elem_of in Hc. rewrite Forall_forall in Hall. apply Hall in Hc.
    by destruct c; cbn in Hc; subst. }
  assert (Hty : check_ev_type df = Returned []).
  { unfold check_ev_type. destruct (column_of "EV_TYPE" df) as [c|] eqn:Hc; [|done].
    apply get_elem_of in Hc. rewrite Forall_forall in Hall. apply Hall in Hc.
    by destruct c; cbn in Hc; subst. }
  assert (Hcomp : check_completeness df = Returned [LowCompleteness 0]).
  { unfold check_completeness, overall_complete. by rewrite Hrows. }
  assert (Hcrit : check_critical df = Returned []).
  { unfold check_critical. f_equal. cbn. unfold critical_field. rewrite Hrows.
    by repeat case_match. }
  unfold validate, checks. cbn [run_checks].
  unfold check_year, check_month, check_day.
  rewrite Hids, !empty_range, Hty, Hcomp, Hcrit by done.
  unfold check_field_count, check_required, check_duplicates.
  cbn [run_checks app]. rewrite !app_nil_r.
  set (fs := ((_ ++ _) ++ _) ++ [LowCompleteness 0]).
  exists fs. split; [|split].
  - assert (Hne : fs <> []) by (subst fs; by intros [_ ?]%app_eq_nil).
    clearbody fs. by destruct fs.
  - subst fs. apply elem_of_app. right. by apply list_elem_of_singleton.
  - subst fs. repeat apply Forall_app_2; repeat case_match; by repeat constructor.
Qed.

End ValidatorFacts.

(** ** [src/ingestion/csv_parser.py]: what a row becomes *)
Section ParserShapes.
Import Events CsvParser ParserRuns Readings.
Variable int_of_float : string -> outcome Z.
Variable float_of : string -> option pyfloat.

Local Abbreviation _safe_int := (_safe_int int_of_float).
Local Abbreviation _parse_actor := (_parse_actor int_of_float float_of).
Local Abbreviation _parse_location := (_parse_location int_of_float float_of).
Local Abbreviation _parse_impact := (_parse_impact int_of_float).
Local Abbreviation _parse_row := (_parse_row int_of_float float_of).
Local Abbreviation _extract_properties := (_extract_properties int_of_float).
Local Abbreviation process_row := (process_row int_of_float float_of).
Local Abbreviation step := (step int_of_float float_of).

Ltac run_binds :=
  unfold mbind, outcome_bind, obind, mret, outcome_ret in *.

Lemma safe_get_strip (r : row) (field value : string) :
  _safe_get r field = Some value -> PyStr.strip value = value.
Proof.
  unfold _safe_get. destruct (r !! field) as [[|s|t]|]; try done.
  - case_bool_decide; [done|]. intros [= <-]. apply strip_idem.
  - intros [= <-]. apply strip_idem.
Qed.
(** What [_safe_get] returns is the stripped text of a cell that is
    neither null nor one of the sentinels. *)
Theorem safe_get_stripped (r : row) (field value : string) :
  _safe_get r field = Some value ->
  PyStr.strip value = value
  /\ (exists text, (r !! field = Some (CStr text) \/ r !! field = Some (CScalar text))
                   /\ value = PyStr.strip text)
  /\ (forall text, r !! field = Some (CStr text) -> Some text ∉ MISSING_VALUES).
Proof.
  unfold _safe_get. destruct (r !! field) as [[|s|t]|]; try done.
  - case_bool_decide; [done|]. intros [= <-].
    split; [apply strip_idem|]. split; [eauto|]. by intros ? [= <-].
  - intros [= <-]. split; [apply strip_idem|]. split; [eauto|]. done.
Qed.
Lemma or_str_truthy a b c :
  truthy_str a || truthy_str b || truthy_str c = true ->
  truthy_str (or_str c (or_str b a)) = true.
Proof.
  unfold or_str.
  destruct (truthy_str c) eqn:Hc; [done|].
  destruct (truthy_str b) eqn:Hb; [done|].
  by rewrite !orb_false_r.
Qed.
(** Every Actor [_parse_actor] builds has the role it was asked for and a
    primary name that is not empty, so the loader's guard on the name lets
    it through; the fields of the initiator are set for the prefix [INI]
    only, and the human indicator for [TAR] and [VIC] only. *)
Theorem parse_actor_named (r : row) (pfx : string) (role0 : ActorRole) (a : Actor) :
  _parse_actor r pfx role0 = Returned (Some a) ->
  role a = role0
  /\ truthy_str (primary_name a) = true
  /\ (pfx <> "INI" ->
      is_known a = None /\ ambiguity a = None
      /\ num_participants a = None /\ num_armed a = None)
  /\ (pfx <> "TAR" -> pfx <> "VIC" -> human_indicator a = None).
Proof.
  unfold CsvParser._parse_actor.
  destruct (negb _) eqn:Hany; [done|]. apply negb_false_iff in Hany.
  run_binds.
  destruct (String.eqb_spec pfx "INI") as [Hini|Hini];
    destruct (String.eqb_spec pfx "TAR") as [Htar|Htar];
    destruct (String.eqb_spec pfx "VIC") as [Hvic|Hvic];
    intros H; repeat case_match; simplify_eq; cbn;
    (split; [done|]); (split; [by apply or_str_truthy|]); done.
Qed.
(** Every Location [_parse_location] builds has a name or a country that is
    not empty: its [display_name] is the name under which the loader keys
    it, and never the text Unknown Location by default. *)
Theorem parse_location_keyed (r : row) (l : Location) :
  _parse_location r = Returned (Some l) ->
  or_str (name l) (country l) = Some (display_name l)
  /\ PyStr.truthy (display_name l) = true
  /\ name l = _safe_get r "GP3" /\ country l = _safe_get r "country".
Proof.
  unfold CsvParser._parse_location.
  destruct (negb _ && negb _) eqn:Hany; [done|].
  run_binds. intros H. repeat case_match; simplify_eq. cbn.
  unfold display_name, or_str, or_else. cbn.
  destruct (_safe_get r "GP3") as [n|], (_safe_get r "country") as [c|]; cbn in *;
    repeat case_match; simplify_eq; done.
Qed.
(** [_parse_impact] builds an Impact only from a row with a non-zero count
    among killed participants, killed armed, injured, arrests and damage:
    the Impact it returns has one, and when it returns none all five are
    missing or zero -- whatever the detailed injury count says. *)
Theorem parse_impact_counts (r : row) (res : option Impact) :
  _parse_impact r = Returned res ->
  match res with
  | Some i =>
      truthy_int (killed_participants i) || truthy_int (killed_armed i)
      || truthy_int (injured i) || truthy_int (arrests i)
      || truthy_int (property_damaged i) = true
  | None =>
      Forall (fun field => exists v, _safe_int r field = Returned v
                                     /\ truthy_int v = false)
        ["N_KILLED_P"; "N_KILLED_A"; "N_INJURD"; "arrests"; "property_damaged"]
  end.
Proof.
  unfold CsvParser._parse_impact. run_binds.
  destruct (_safe_int r "N_KILLED_P") as [kp|] eqn:E1; [|done].
  destruct (_safe_int r "N_KILLED_A") as [ka|] eqn:E2; [|done].
  destruct (_safe_int r "N_INJURD") as [inj|] eqn:E3; [|done].
  destruct (_safe_int r "arrests") as [arr|] eqn:E4; [|done].
  destruct (_safe_int r "property_damaged") as [dmg|] eqn:E5; [|done].
  destruct (negb _) eqn:Hany.
  - intros [= <-]. apply negb_true_iff in Hany.
    rewrite !orb_false_iff in Hany. destruct Hany as [[[[? ?] ?] ?] ?].
    repeat constructor; eauto.
  - apply negb_false_iff in Hany.
    destruct (_safe_int r "N_INJURD_D") as [d|]; [|done]. by intros [= <-].
Qed.
(** [_extract_properties] only assigns entries of [properties]. *)
Lemma extract_properties_keeps {A} (f : Event -> A) r e e' :
  (forall k v ev, f (set_property k v ev) = f ev) ->
  _extract_properties r e = Returned e' -> f e' = f e.
Proof.
  intros Hf. unfold CsvParser._extract_properties.
  generalize numeric_fields as nf. generalize sparse_fields as sf.
  intros sf nf.
  set (e0 := foldl _ e sf).
  assert (He0 : f e0 = f e).
  { subst e0. revert e. induction sf as [|fd sf IH]; intros e; simpl; [done|].
    rewrite IH. by destruct (_safe_get r fd). }
  rewrite <- He0. clearbody e0. clear He0.
  assert (Hgen : forall acc,
             foldl (fun acc field =>
                      ev ← acc; value ← _safe_int r field;
                      mret (match value with
                            | Some z => set_property field (PInt z) ev
                            | None => ev
                            end)) acc nf = Returned e' ->
             exists a, acc = Returned a /\ f e' = f a).
  { induction nf as [|fd nf IH]; intros acc; simpl.
    - intros ->. eauto.
    - intros H. apply IH in H as (a & Ha & Hid).
      destruct acc as [b|]; [|done]. exists b. split; [done|].
      run_binds.
      destruct (CsvParser._safe_int int_of_float r fd) as [[z|]|]; simplify_eq; [|done].
      by rewrite Hid, Hf. }
  intros H. apply Hgen in H as (a & Ha & Hid). by simplify_eq.
Qed.
(** The keys [_extract_properties] assigns come from its two lists. *)
Lemma extract_properties_keys r e e' :
  _extract_properties r e = Returned e' ->
  (NoDup (properties e).*1 -> NoDup (properties e').*1)
  /\ forall k, k ∈ (properties e').*1 ->
               k ∈ (properties e).*1 \/ k ∈ sparse_fields \/ k ∈ numeric_fields.
Proof.
  unfold CsvParser._extract_properties.
  generalize numeric_fields as nf. generalize sparse_fields as sf.
  intros sf nf.
  set (e0 := foldl _ e sf).
  assert (He0 : (NoDup (properties e).*1 -> NoDup (properties e0).*1)
                /\ forall k, k ∈ (properties e0).*1 ->
                             k ∈ (properties e).*1 \/ k ∈ sf).
  { subst e0. revert e. induction sf as [|fd sf IH]; intros e; simpl; [by auto|].
    destruct (IH (match _safe_get r fd with
                  | Some value => set_property fd (PStr value) e
                  | None => e
                  end)) as [IH1 IH2].
    split.
    - intros Hnd. apply IH1. destruct (_safe_get r fd); [|done].
      by apply NoDup_keys_set.
    - intros k Hk. apply IH2 in Hk as [Hk|Hk]; [|right; by apply elem_of_cons; right].
      destruct (_safe_get r fd); [|by left]. cbn in Hk.
      apply keys_set in Hk as [->|Hk]; [right; apply elem_of_cons; by left|by left]. }
  clearbody e0.
  assert (Hgen : forall acc,
             foldl (fun acc field =>
                      ev ← acc; value ← _safe_int r field;
                      mret (match value with
                            | Some z => set_property field (PInt z) ev
                            | None => ev
                            end)) acc nf = Returned e' ->
             exists a, acc = Returned a
               /\ (NoDup (properties a).*1 -> NoDup (properties e').*1)
               /\ forall k, k ∈ (properties e').*1 ->
                            k ∈ (properties a).*1 \/ k ∈ nf).
  { induction nf as [|fd nf IH]; intros acc; simpl.
    - intros ->. eexists. split; [done|]. split; auto.
    - intros H. apply IH in H as (a & Ha & Hnd & Hkeys).
      destruct acc as [b|]; [|done]. exists b. split; [done|].
      run_binds.
      destruct (CsvParser._safe_int int_of_float r fd) as [[z|]|]; simplify_eq.
      + split.
        * intros Hb. apply Hnd. by apply NoDup_keys_set.
        * intros k Hk. apply Hkeys in Hk as [Hk|Hk]; [|right; apply elem_of_cons; by right].
          cbn in Hk. apply keys_set in Hk as [->|Hk]; [right; apply elem_of_cons; by left|by left].
      + split; [done|]. intros k Hk. apply Hkeys in Hk as [Hk|Hk]; [by left|].
        right. apply elem_of_cons. by right. }
  intros H. apply Hgen in H as (a & Ha & Hnd & Hkeys). simplify_eq.
  destruct He0 as [He1 He2]. split; [auto|].
  intros k Hk. apply Hkeys in Hk as [Hk|Hk]; [|auto].
  apply He2 in Hk as [Hk|Hk]; auto.
Qed.
Lemma parse_row_extracts r ev :
  _parse_row r = Returned (Some ev) ->
  exists e0, _extract_properties r e0 = Returned ev
    /\ properties e0 = []
    /\ temporal e0 <> None
    /\ PyStr.truthy (event_id e0) = true
    /\ Some (event_id e0) = _safe_get r "eventid"
    /\ linked_from e0 = (if is_linked e0
                         then match _safe_get r "FROM_EID" with
                              | Some x => if PyStr.truthy x then [x] else []
                              | None => []
                              end
                         else [])
    /\ linked_to e0 = (if is_linked e0
                       then match _safe_get r "TO_EID" with
                            | Some x => if PyStr.truthy x then [x] else []
                            | None => []
                            end
                       else []).
Proof.
  unfold CsvParser._parse_row.
  destruct (_safe_get r "eventid") as [id|]; [|done].
  destruct (PyStr.truthy id) eqn:Hid; simpl; [|done].
  run_binds. intros H.
  repeat match type of H with
         | match ?x with _ => _ end = _ => destruct x eqn:?; [|done]
         end.
  injection H as <-.
  match goal with
  | Hex : CsvParser._extract_properties _ _ _ = Returned _ |- _ =>
      eexists; split; [exact Hex|]
  end. cbn.
  split; [done|]. split; [done|]. split; [done|]. split; [done|].
  match goal with
  | |- context [if ?b then _safe_get r "FROM_EID" else None] => destruct b
  end; cbn; [|done].
  split.
  - destruct (_safe_get r "FROM_EID") as [x|]; cbn; [|done]. by destruct (PyStr.truthy x).
  - destruct (_safe_get r "TO_EID") as [x|]; cbn; [|done]. by destruct (PyStr.truthy x).
Qed.
(** The sparse properties of a parsed Event have distinct keys, all from
    the two lists of [_extract_properties]: the linkage identifiers
    [FROM_EID] and [TO_EID] are never among them. *)
Theorem parse_row_property_keys (r : row) (ev : Event) :
  _parse_row r = Returned (Some ev) ->
  NoDup (properties ev).*1
  /\ (forall k, k ∈ (properties ev).*1 -> k ∈ sparse_fields ++ numeric_fields)
  /\ PyDict.get "FROM_EID" (properties ev) = None
  /\ PyDict.get "TO_EID" (properties ev) = None.
Proof.
  intros (e0 & Hex & Hprops & _)%parse_row_extracts.
  apply extract_properties_keys in Hex as [Hnd Hkeys]. rewrite Hprops in *.
  assert (Hin : forall k, k ∈ (properties ev).*1 -> k ∈ sparse_fields ++ numeric_fields).
  { intros k Hk. apply elem_of_app. apply Hkeys in Hk as [Hk|Hk]; [|done].
    by apply elem_of_nil in Hk. }
  split; [apply Hnd; constructor|]. split; [done|].
  assert (Hget : forall k, k ∉ sparse_fields ++ numeric_fields ->
                           PyDict.get k (properties ev) = None).
  { intros k Hk. clear -Hin Hk. induction (properties ev) as [|[k0 v0] d IH]; [done|].
    cbn. destruct (String.eqb_spec k0 k) as [->|Hne].
    - exfalso. apply Hk, Hin. cbn. apply elem_of_cons. by left.
    - apply IH. intros k' Hk'. apply Hin. cbn. apply elem_of_cons. by right. }
  split; apply Hget; intros Hk;
    unfold sparse_fields, numeric_fields in Hk; cbn in Hk;
    repeat (apply elem_of_cons in Hk as [Hk|Hk]; [discriminate Hk|]);
    by apply elem_of_nil in Hk.
Qed.
(** A parsed Event that is not flagged as linked names no linked Event,
    whatever its row holds; a flagged one names at most one in each
    direction, by an identifier that is stripped and not empty.  The
    temporal information is always there. *)
Theorem parse_row_links (r : row) (ev : Event) :
  _parse_row r = Returned (Some ev) ->
  (is_linked ev = false -> get_all_linked_events ev = [])
  /\ (length (linked_from ev) <= 1 /\ length (linked_to ev) <= 1)
  /\ Forall (fun x => PyStr.truthy x = true /\ PyStr.strip x = x)
       (get_all_linked_events ev)
  /\ temporal ev <> None.
Proof.
  intros (e0 & Hex & _ & Htemp & _ & _ & Hfrom & Hto)%parse_row_extracts.
  rewrite <- (extract_properties_keeps temporal r e0 ev) in Htemp by done.
  rewrite <- (extract_properties_keeps linked_from r e0 ev) in Hfrom by done.
  rewrite <- (extract_properties_keeps linked_to r e0 ev) in Hto by done.
  rewrite <- (extract_properties_keeps is_linked r e0 ev) in Hfrom, Hto by done.
  unfold get_all_linked_events. rewrite Hfrom, Hto.
  destruct (is_linked ev).
  - split; [done|].
    destruct (_safe_get r "FROM_EID") as [x|] eqn:Hx;
      destruct (_safe_get r "TO_EID") as [y|] eqn:Hy;
      try destruct (PyStr.truthy x) eqn:Tx; try destruct (PyStr.truthy y) eqn:Ty;
      cbn; (split; [split; lia|]); (split; [|done]);
      repeat constructor; try done;
      match goal with
      | H : _safe_get r _ = Some ?v |- PyStr.strip ?v = ?v =>
          by apply safe_get_strip in H
      end.
  - split; [done|]. split; [cbn; lia|]. split; [constructor|done].
Qed.
Lemma count_types_from name (errors : list error_info) d0 :
  PyDict.get name
    (foldl (fun error_types error =>
              let error_type := exn_name (error_type error) in
              PyDict.set error_type
                (default 0%nat (PyDict.get error_type error_types) + 1)%nat
                error_types) d0 errors)
  = match occurrences name errors with
    | O => PyDict.get name d0
    | n => Some (default 0%nat (PyDict.get name d0) + n)%nat
    end.
Proof.
  revert d0. induction errors as [|e errors IH]; intros d0; [done|].
  cbn [foldl]. rewrite IH. unfold occurrences. cbn [List.filter].
  destruct (String.eqb_spec (exn_name (error_type e)) name) as [<-|Hne].
  - rewrite get_set_eq. cbn [length default].
    destruct (length _); cbn; f_equal; lia.
  - by rewrite get_set_ne.
Qed.
Lemma sum_list_set k (d : list (string * nat)) :
  sum_list (PyDict.set k (default 0 (PyDict.get k d) + 1) d).*2 = S (sum_list d.*2).
Proof.
  induction d as [|[k0 v0] d IH]; cbn; [done|].
  destruct (String.eqb_spec k0 k) as [->|Hne]; cbn; [lia|]. rewrite IH. lia.
Qed.
Lemma count_types_sum (errors : list error_info) d0 :
  sum_list
    (foldl (fun error_types error =>
              let error_type := exn_name (error_type error) in
              PyDict.set error_type
                (default 0%nat (PyDict.get error_type error_types) + 1)%nat
                error_types) d0 errors).*2
  = (sum_list d0.*2 + length errors)%nat
  /\ (NoDup d0.*1 ->
      NoDup (foldl (fun error_types error =>
              let error_type := exn_name (error_type error) in
              PyDict.set error_type
                (default 0%nat (PyDict.get error_type error_types) + 1)%nat
                error_types) d0 errors).*1).
Proof.
  revert d0. induction errors as [|e errors IH]; intros d0; [cbn; split; [lia|done]|].
  cbn [foldl].
  match goal with
  | |- context [foldl _ ?d errors] => destruct (IH d) as [IH1 IH2]
  end.
  split.
  - rewrite sum_list_set in IH1. etransitivity; [exact IH1|]. cbn [length]. lia.
  - intros Hd. apply IH2. by apply NoDup_keys_set.
Qed.
(** [get_error_summary] counts every logged error once: without errors it
    holds the total 0 and nothing else; otherwise the classes are distinct,
    each with the number of its errors, the numbers add up to the total,
    and the sample is the first five errors. *)
Theorem get_error_summary_counts (self : parser) :
  let summary := get_error_summary self in
  total_errors summary = length (errors self)
  /\ (errors self = [] ->
      error_types summary = None /\ sample_errors summary = None)
  /\ (errors self <> [] ->
      exists types,
        error_types summary = Some types
        /\ NoDup types.*1
        /\ (forall name,
              PyDict.get name types = tally (occurrences name (errors self)))
        /\ sum_list types.*2 = length (errors self)
        /\ sample_errors summary = Some (take 5 (errors self))).
Proof.
  unfold get_error_summary. destruct (errors self) as [|e l] eqn:He; cbn zeta.
  - done.
  - split; [done|]. split; [done|]. intros _. eexists. split; [done|].
    unfold count_types.
    destruct (count_types_sum (e :: l) []) as [Hsum Hnd].
    split; [apply Hnd; constructor|]. split; [|split; [exact Hsum|done]].
    intros name. rewrite count_types_from. unfold tally. cbn [PyDict.get default].
    by destruct (occurrences name (e :: l)).
Qed.
(** *** Invariants of [parse], beyond the counters *)
Lemma process_row_yield p idx r p' ev :
  process_row p idx r = (p', Some ev) ->
  _parse_row r = Returned (Some ev) /\ errors p' = errors p
  /\ skipped_count p' = skipped_count p.
Proof.
  unfold CsvParser.process_row.
  destruct (CsvParser._parse_row _ _ r) as [[e|]|]; intros [= <- <-]; done.
Qed.
Lemma process_row_errors p idx r :
  let p' := (process_row p idx r).1 in
  (errors p' = errors p /\ skipped_count p <= skipped_count p')
  \/ (exists e, errors p' = errors p ++ [mkError idx (_safe_get r "eventid") e]
                /\ _parse_row r = Raised e
                /\ skipped_count p' = S (skipped_count p)).
Proof.
  unfold CsvParser.process_row.
  destruct (CsvParser._parse_row _ _ r) as [[e|]|e] eqn:E; cbn.
  - left. split; [done|lia].
  - left. split; [done|lia].
  - right. by exists e.
Qed.
Lemma parse_row_identified r ev :
  _parse_row r = Returned (Some ev) ->
  PyStr.truthy (event_id ev) = true
  /\ PyStr.strip (event_id ev) = event_id ev
  /\ temporal ev <> None.
Proof.
  intros (e0 & Hex & _ & Htemp & Hid & Hget & _)%parse_row_extracts.
  rewrite <- (extract_properties_keeps temporal r e0 ev) in Htemp by done.
  rewrite <- (extract_properties_keeps event_id r e0 ev) in Hid, Hget by done.
  split; [done|]. split; [|done]. symmetry in Hget. by apply safe_get_strip in Hget.
Qed.
(** Throughout a run of [parse]: every Event yielded has an identifier that
    is stripped and not empty, and temporal information; every entry of
    the error log stands for a row counted as skipped, under the index of
    a row already read; and the rows still to read are the rest of the
    file. *)
Theorem parse_yields_identified (rows : list row) (g : generator) :
  rtc step (CsvParser.start rows) g ->
  Forall (fun ev => PyStr.truthy (event_id ev) = true
                    /\ PyStr.strip (event_id ev) = event_id ev
                    /\ temporal ev <> None) (yielded g)
  /\ length (errors (self g)) <= skipped_count (self g)
  /\ Forall (fun e => row_index e < processed g) (errors (self g))
  /\ pending g = drop (processed g) (imap pair rows).
Proof.
  intros Hreach. pattern g. revert g Hreach. apply rtc_ind_r.
  { cbn. repeat split; constructor. }
  intros g g' _ Hstep (Hy & He & Hidx & Hpend). destruct Hstep as [g g' Hadv].
  apply advance_inv in Hadv as (idx & r & Hpend' & Hproc & Hself & Hyield).
  assert (Hhead : imap pair rows !! processed g = Some (idx, r)).
  { rewrite <- (Nat.add_0_r (processed g)), <- lookup_drop, <- Hpend, Hpend'. done. }
  assert (idx = processed g) as ->.
  { rewrite list_lookup_imap in Hhead.
    destruct (rows !! processed g); cbn in Hhead; by simplify_eq. }
  split; [|split; [|split]].
  - rewrite Hyield. apply Forall_app. split; [done|].
    destruct (process_row (self g) (processed g) r) as [p' [ev|]] eqn:Hrow; cbn; [|constructor].
    apply process_row_yield in Hrow as [Hrow _].
    constructor; [by apply (parse_row_identified r)|constructor].
  - rewrite Hself.
    destruct (process_row_errors (self g) (processed g) r) as [[-> Hs]|(e & -> & _ & ->)].
    + lia.
    + rewrite length_app. cbn. lia.
  - rewrite Hself, Hproc.
    destruct (process_row_errors (self g) (processed g) r) as [[-> Hs]|(e & -> & _ & _)].
    + eapply Forall_impl; [exact Hidx|]. cbn. intros; lia.
    + apply Forall_app. split.
      * eapply Forall_impl; [exact Hidx|]. cbn. intros; lia.
      * repeat constructor.
  - rewrite Hproc. rewrite (drop_S _ (processed g, r) _ Hhead) in Hpend.
    rewrite Hpend' in Hpend. by injection Hpend.
Qed.

End ParserShapes.

(** ** [src/ingestion/neo4j_loader.py]: the schema *)
Section SchemaFacts.
Import Events Neo4jLoader Stores Readings.
Lemma add_constraint_data s c :
  nodes (add_constraint s c) = nodes s /\ edges (add_constraint s c) = edges s.
Proof. unfold add_constraint. by repeat case_match. Qed.
Lemma unique_in_same_nodes l k s s' :
  nodes s' = nodes s -> unique_in l k s' = unique_in l k s.
Proof.
  intros Hn.
  assert (Hf : forall v, find_nodes l k v s' = find_nodes l k v s)
    by (intros; by apply find_nodes_same_nodes).
  unfold unique_in. rewrite Hn. clear Hn.
  induction (nodes s) as [|n ns IH]; [done|]. cbn. rewrite IH. f_equal.
  destruct (nprops n !! k) as [v|]; [|done]. by rewrite Hf.
Qed.
Lemma add_constraint_constraints s c c' :
  c' ∈ constraints (add_constraint s c)
  <-> c' ∈ constraints s \/ (c' = c /\ unique_in c.1 c.2 s = true).
Proof.
  unfold add_constraint. destruct (decide (c ∈ constraints s)) as [Hin|Hin].
  - rewrite bool_decide_eq_true_2 by done.
    split; [by left|]. intros [H|[-> _]]; done.
  - rewrite bool_decide_eq_false_2 by done.
    destruct (unique_in c.1 c.2 s) eqn:Hu; cbn.
    + rewrite elem_of_app, list_elem_of_singleton. split.
      * intros [H|H]; [by left|by right].
      * intros [H|[H _]]; [by left|by right].
    + split; [by left|]. intros [H|[_ H]]; done.
Qed.
Lemma add_constraint_settled s c :
  c ∈ constraints s \/ unique_in c.1 c.2 s = false -> add_constraint s c = s.
Proof.
  unfold add_constraint. intros [H| ->].
  - by rewrite bool_decide_eq_true_2.
  - by case_bool_decide.
Qed.
Lemma add_constraints_spec (cs : list (string * string)) s :
  let s' := foldl add_constraint s cs in
  nodes s' = nodes s /\ edges s' = edges s
  /\ (forall c, c ∈ constraints s' <->
                c ∈ constraints s \/ (c ∈ cs /\ unique_in c.1 c.2 s = true)).
Proof.
  revert s. induction cs as [|c cs IH]; intros s; cbn zeta.
  - cbn. repeat split; try done. { by left. } intros [H|[H _]]; [done|].
    by apply elem_of_nil in H.
  - cbn [foldl]. destruct (IH (add_constraint s c)) as (Hn & He & Hc).
    destruct (add_constraint_data s c) as [Hn' He'].
    split; [congruence|]. split; [congruence|].
    intros c'. rewrite Hc, add_constraint_constraints, elem_of_cons.
    rewrite (unique_in_same_nodes _ _ s (add_constraint s c) Hn').
    split.
    + intros [[H|[-> H]]|[H1 H2]]; auto.
    + intros [H|[[->|H1] H2]]; auto.
Qed.
Lemma add_constraints_again (cs : list (string * string)) s :
  Forall (fun c => c ∈ constraints s \/ unique_in c.1 c.2 s = false) cs ->
  foldl add_constraint s cs = s.
Proof.
  induction cs as [|c cs IH]; [done|]. intros [Hc Hcs]%Forall_cons.
  cbn [foldl]. rewrite add_constraint_settled by done. by apply IH.
Qed.
(** [create_schema] can be run again: the second run changes nothing.  It
    never touches nodes or edges, keeps the constraints in force, and adds
    one of its own exactly when the data respect it -- a constraint the
    data break is skipped without a word. *)
Theorem create_schema_idempotent (s : store) :
  create_schema (create_schema s) = create_schema s
  /\ nodes (create_schema s) = nodes s
  /\ edges (create_schema s) = edges s
  /\ (forall c, c ∈ constraints (create_schema s) <->
                c ∈ constraints s
                \/ (c ∈ schema_constraints /\ unique_in c.1 c.2 s = true)).
Proof.
  unfold create_schema at 2 3 4 5.
  set (cs := [("Event", "eventId"); ("Actor", "actorId"); ("EventType", "cameoCode");
              ("Location", "locationId"); ("CAMEOActorType", "code")]).
  change schema_constraints with cs.
  destruct (add_constraints_spec cs s) as (Hn & He & Hc). cbn zeta in *.
  split; [|done].
  unfold create_schema. fold cs. apply add_constraints_again.
  apply Forall_forall. intros c Hin.
  rewrite (unique_in_same_nodes _ _ s _ Hn).
  destruct (unique_in c.1 c.2 s) eqn:Hu; [left|by right].
  apply Hc. by right.
Qed.

End SchemaFacts.

(** ** Linking an Event to its type *)
Section LinkFacts.
Import Events Neo4jLoader Stores Readings.
Lemma find_from_nil p i ns :
  Forall (fun n => p n = false) ns -> find_from p i ns = [].
Proof.
  revert i. induction ns as [|n ns IH]; intros i; [done|].
  intros [Hn Hns]%Forall_cons. cbn. rewrite Hn. auto.
Qed.
Lemma link_event_type_data s event :
  nodes (_link_event_type s event) = nodes s
  /\ constraints (_link_event_type s event) = constraints s.
Proof.
  unfold _link_event_type. repeat case_match; try done. apply merge_edges_nodes.
Qed.
(** [_link_event_type] looks for the code [str(event_type)], which has no
    leading zero: in a store whose EventType codes all start with 0, as the
    root categories 01 to 09 do, it links no Event to a type. *)
Theorem link_event_type_skips_zero_codes (s : store) (event : Event) :
  zero_codes s -> _link_event_type s event = s.
Proof.
  intros Hzero. unfold _link_event_type.
  destruct (event_type event) as [ty|]; [|done].
  destruct (Z.eqb_spec ty 0) as [->|Hty]; [done|]. cbn [negb].
  assert (Hnone : find_nodes "EventType" "cameoCode" (VStr (PyStr.of_Z ty)) s = []).
  { apply find_from_nil, Forall_forall. intros n Hn.
    unfold node_matches, has_prop.
    destruct (String.eqb_spec (nlabel n) "EventType") as [Hl|Hl]; [|done].
    destruct (nprops n !! "cameoCode") as [w|] eqn:Hw; [|done]. cbn.
    destruct (value_eqb w (VStr (PyStr.of_Z ty))) eqn:Heq; [|done].
    assert (w = VStr (PyStr.of_Z ty)) as ->.
    { destruct w; try done. cbn in Heq. apply String.eqb_eq in Heq. by subst. }
    pose proof (Hzero n _ Hn Hl Hw) as H0.
    by rewrite of_Z_no_leading_zero in H0. }
  rewrite Hnone. cbn.
  induction (find_nodes "Event" "eventId" (VStr (event_id event)) s) as [|e es IH]; [by destruct s|].
  done.
Qed.

End LinkFacts.

(** ** Statistics *)
Section StatsFacts.
Import Neo4jLoader Readings.
Lemma count_by_lookup {A} (key : A -> string) (l : list A) (k : string) :
  count_by key l !! k
  = tally (length (List.filter (fun x => String.eqb (key x) k) l)).
Proof.
  induction l as [|x l IH]; [done|]. cbn [count_by foldr List.filter].
  fold (count_by key l).
  destruct (String.eqb_spec (key x) k) as [<-|Hne].
  - rewrite lookup_insert_eq, IH. cbn [length].
    by destruct (length _).
  - by rewrite lookup_insert_ne.
Qed.
(** [get_stats] lists a label with the number of the nodes that carry it,
    and a relationship type with the number of its edges; a label or type
    that occurs nowhere is not listed. *)
Theorem get_stats_counts (s : store) (label : string) :
  node_counts (get_stats s) !! label
  = tally (length (List.filter (fun n => String.eqb (nlabel n) label) (nodes s)))
  /\ rel_counts (get_stats s) !! label
     = tally (length (List.filter (fun e => String.eqb (etype e) label) (edges s)))
  /\ (node_counts (get_stats s) !! label = None <->
      forall n, n ∈ nodes s -> nlabel n <> label).
Proof.
  unfold get_stats. cbn [node_counts rel_counts]. rewrite !count_by_lookup.
  split; [done|]. split; [done|].
  induction (nodes s) as [|n ns IH]; cbn.
  - split; [|done]. intros _ n Hn. by apply elem_of_nil in Hn.
  - destruct (String.eqb_spec (nlabel n) label) as [Hl|Hl]; cbn.
    + split; [done|]. intros H. exfalso. apply (H n); [|done]. apply elem_of_cons. by left.
    + rewrite IH. split.
      * intros H n' [->|Hn']%elem_of_cons; auto.
      * intros H n' Hn'. apply H. apply elem_of_cons. by right.
Qed.

End StatsFacts.

(** ** Loading the ontology *)
Section OntologyLoad.
Import Events Neo4jLoader Stores Readings.
Lemma elem_of_find_from p i ns j :
  j ∈ find_from p i ns <->
  exists n, i <= j /\ ns !! (j - i) = Some n /\ p n = true.
Proof.
  revert i. induction ns as [|n ns IH]; intros i; cbn.
  - rewrite elem_of_nil. split; [done|]. by intros (n & _ & ? & _).
  - assert (Hrest : j ∈ find_from p (S i) ns <->
                    exists n', i <= j /\ (n :: ns) !! (j - i) = Some n'
                               /\ p n' = true /\ j <> i).
    { rewrite IH. split.
      - intros (n' & Hle & Hl & Hp). exists n'. split; [lia|].
        split; [|split; [done|lia]].
        replace (j - i) with (S (j - S i)) by lia. done.
      - intros (n' & Hle & Hl & Hp & Hne). exists n'. split; [lia|].
        split; [|done]. replace (j - i) with (S (j - S i)) in Hl by lia. done. }
    destruct (p n) eqn:Hn.
    + rewrite elem_of_cons, Hrest. split.
      * intros [->|(n' & ? & ? & ? & ?)]; [|by eauto].
        exists n. rewrite Nat.sub_diag. done.
      * intros (n' & Hle & Hl & Hp).
        destruct (decide (j = i)) as [->|Hne]; [by left|]. right. eauto 6.
    + rewrite Hrest. split.
      * intros (n' & ? & ? & ? & ?). eauto.
      * intros (n' & Hle & Hl & Hp). exists n'.
        repeat split; try done. intros ->. rewrite Nat.sub_diag in Hl.
        cbn in Hl. congruence.
Qed.
Lemma elem_of_find_nodes l k v s j :
  j ∈ find_nodes l k v s <->
  exists n, nodes s !! j = Some n /\ node_matches l k v n = true.
Proof.
  unfold find_nodes. rewrite elem_of_find_from. rewrite Nat.sub_0_r.
  split; [intros (n & _ & ? & ?)|intros (n & ? & ?)]; exists n;
    repeat split; try done; lia.
Qed.
Lemma find_from_imap p (f : nat -> node -> node) i ns :
  (forall j n, p (f j n) = p n) ->
  find_from p i (imap f ns) = find_from p i ns.
Proof.
  revert f i. induction ns as [|n ns IH]; intros f i Hf; [done|].
  cbn. rewrite Hf, IH; [done|]. intros j n'. apply Hf.
Qed.
Lemma node_matches_set_props l k v kvs n :
  last_assign k kvs = None ->
  node_matches l k v (mkNode (nlabel n) (set_props kvs (nprops n)))
  = node_matches l k v n.
Proof.
  intros Hk. unfold node_matches, has_prop. cbn [nlabel nprops].
  by rewrite lookup_set_props, Hk.
Qed.
Lemma find_nodes_set_nodes l k v bound kvs s :
  last_assign k kvs = None ->
  find_nodes l k v (set_nodes bound kvs s) = find_nodes l k v s.
Proof.
  intros Hk. unfold find_nodes, set_nodes. cbn [nodes].
  apply find_from_imap. intros j n.
  case_bool_decide; [by apply node_matches_set_props|done].
Qed.
Lemma lookup_set_nodes bound kvs s i :
  nodes (set_nodes bound kvs s) !! i
  = (fun n => if bool_decide (i ∈ bound)
              then mkNode (nlabel n) (set_props kvs (nprops n)) else n)
    <$> nodes s !! i.
Proof. unfold set_nodes. cbn [nodes]. by rewrite list_lookup_imap. Qed.
(** One [MERGE ... SET] of an event type *)
Lemma event_type_statement_find v s et :
  find_nodes "EventType" "cameoCode" v (event_type_statement s et)
  = find_nodes "EventType" "cameoCode" v
      (merge_node "EventType" "cameoCode" (VStr (Cameo.code et)) [] s).1.
Proof.
  unfold event_type_statement.
  destruct (merge_node _ _ _ _ s) as [s1 bound]. cbn [fst].
  by apply find_nodes_set_nodes.
Qed.
Lemma event_type_statement_mono v s et :
  find_nodes "EventType" "cameoCode" v s
  `prefix_of` find_nodes "EventType" "cameoCode" v (event_type_statement s et).
Proof.
  rewrite event_type_statement_find. apply find_nodes_extends, merge_node_extends.
Qed.
Lemma event_type_statement_data s et :
  constraints (event_type_statement s et) = constraints s
  /\ edges (event_type_statement s et) = edges s
  /\ length (nodes s) <= length (nodes (event_type_statement s et)).
Proof.
  unfold event_type_statement.
  pose proof (merge_node_spec "EventType" "cameoCode" (Cameo.code et) [] s eq_refl) as Hspec.
  destruct (merge_node _ _ _ _ s) as [s1 bound].
  destruct Hspec as (_ & _ & He & Hc & Hcase). unfold set_nodes. cbn.
  rewrite length_imap. split; [done|]. split; [done|].
  destruct Hcase as [[_ ->]|[_ ->]]; [done|]. rewrite length_app. lia.
Qed.
Lemma event_type_statement_found s et :
  find_nodes "EventType" "cameoCode" (VStr (Cameo.code et)) (event_type_statement s et)
  <> [].
Proof.
  rewrite event_type_statement_find.
  pose proof (merge_node_spec "EventType" "cameoCode" (Cameo.code et) [] s eq_refl) as Hspec.
  destruct (merge_node _ _ _ _ s) as [s1 bound]. cbn [fst].
  by destruct Hspec as (<- & Hne & _).
Qed.
Lemma event_type_statement_unique s et :
  unique_key "EventType" "cameoCode" s ->
  unique_key "EventType" "cameoCode" (event_type_statement s et).
Proof.
  intros Hu v. rewrite event_type_statement_find.
  pose proof (merge_node_spec "EventType" "cameoCode" (Cameo.code et) [] s eq_refl) as Hspec.
  destruct (merge_node _ _ _ _ s) as [s1 bound]. cbn [fst].
  destruct Hspec as (_ & _ & _ & _ & [[_ ->]|[Hnil Hnodes]]); [apply Hu|].
  unfold find_nodes at 1. rewrite Hnodes, find_nodes_snoc.
  destruct (node_matches _ _ v _) eqn:Hm.
  - assert (v = VStr (Cameo.code et)) as ->.
    { unfold node_matches, has_prop in Hm. cbn in Hm.
      rewrite lookup_insert_eq in Hm. cbn in Hm. destruct v; try done.
      apply String.eqb_eq in Hm. by subst. }
    rewrite Hnil. cbn. lia.
  - rewrite app_nil_r. apply Hu.
Qed.
Lemma event_type_statement_others s et i n :
  nodes s !! i = Some n -> nlabel n <> "EventType" ->
  nodes (event_type_statement s et) !! i = Some n.
Proof.
  intros Hi Hl. unfold event_type_statement.
  pose proof (merge_node_spec "EventType" "cameoCode" (Cameo.code et) [] s eq_refl) as Hspec.
  destruct (merge_node _ _ _ _ s) as [s1 bound].
  destruct Hspec as (-> & _ & _ & _ & Hcase).
  rewrite lookup_set_nodes.
  assert (H1 : nodes s1 !! i = Some n).
  { destruct Hcase as [[_ ->]|[_ ->]]; [done|]. by apply lookup_app_l_Some. }
  rewrite H1. cbn. rewrite bool_decide_eq_false_2; [done|].
  intros (n' & Hn' & Hm)%elem_of_find_nodes.
  rewrite H1 in Hn'. injection Hn' as <-.
  unfold node_matches in Hm. apply andb_prop in Hm as [Hm _].
  by apply String.eqb_eq in Hm.
Qed.
(** Every node with the code carries the attributes of the event type. *)
Lemma event_type_statement_carries s et i n :
  i ∈ find_nodes "EventType" "cameoCode" (VStr (Cameo.code et)) (event_type_statement s et) ->
  nodes (event_type_statement s et) !! i = Some n ->
  carries (event_type_props et) n.
Proof.
  rewrite event_type_statement_find. unfold event_type_statement.
  pose proof (merge_node_spec "EventType" "cameoCode" (Cameo.code et) [] s eq_refl) as Hspec.
  destruct (merge_node _ _ _ _ s) as [s1 bound]. cbn [fst].
  destruct Hspec as (-> & _). intros Hi.
  rewrite lookup_set_nodes. rewrite bool_decide_eq_true_2 by done.
  destruct (nodes s1 !! i) as [n1|]; [|done]. intros [= <-].
  exact (set_props_idem (event_type_props et) (nprops n1)).
Qed.
Lemma event_type_statement_keeps s et et' i n :
  Cameo.code et' <> Cameo.code et ->
  i ∈ find_nodes "EventType" "cameoCode" (VStr (Cameo.code et)) s ->
  nodes s !! i = Some n ->
  nodes (event_type_statement s et') !! i = Some n.
Proof.
  intros Hne Hi Hn. unfold event_type_statement.
  pose proof (merge_node_spec "EventType" "cameoCode" (Cameo.code et') [] s eq_refl) as Hspec.
  destruct (merge_node _ _ _ _ s) as [s1 bound].
  destruct Hspec as (-> & _ & _ & _ & Hcase).
  rewrite lookup_set_nodes.
  assert (H1 : nodes s1 !! i = Some n).
  { destruct Hcase as [[_ ->]|[_ ->]]; [done|]. by apply lookup_app_l_Some. }
  rewrite H1. cbn. rewrite bool_decide_eq_false_2; [done|].
  intros (n' & Hn' & Hm')%elem_of_find_nodes.
  rewrite H1 in Hn'. injection Hn' as <-.
  apply elem_of_find_nodes in Hi as (n0 & Hn0 & Hm).
  rewrite Hn in Hn0. injection Hn0 as <-.
  unfold node_matches, has_prop in Hm, Hm'.
  apply andb_prop in Hm as [_ Hm]. apply andb_prop in Hm' as [_ Hm'].
  destruct (nprops n !! "cameoCode") as [w|]; [|done].
  destruct w; try done. cbn in Hm, Hm'.
  apply String.eqb_eq in Hm, Hm'. congruence.
Qed.
Lemma statements_found (ets : list Cameo.CAMEOEventType) s v :
  find_nodes "EventType" "cameoCode" v s <> [] ->
  find_nodes "EventType" "cameoCode" v (foldl event_type_statement s ets) <> [].
Proof.
  revert s. induction ets as [|et ets IH]; intros s Hne; [done|].
  cbn [foldl]. apply IH.
  destruct (event_type_statement_mono v s et) as [r ->].
  destruct (find_nodes _ _ v s); [done|discriminate].
Qed.
Lemma statements_spec (ets : list Cameo.CAMEOEventType) s :
  let s' := foldl event_type_statement s ets in
  (forall et, et ∈ ets ->
     find_nodes "EventType" "cameoCode" (VStr (Cameo.code et)) s' <> [])
  /\ (unique_key "EventType" "cameoCode" s -> unique_key "EventType" "cameoCode" s')
  /\ (forall i n, nodes s !! i = Some n -> nlabel n <> "EventType" ->
                  nodes s' !! i = Some n)
  /\ constraints s' = constraints s /\ edges s' = edges s
  /\ length (nodes s) <= length (nodes s').
Proof.
  revert s. induction ets as [|et ets IH]; intros s; cbn zeta.
  - cbn. repeat split; try done. intros et Het. by apply elem_of_nil in Het.
  - cbn [foldl].
    destruct (IH (event_type_statement s et)) as (Hf & Hu & Ho & Hc & He & Hl).
    destruct (event_type_statement_data s et) as (Hc' & He' & Hl').
    split; [|split; [|split; [|split; [|split]]]].
    + intros et' [->|Hin]%elem_of_cons; [|by apply Hf].
      apply statements_found, event_type_statement_found.
    + intros H. by apply Hu, event_type_statement_unique.
    + intros i n Hi Hn. apply Ho; [|done]. by apply event_type_statement_others.
    + congruence.
    + congruence.
    + lia.
Qed.
(** The statements of the hierarchy only merge edges. *)
Lemma parent_statement_data parent child s :
  nodes (parent_statement parent child s) = nodes s
  /\ constraints (parent_statement parent child s) = constraints s.
Proof. apply merge_edges_nodes. Qed.
Lemma hierarchy_statements_data (h : list (string * list string)) s :
  let s' := foldl (fun s entry =>
                     foldl (fun s child_code => parent_statement entry.1 child_code s)
                           s entry.2) s h in
  nodes s' = nodes s /\ constraints s' = constraints s.
Proof.
  revert s. induction h as [|[p cs] h IH]; intros s; [done|]. cbn [foldl fst snd].
  cbn zeta in *.
  match goal with |- context [foldl _ ?s0 h] => destruct (IH s0) as [-> ->] end.
  clear IH. revert s. induction cs as [|c cs IH]; intros s; [done|]. cbn [foldl].
  destruct (IH (parent_statement p c s)) as [-> ->]. apply parent_statement_data.
Qed.
(** After [_load_event_types] every listed event type has a node; codes
    that were unique stay unique; the nodes of other labels are as they
    were, at their places; and the constraints are untouched. *)
Theorem load_event_types_nodes
    (s : store) (event_types : list Cameo.CAMEOEventType)
    (hierarchy : list (string * list string)) :
  let s' := _load_event_types s event_types hierarchy in
  (forall et, et ∈ event_types ->
     find_nodes "EventType" "cameoCode" (VStr (Cameo.code et)) s' <> [])
  /\ (unique_key "EventType" "cameoCode" s -> unique_key "EventType" "cameoCode" s')
  /\ (forall i n, nodes s !! i = Some n -> nlabel n <> "EventType" ->
                  nodes s' !! i = Some n)
  /\ constraints s' = constraints s
  /\ length (nodes s) <= length (nodes s').
Proof.
  cbn zeta. unfold _load_event_types.
  destruct (statements_spec event_types s) as (Hf & Hu & Ho & Hc & _ & Hl).
  cbn zeta in *.
  destruct (hierarchy_statements_data hierarchy (foldl event_type_statement s event_types))
    as [Hn Hc'].
  cbn zeta in *.
  split; [|split; [|split; [|split]]].
  - intros et Het. rewrite (find_nodes_same_nodes _ _ _ _ _ Hn). by apply Hf.
  - intros H. eapply same_nodes_unique; [exact Hn|]. by apply Hu.
  - intros i n Hi Hlab. rewrite Hn. by apply Ho.
  - congruence.
  - by rewrite Hn.
Qed.
Lemma event_type_statement_find_other s et c :
  Cameo.code et <> c ->
  find_nodes "EventType" "cameoCode" (VStr c) (event_type_statement s et)
  = find_nodes "EventType" "cameoCode" (VStr c) s.
Proof.
  intros Hne. rewrite event_type_statement_find.
  pose proof (merge_node_spec "EventType" "cameoCode" (Cameo.code et) [] s eq_refl) as Hspec.
  destruct (merge_node _ _ _ _ s) as [s1 bound]. cbn [fst].
  destruct Hspec as (_ & _ & _ & _ & [[_ ->]|[_ Hnodes]]); [done|].
  unfold find_nodes at 1. rewrite Hnodes, find_nodes_snoc.
  assert (node_matches "EventType" "cameoCode" (VStr c)
            (mkNode "EventType" (set_props [("cameoCode", VStr (Cameo.code et))] ∅)) = false)
    as ->; [|by rewrite app_nil_r].
  unfold node_matches, has_prop. cbn. rewrite lookup_insert_eq. cbn.
  by apply String.eqb_neq.
Qed.
Lemma statements_keep_carrying (post : list Cameo.CAMEOEventType) et s :
  Forall (fun x => Cameo.code x <> Cameo.code et) post ->
  (forall i n,
     i ∈ find_nodes "EventType" "cameoCode" (VStr (Cameo.code et)) s ->
     nodes s !! i = Some n -> carries (event_type_props et) n) ->
  forall i n,
    i ∈ find_nodes "EventType" "cameoCode" (VStr (Cameo.code et))
          (foldl event_type_statement s post) ->
    nodes (foldl event_type_statement s post) !! i = Some n ->
    carries (event_type_props et) n.
Proof.
  revert s. induction post as [|et' post IH]; intros s Hpost Hs; [done|].
  apply Forall_cons in Hpost as [Hne Hpost]. cbn [foldl]. apply IH; [done|].
  intros i n. rewrite event_type_statement_find_other by done. intros Hi Hn.
  apply elem_of_find_nodes in Hi as Hi'. destruct Hi' as (n0 & Hn0 & _).
  rewrite (event_type_statement_keeps s et et' i n0 Hne Hi Hn0) in Hn.
  injection Hn as <-. by apply (Hs i).
Qed.
(** [_load_event_types] sets the attributes on a match as well (there is no
    [ON CREATE]): when a code is listed more than once, its nodes end up
    with the attributes of the last event type listed for it. *)
Theorem load_event_types_last_wins
    (s : store) (pre post : list Cameo.CAMEOEventType) (et : Cameo.CAMEOEventType)
    (hierarchy : list (string * list string)) :
  Forall (fun x => Cameo.code x <> Cameo.code et) post ->
  let s' := _load_event_types s (pre ++ et :: post) hierarchy in
  forall i n,
    i ∈ find_nodes "EventType" "cameoCode" (VStr (Cameo.code et)) s' ->
    nodes s' !! i = Some n ->
    carries (event_type_props et) n.
Proof.
  intros Hpost. cbn zeta. unfold _load_event_types.
  destruct (hierarchy_statements_data hierarchy
              (foldl event_type_statement s (pre ++ et :: post))) as [Hn _].
  cbn zeta in Hn. intros i n.
  rewrite (find_nodes_same_nodes _ _ _ _ _ Hn), Hn.
  rewrite foldl_app. cbn [foldl].
  apply statements_keep_carrying; [done|].
  apply event_type_statement_carries.
Qed.
(** The edges of the hierarchy *)
Lemma parent_statement_settles parent child s :
  parent_linked parent child (parent_statement parent child s).
Proof.
  intros p c.
  rewrite !(find_nodes_same_nodes _ _ _ _ _ (proj1 (parent_statement_data parent child s))).
  intros Hp Hc. unfold parent_statement.
  apply (merge_edges_settles "PARENT_TYPE" [] _ s (c, p)).
  apply list_elem_of_bind. exists p. split; [|done].
  apply list_elem_of_bind. exists c. split; [|done]. by apply list_elem_of_singleton.
Qed.
Lemma parent_statement_preserves parent child p0 c0 s :
  parent_linked p0 c0 s -> parent_linked p0 c0 (parent_statement parent child s).
Proof.
  intros H p c.
  rewrite !(find_nodes_same_nodes _ _ _ _ _ (proj1 (parent_statement_data parent child s))).
  intros Hp Hc. unfold parent_statement. apply merge_edges_preserves; [by right|].
  by apply H.
Qed.
Lemma children_statements parent (cs : list string) s :
  let s' := foldl (fun s child_code => parent_statement parent child_code s) s cs in
  (forall child, child ∈ cs -> parent_linked parent child s')
  /\ (forall p0 c0, parent_linked p0 c0 s -> parent_linked p0 c0 s').
Proof.
  revert s. induction cs as [|c cs IH]; intros s; cbn zeta.
  - split; [|done]. intros child H. by apply elem_of_nil in H.
  - cbn [foldl]. destruct (IH (parent_statement parent c s)) as [IH1 IH2].
    split.
    + intros child [->|Hin]%elem_of_cons; [|by apply IH1].
      apply IH2, parent_statement_settles.
    + intros p0 c0 H. by apply IH2, parent_statement_preserves.
Qed.
Lemma hierarchy_statements (h : list (string * list string)) s :
  let s' := foldl (fun s entry =>
                     foldl (fun s child_code => parent_statement entry.1 child_code s)
                           s entry.2) s h in
  (forall parent children child,
     (parent, children) ∈ h -> child ∈ children -> parent_linked parent child s')
  /\ (forall p0 c0, parent_linked p0 c0 s -> parent_linked p0 c0 s').
Proof.
  revert s. induction h as [|[p cs] h IH]; intros s; cbn zeta.
  - split; [|done]. intros ? ? ? H. by apply elem_of_nil in H.
  - cbn [foldl fst snd].
    match goal with |- context [foldl _ ?s0 h] => destruct (IH s0) as [IH1 IH2] end.
    destruct (children_statements p cs s) as [Hc1 Hc2]. cbn zeta in *.
    split.
    + intros parent children child [[= -> ->]|Hin]%elem_of_cons Hchild.
      * by apply IH2, Hc1.
      * by eapply IH1.
    + intros p0 c0 H. by apply IH2, Hc2.
Qed.
(** Every pair of the hierarchy is linked: each node of the child code has
    a [PARENT_TYPE] edge to each node of the parent code. *)
Theorem load_event_types_parents
    (s : store) (event_types : list Cameo.CAMEOEventType)
    (hierarchy : list (string * list string)) (parent child : string)
    (children : list string) :
  (parent, children) ∈ hierarchy -> child ∈ children ->
  parent_linked parent child (_load_event_types s event_types hierarchy).
Proof.
  intros Hin Hchild. unfold _load_event_types.
  destruct (hierarchy_statements hierarchy (foldl event_type_statement s event_types))
    as [H _].
  by eapply H.
Qed.
(** Loading the actor types leaves the event types alone. *)
Lemma find_from_imap_lookup p (f : nat -> node -> node) i ns :
  (forall j n, ns !! j = Some n -> p (f j n) = p n) ->
  find_from p i (imap f ns) = find_from p i ns.
Proof.
  revert f i. induction ns as [|n ns IH]; intros f i Hf; [done|].
  cbn. rewrite (Hf 0 n eq_refl), IH; [done|]. intros j n' Hj. by apply (Hf (S j)).
Qed.
Lemma actor_type_statement_find l0 k0 v0 s a :
  l0 <> "CAMEOActorType" ->
  find_nodes l0 k0 v0 (actor_type_statement s a) = find_nodes l0 k0 v0 s.
Proof.
  intros Hl. unfold actor_type_statement.
  pose proof (merge_node_spec "CAMEOActorType" "code" (Cameo.ActorType.code a) [] s eq_refl)
    as Hspec.
  destruct (merge_node _ _ _ _ s) as [s1 bound].
  destruct Hspec as (-> & _ & _ & _ & Hcase).
  assert (H1 : find_nodes l0 k0 v0 s1 = find_nodes l0 k0 v0 s).
  { destruct Hcase as [[_ ->]|[_ Hnodes]]; [done|].
    unfold find_nodes at 1. rewrite Hnodes, find_nodes_snoc.
    assert (node_matches l0 k0 v0
              (mkNode "CAMEOActorType"
                 (set_props [("code", VStr (Cameo.ActorType.code a))] ∅)) = false)
      as ->; [|by rewrite app_nil_r].
    unfold node_matches. cbn [nlabel]. apply andb_false_intro1.
    apply String.eqb_neq. congruence. }
  rewrite <- H1. unfold find_nodes at 1, set_nodes. cbn [nodes].
  apply find_from_imap_lookup. intros j n Hj.
  case_bool_decide as Hb; [|done].
  apply elem_of_find_nodes in Hb as (n' & Hn' & Hm).
  rewrite Hj in Hn'. injection Hn' as <-.
  unfold node_matches in *. cbn [nlabel].
  apply andb_prop in Hm as [Hm _]. apply String.eqb_eq in Hm.
  rewrite Hm. replace (String.eqb "CAMEOActorType" l0) with false; [done|].
  symmetry. apply String.eqb_neq. congruence.
Qed.
Lemma actor_type_statement_edges s a :
  edges (actor_type_statement s a) = edges s.
Proof.
  unfold actor_type_statement.
  pose proof (merge_node_spec "CAMEOActorType" "code" (Cameo.ActorType.code a) [] s eq_refl)
    as Hspec.
  destruct (merge_node _ _ _ _ s) as [s1 bound].
  by destruct Hspec as (_ & _ & He & _).
Qed.
Lemma load_actor_types_event_types (actor_types : list Cameo.ActorType.CAMEOActorType) s :
  (forall v, find_nodes "EventType" "cameoCode" v (_load_actor_types s actor_types)
             = find_nodes "EventType" "cameoCode" v s)
  /\ edges (_load_actor_types s actor_types) = edges s.
Proof.
  unfold _load_actor_types. revert s.
  induction actor_types as [|a l IH]; intros s; [done|]. cbn [foldl].
  destruct (IH (actor_type_statement s a)) as [IH1 IH2]. split.
  - intros v. by rewrite IH1, actor_type_statement_find.
  - by rewrite IH2, actor_type_statement_edges.
Qed.
Lemma elem_of_children_of p (ets : list Cameo.CAMEOEventType) et :
  et ∈ ets -> Cameo.parent_code et = Some p -> Cameo.code et ∈ children_of p ets.
Proof.
  intros Hin Hp. unfold children_of. apply list_elem_of_fmap. exists et.
  split; [done|]. apply list_elem_of_In, filter_In. split.
  - by apply list_elem_of_In.
  - by apply bool_decide_eq_true.
Qed.

(** [load_cameo_ontology], end to end: for an event type whose parent
    code is the code of another event type of the ontology, both have a
    node afterwards, and each node of the child has a [PARENT_TYPE] edge
    to each node of the parent. *)
Theorem load_cameo_ontology_hierarchy
    (s : store) (o : Cameo.Ontology.CAMEOOntology) (et pt : Cameo.CAMEOEventType) :
  et ∈ Cameo.Ontology.event_types o ->
  pt ∈ Cameo.Ontology.event_types o ->
  Cameo.parent_code et = Some (Cameo.code pt) ->
  let s' := load_cameo_ontology s o in
  find_nodes "EventType" "cameoCode" (VStr (Cameo.code et)) s' <> []
  /\ find_nodes "EventType" "cameoCode" (VStr (Cameo.code pt)) s' <> []
  /\ parent_linked (Cameo.code pt) (Cameo.code et) s'.
Proof.
  intros Het Hpt Hparent. cbn zeta. unfold load_cameo_ontology.
  set (h := Cameo.Ontology.build_event_hierarchy o).
  set (s1 := _load_event_types s (Cameo.Ontology.event_types o) h).
  destruct (load_actor_types_event_types (Cameo.Ontology.actor_types o) s1)
    as [Hfind Hedges].
  assert (Hfound : forall x, x ∈ Cameo.Ontology.event_types o ->
            find_nodes "EventType" "cameoCode" (VStr (Cameo.code x)) s1 <> []).
  { intros x Hx. subst s1. unfold _load_event_types.
    destruct (statements_spec (Cameo.Ontology.event_types o) s) as (Hf & _).
    destruct (hierarchy_statements_data h
                (foldl event_type_statement s (Cameo.Ontology.event_types o)))
      as [Hn _].
    cbn zeta in *. rewrite (find_nodes_same_nodes _ _ _ _ _ Hn). by apply Hf. }
  split; [rewrite Hfind; by apply Hfound|].
  split; [rewrite Hfind; by apply Hfound|].
  assert (Hlinked : parent_linked (Cameo.code pt) (Cameo.code et) s1).
  { pose proof (elem_of_children_of _ _ _ Het Hparent) as Hchild.
    pose proof (build_event_hierarchy_get o (Cameo.code pt)) as Hget.
    fold h in Hget.
    destruct (children_of (Cameo.code pt) (Cameo.Ontology.event_types o))
      as [|c cs] eqn:Hcs; [by apply elem_of_nil in Hchild|].
    cbn in Hget. apply get_elem_of in Hget.
    by apply (load_event_types_parents s _ h _ _ (c :: cs)). }
  intros p c. rewrite !Hfind. intros Hp Hc.
  destruct (Hlinked p c Hp Hc) as [Hex Hall]. split; rewrite Hedges; done.
Qed.

End OntologyLoad.

(** ** The further properties on sample inputs

    Each property with a precondition is applied to one of the inputs of
    [Cases] or [ParserRuns], so that the precondition is seen to hold
    somewhere. *)

Section FurtherExamples.
Import Events CsvParser ParserRuns Neo4jLoader Stores Readings Cases.

Local Abbreviation iof := decimal_int_of_float.
Local Abbreviation fof := decimal_float_of.

(** The third of February 1989 is a calendar date, and is displayed as 1989-02-03. *)
Lemma display_date_iso_witness :
  calendar_date feb_3_1989 = Returned (Some (mkDate 1989 2 3))
  /\ display_date feb_3_1989 = Returned "1989-02-03".
Proof.
  split; [reflexivity|].
  destruct (display_date_iso feb_3_1989 (mkDate 1989 2 3) eq_refl) as [H _].
  exact H.
Defined.

(** Merging the army and the crowd one after the other is the union of their merges. *)
Lemma merge_actor_info_app_witness :
  exists m1 m2,
    Actors.merge_actor_info [army] = Some m1
    /\ Actors.merge_actor_info [crowd] = Some m2
    /\ Actors.merge_actor_info ([army] ++ [crowd]) = Some (merged_union m1 m2).
Proof.
  eexists _, _. split; [reflexivity|]. split; [reflexivity|].
  apply merge_actor_info_app; reflexivity.
Defined.

(** The type 0111 has the parent 011, and both have the same root category. *)
Lemma parent_code_root_category_witness :
  Cameo.parent_code type_0111 = Some (Cameo.code type_011)
  /\ Cameo.root_category type_011 = Cameo.root_category type_0111.
Proof.
  split; [reflexivity|].
  destruct (parent_code_root_category type_0111 type_011 eq_refl) as [H _].
  exact H.
Defined.

(** A verb line with the code 1032: level 4, parent 103. *)
Lemma parse_verb_line_shape_witness :
  CameoParser._parse_verb_line "ACCEPT * DEMAND [1032]" = Some verb_1032
  /\ Cameo.Verb.level verb_1032 = Cameo.len (Cameo.Verb.code verb_1032)
  /\ Cameo.Verb.parent_code verb_1032 = Some "103".
Proof.
  split; [reflexivity|].
  destruct (parse_verb_line_shape "ACCEPT * DEMAND [1032]" verb_1032 eq_refl)
    as (_ & _ & _ & _ & Hlevel & Hparent & _).
  split; [exact Hlevel | exact Hparent].
Defined.

(** An event type line with the code 011: level 3, a label that is not empty. *)
Lemma parse_event_type_line_shape_witness :
  CameoParser.parse_event_type_line "LABEL: 011= Decline comment" = Some type_011
  /\ Cameo.level type_011 = Cameo.len (Cameo.code type_011)
  /\ Cameo.label type_011 <> EmptyString.
Proof.
  split; [reflexivity|].
  destruct (parse_event_type_line_shape "LABEL: 011= Decline comment" type_011 eq_refl)
    as (_ & _ & Hlevel & _ & _ & Hlabel & _).
  split; [exact Hlevel | exact Hlabel].
Defined.

(** A line with two [=] is an option, cut at the first, and no event type. *)
Lemma parse_option_line_shape_witness :
  CameoParser.parse_option_line "  KEY = value = more " = Some option_key
  /\ CameoParser.parse_event_type_line "  KEY = value = more " = None.
Proof.
  split; [reflexivity|].
  destruct (parse_option_line_shape "  KEY = value = more " option_key eq_refl)
    as [H _].
  exact H.
Defined.

(** The sample of 106 columns is accepted; it has 106 columns and no name twice. *)
Lemma validate_accepts_sound_witness :
  SchemaValidator.validate (SchemaValidator.Readable sample_106) = (true, [])
  /\ length (SchemaValidator.columns sample_106) = 106%nat
  /\ NoDup (SchemaValidator.names sample_106).
Proof.
  assert (H : SchemaValidator.validate (SchemaValidator.Readable sample_106) = (true, []))
    by (vm_compute; reflexivity).
  split; [exact H|].
  destruct (validate_accepts_sound sample_106 H) as (Hlen & _ & Hnd & _).
  split; [exact Hlen | exact Hnd].
Defined.

(** A header without rows is rejected, with completeness 0 reported. *)
Lemma validate_header_only_witness :
  exists findings,
    SchemaValidator.validate (SchemaValidator.Readable header_only) = (false, findings)
    /\ SchemaValidator.LowCompleteness 0 ∈ findings.
Proof.
  destruct (validate_header_only header_only eq_refl) as (fs & Hv & Hin & _).
  - repeat constructor.
  - exists fs. split; [exact Hv | exact Hin].
Defined.

(** The initiator of the first linked row is built, with its role and a name. *)
Lemma parse_actor_named_witness :
  exists a,
    _parse_actor iof fof row_e1 "INI" INITIATOR = Returned (Some a)
    /\ role a = INITIATOR
    /\ truthy_str (primary_name a) = true.
Proof.
  destruct (_parse_actor iof fof row_e1 "INI" INITIATOR) as [[a|]|e] eqn:Ha;
    [|by vm_compute in Ha..].
  exists a. split; [reflexivity|].
  destruct (parse_actor_named iof fof row_e1 "INI" INITIATOR a Ha) as (Hr & Hn & _).
  split; [exact Hr | exact Hn].
Defined.

(** The location of the second linked row is built, keyed by its display name. *)
Lemma parse_location_keyed_witness :
  exists l,
    _parse_location iof fof row_e2 = Returned (Some l)
    /\ or_str (name l) (country l) = Some (display_name l).
Proof.
  destruct (_parse_location iof fof row_e2) as [[l|]|e] eqn:Hl;
    [|by vm_compute in Hl..].
  exists l. split; [reflexivity|].
  destruct (parse_location_keyed iof fof row_e2 l Hl) as [H _]. exact H.
Defined.

(** The second linked row has no count, and no Impact is built from it. *)
Lemma parse_impact_counts_witness :
  _parse_impact iof row_e2 = Returned None
  /\ Forall (fun field => exists v, _safe_int iof row_e2 field = Returned v
                                    /\ truthy_int v = false)
       ["N_KILLED_P"; "N_KILLED_A"; "N_INJURD"; "arrests"; "property_damaged"].
Proof.
  assert (H : _parse_impact iof row_e2 = Returned None) by (vm_compute; reflexivity).
  split; [exact H|]. exact (parse_impact_counts iof row_e2 None H).
Defined.

(** The first linked row parses; its property keys are distinct and hold no linkage identifier. *)
Lemma parse_row_property_keys_witness :
  _parse_row iof fof row_e1 = Returned (Some event_e1)
  /\ NoDup (properties event_e1).*1
  /\ PyDict.get "FROM_EID" (properties event_e1) = None
  /\ PyDict.get "TO_EID" (properties event_e1) = None.
Proof.
  assert (H : _parse_row iof fof row_e1 = Returned (Some event_e1))
    by (vm_compute; reflexivity).
  split; [exact H|].
  destruct (parse_row_property_keys iof fof row_e1 event_e1 H) as (Hnd & _ & Hfrom & Hto).
  split; [exact Hnd|]. split; [exact Hfrom | exact Hto].
Defined.

(** The second linked row parses to an Event that names E1, a stripped identifier. *)
Lemma parse_row_links_witness :
  _parse_row iof fof row_e2 = Returned (Some event_e2)
  /\ get_all_linked_events event_e2 = ["E1"]
  /\ Forall (fun x => PyStr.truthy x = true /\ PyStr.strip x = x)
       (get_all_linked_events event_e2)
  /\ temporal event_e2 <> None.
Proof.
  assert (H : _parse_row iof fof row_e2 = Returned (Some event_e2))
    by (vm_compute; reflexivity).
  split; [exact H|]. split; [reflexivity|].
  destruct (parse_row_links iof fof row_e2 event_e2 H) as (_ & _ & Hall & Ht).
  split; [exact Hall | exact Ht].
Defined.

(** After three steps on three rows every yielded Event is identified and the log stays within the skipped count. *)
Lemma parse_yields_identified_witness :
  Forall (fun ev => PyStr.truthy (event_id ev) = true
                    /\ PyStr.strip (event_id ev) = event_id ev
                    /\ temporal ev <> None)
    (yielded (run iof fof 3 (start three_rows)))
  /\ length (errors (self (run iof fof 3 (start three_rows))))
     <= skipped_count (self (run iof fof 3 (start three_rows))).
Proof.
  destruct (parse_yields_identified iof fof three_rows
              (run iof fof 3 (start three_rows))
              (run_reaches iof fof (start three_rows) 3))
    as (Hy & He & _).
  split; [exact Hy | exact He].
Defined.

(** The store with the single root category 01 has codes with a leading zero only. *)
Lemma root_store_zero_codes : zero_codes root_store.
Proof.
  intros n c Hn _ Hc. apply list_elem_of_singleton in Hn as ->.
  cbn in Hc. rewrite lookup_singleton_eq in Hc. by injection Hc as <-.
Qed.

(** An Event of type 1 is not linked to the root category 01. *)
Lemma link_event_type_skips_zero_codes_witness :
  zero_codes root_store
  /\ _link_event_type root_store event_of_type_1 = root_store.
Proof.
  split; [exact root_store_zero_codes|].
  exact (link_event_type_skips_zero_codes root_store event_of_type_1
           root_store_zero_codes).
Defined.

(** The code 011 listed twice: its node has the label of the second listing. *)
Lemma load_event_types_last_wins_witness :
  exists n,
    nodes (_load_event_types empty [type_011; type_011_again; type_0111] []) !! 0%nat
    = Some n
    /\ nprops n !! "label" = Some (VStr "Decline to comment")
    /\ carries (event_type_props type_011_again) n.
Proof.
  assert (H : Forall (fun x => Cameo.code x <> Cameo.code type_011_again) [type_0111]).
  { repeat constructor. discriminate. }
  eexists. split; [reflexivity|]. split; [reflexivity|].
  apply (load_event_types_last_wins empty [type_011] [type_0111] type_011_again []
           H 0%nat).
  - apply elem_of_cons; by left.
  - reflexivity.
Defined.

(** In the small ontology the nodes of 0111 are linked to the nodes of 011. *)
Lemma load_cameo_ontology_hierarchy_witness :
  Cameo.parent_code type_0111 = Some (Cameo.code type_011)
  /\ parent_linked "011" "0111" (load_cameo_ontology fresh small_ontology).
Proof.
  split; [reflexivity|].
  destruct (load_cameo_ontology_hierarchy fresh small_ontology type_0111 type_011)
    as (_ & _ & H).
  - apply elem_of_cons; right. apply elem_of_cons; right. apply elem_of_cons; by left.
  - apply elem_of_cons; right. apply elem_of_cons; by left.
  - reflexivity.
  - exact H.
Defined.

(** The store the small ontology loads into: three event types, one actor type, two edges. *)
Example ontology_nodes :
  let s := load_cameo_ontology fresh small_ontology in
  find_nodes "EventType" "cameoCode" (VStr "01") s = [0%nat]
  /\ find_nodes "EventType" "cameoCode" (VStr "011") s = [1%nat]
  /\ find_nodes "EventType" "cameoCode" (VStr "0111") s = [2%nat]
  /\ find_nodes "CAMEOActorType" "code" (VStr "USAGOV") s = [3%nat]
  /\ length (edges_between 1 "PARENT_TYPE" 0 s) = 1%nat
  /\ length (edges_between 2 "PARENT_TYPE" 1 s) = 1%nat
  /\ length (edges s) = 2%nat.
Proof. vm_compute. done. Qed.
End FurtherExamples.
